(** * Image-Processing: mask lifecycle, strategy selection and batch orchestration

    A shallow embedding of the watermark-removal core of the repository:

    - [image_tools/watermark/watermark_remover.py]  (module [Remover])
    - [image_tools/core/watermark_remover.py]       (module [Core])
    - [image_tools/watermark/batch_processor.py]    (module [Batch])

    Conventions.  Python [int] is [Z].  Python [float] values that take part
    in a decision (scale factors, area fractions, confidences, the random
    sample of the snapshot throttle) are exact rationals [Q]; rounding and
    the non-finite floats are outside the model, and each place where a
    non-finite float could arise in the source is guarded explicitly.  A
    raised exception is [None] in the option monad.  OpenCV, PIL and the file
    system are external: they enter as records of functions, and every
    theorem holds for all of them. *)

From Stdlib Require Import ZArith QArith Qminmax Lia.
From stdpp Require Import base option list strings sorting gmap.

Local Open Scope Z_scope.

(** ** Python semantics shared by the three modules *)

Module Py.

(** [int(q)] on a float: truncation towards zero. *)
Definition int (q : Q) : Z := Z.quot (Qnum q) (Zpos (Qden q)).

(** [a / b] with a float result: [ZeroDivisionError] when [b] is zero. *)
Definition truediv (a b : Q) : option Q :=
  if Qeq_bool b 0 then None else Some (a / b)%Q.

(** [min(a, b)] and [max(a, b)]: the first argument unless the second one is
    strictly smaller (resp. larger). *)
Definition minQ (a b : Q) : Q := if Qle_bool a b then a else b.
Definition maxQ (a b : Q) : Q := if Qle_bool b a then a else b.

(** [a < b] and [a > b] on floats, as booleans. *)
Definition ltQ (a b : Q) : bool := negb (Qle_bool b a).
Definition gtQ (a b : Q) : bool := ltQ b a.

(** [l[:k]] for a possibly negative bound. *)
Definition slice_to {A} (l : list A) (k : Z) : list A :=
  if 0 <=? k then take (Z.to_nat k) l
  else take (Z.to_nat (Z.of_nat (length l) + k)) l.

(** [l[i]]: negative indices count from the end, [IndexError] otherwise. *)
Definition index {A} (l : list A) (i : Z) : option A :=
  if 0 <=? i then l !! Z.to_nat i
  else if 0 <=? Z.of_nat (length l) + i then l !! Z.to_nat (Z.of_nat (length l) + i)
  else None.

End Py.

(** ** Rasters: numpy arrays of shape (h, w) as lists of rows *)

Module Raster.

Definition raster (A : Type) : Type := list (list A).

(** A single-channel uint8 mask, and a colour image whose pixels are opaque
    to the mask lifecycle. *)
Definition mask : Type := raster Z.
Definition pixel : Type := (Z * Z * Z)%type.
Definition img : Type := raster pixel.

(** [a.shape[:2]] *)
Definition height {A} (a : raster A) : Z := Z.of_nat (length a).
Definition width {A} (a : raster A) : Z := Z.of_nat (length (hd [] a)).
Definition shape {A} (a : raster A) : Z * Z := (height a, width a).

(** [np.zeros((h, w), dtype=np.uint8)] *)
Definition zeros (h w : Z) : mask := replicate (Z.to_nat h) (replicate (Z.to_nat w) 0).

(** [np.max(a)]; numpy raises [ValueError] on an array without elements. *)
Definition np_max (a : mask) : option Z :=
  match concat a with
  | [] => None
  | x :: xs => Some (foldr Z.max x xs)
  end.

(** [np.sum(a > t)] *)
Definition count_gt (t : Z) (a : mask) : Z :=
  Z.of_nat (length (filter (fun v => t < v) (concat a))).

(** [cv2.threshold(a, 127, 255, cv2.THRESH_BINARY)] *)
Definition threshold (a : mask) : mask :=
  map (map (fun v => if 127 <? v then 255 else 0)) a.

End Raster.

(** ** External collaborators *)

Module Cv.
Import Raster.

(** [cv2.INPAINT_NS] and [cv2.INPAINT_TELEA] *)
Inductive inpaint_flag := INPAINT_NS | INPAINT_TELEA.

Definition point : Type := (Z * Z)%type.

(** The OpenCV entry points the interactive remover and the batch processor
    call.  Drawing with colour 255 is in place on the array it is given, so it
    is a function from the old contents to the new ones.  [cv_resize] and
    [cv_inpaint] return [None] when OpenCV raises. *)
Record opencv := {
  (* cv2.line(mask, p, q, 255, thickness) *)
  cv_line : mask -> point -> point -> Z -> mask;
  (* cv2.circle(mask, c, radius, 255, -1) *)
  cv_circle : mask -> point -> Z -> mask;
  (* cv2.resize(mask, (w, h), interpolation=cv2.INTER_NEAREST) *)
  cv_resize : mask -> Z -> Z -> option mask;
  (* cv2.inpaint(image, mask, radius, flag) *)
  cv_inpaint : img -> mask -> Z -> inpaint_flag -> option img
}.

(** [cv2.line] and [cv2.circle] check their arguments before they draw.  A
    line needs a thickness in [1, MAX_THICKNESS]; a filled circle needs a
    radius that is not negative and fits a C [int].  Outside of that they
    raise, which is [None] here, and the array is left as it was. *)
Definition MAX_THICKNESS : Z := 32767.
Definition INT_MAX : Z := 2147483647.

Definition cv2_line (cv : opencv) (m : mask) (p q : point) (thickness : Z)
  : option mask :=
  if (1 <=? thickness) && (thickness <=? MAX_THICKNESS)
  then Some (cv_line cv m p q thickness)
  else None.

Definition cv2_circle (cv : opencv) (m : mask) (c : point) (radius : Z)
  : option mask :=
  if (0 <=? radius) && (radius <=? INT_MAX)
  then Some (cv_circle cv m c radius)
  else None.

(** One recorded call of the inpainting oracle. *)
Record inpaint_call := {
  call_image : img; call_mask : mask; call_radius : Z; call_flag : inpaint_flag
}.

End Cv.

(** ** watermark/watermark_remover.py: class WatermarkRemover *)

Module Remover.
Import Raster Cv.

(** The attributes of a [WatermarkRemover].  [masked_preview] is a rendering
    of [image] and [mask] that nothing modelled here reads back; it is left
    out together with [_update_mask_preview]. *)
Record remover := {
  image : option img;
  original_image : option img;
  mask : option Raster.mask;
  result_image : option img;
  inpaint_radius : Z;
  algorithm : inpaint_flag;
  is_processing : bool;
  display_width : Z;
  display_height : Z;
  scale_factor : Q;
  mask_history : list Raster.mask;
  history_index : Z
}.

(** [WatermarkRemover.__init__] *)
Definition init : remover := {|
  image := None; original_image := None; mask := None; result_image := None;
  inpaint_radius := 3; algorithm := INPAINT_TELEA; is_processing := false;
  display_width := 0; display_height := 0; scale_factor := 1;
  mask_history := []; history_index := -1
|}.

(** Attribute assignments. *)
Definition set_mask (s : remover) (m : option Raster.mask) : remover := {|
  image := image s; original_image := original_image s; mask := m;
  result_image := result_image s; inpaint_radius := inpaint_radius s;
  algorithm := algorithm s; is_processing := is_processing s;
  display_width := display_width s; display_height := display_height s;
  scale_factor := scale_factor s; mask_history := mask_history s;
  history_index := history_index s
|}.

Definition set_history (s : remover) (h : list Raster.mask) (i : Z) : remover := {|
  image := image s; original_image := original_image s; mask := mask s;
  result_image := result_image s; inpaint_radius := inpaint_radius s;
  algorithm := algorithm s; is_processing := is_processing s;
  display_width := display_width s; display_height := display_height s;
  scale_factor := scale_factor s; mask_history := h; history_index := i
|}.

Definition set_images (s : remover) (i o r : option img) : remover := {|
  image := i; original_image := o; mask := mask s;
  result_image := r; inpaint_radius := inpaint_radius s;
  algorithm := algorithm s; is_processing := is_processing s;
  display_width := display_width s; display_height := display_height s;
  scale_factor := scale_factor s; mask_history := mask_history s;
  history_index := history_index s
|}.

Definition set_params (s : remover) (r : Z) (a : inpaint_flag) (p : bool) : remover := {|
  image := image s; original_image := original_image s; mask := mask s;
  result_image := result_image s; inpaint_radius := r;
  algorithm := a; is_processing := p;
  display_width := display_width s; display_height := display_height s;
  scale_factor := scale_factor s; mask_history := mask_history s;
  history_index := history_index s
|}.

Definition set_display (s : remover) (w h : Z) (f : Q) : remover := {|
  image := image s; original_image := original_image s; mask := mask s;
  result_image := result_image s; inpaint_radius := inpaint_radius s;
  algorithm := algorithm s; is_processing := is_processing s;
  display_width := w; display_height := h;
  scale_factor := f; mask_history := mask_history s;
  history_index := history_index s
|}.

(** [_save_mask_to_history] *)
Definition _save_mask_to_history (s : remover) : remover :=
  match mask s with
  | None => s
  | Some m =>
      let h :=
        if history_index s <? Z.of_nat (length (mask_history s)) - 1
        then Py.slice_to (mask_history s) (history_index s + 1)
        else mask_history s in
      let h' := h ++ [m] in
      set_history s h' (Z.of_nat (length h') - 1)
  end.

(** [load_image].  [exists_] is [os.path.exists(image_path)], [cv] the array
    [cv2.imread] returns ([None] for Python's [None]) and [pil] the array the
    PIL fallback decodes ([None] when it raises). *)
Definition loaded (s : remover) (i : img) : remover :=
  let s1 := set_images s (Some i) (Some i) None in
  let s2 := set_mask s1 (Some (zeros (height i) (width i))) in
  _save_mask_to_history (set_history s2 [] (-1)).

Definition load_image (s : remover) (exists_ : bool) (cv pil : option img)
  : remover * bool :=
  if negb exists_ then (s, false)
  else match cv with
       | Some i => (loaded s i, true)
       | None =>
           match pil with
           | Some i => (loaded s i, true)
           | None => (set_images s (image s) None (result_image s), false)
           end
       end.

(** [set_algorithm]: the caller's string, upper-cased, is ["TELEA"], ["NS"]
    or anything else. *)
Inductive algorithm_name := NameTelea | NameNS | NameOther.

Definition set_algorithm (s : remover) (n : algorithm_name) : remover :=
  set_params s (inpaint_radius s)
    (match n with NameNS => INPAINT_NS | _ => INPAINT_TELEA end)
    (is_processing s).

(** [set_inpaint_radius] *)
Definition set_inpaint_radius (s : remover) (radius : Z) : remover :=
  set_params s (Z.max 1 (Z.min 20 radius)) (algorithm s) (is_processing s).

(** [set_display_size]; the division raises [ZeroDivisionError] on an image
    without columns or rows. *)
Definition set_display_size (s : remover) (w h : Z) : option remover :=
  match image s with
  | None => Some (set_display s w h (scale_factor s))
  | Some i =>
      fw ← Py.truediv (inject_Z w) (inject_Z (width i));
      fh ← Py.truediv (inject_Z h) (inject_Z (height i));
      Some (set_display s w h (Py.minQ fw fh * (9 # 10))%Q)
  end.

(** [canvas_to_image_coords] *)
Definition canvas_to_image_coords (s : remover) (canvas_coords : point)
  : option point :=
  match image s with
  | None => Some canvas_coords
  | Some i =>
      let canvas_width := display_width s in
      let canvas_height := display_height s in
      let img_height := height i in
      let img_width := width i in
      let scaled_width := Py.int (inject_Z img_width * scale_factor s)%Q in
      let scaled_height := Py.int (inject_Z img_height * scale_factor s)%Q in
      let x_offset := Z.max 0 ((canvas_width - scaled_width) / 2) in
      let y_offset := Z.max 0 ((canvas_height - scaled_height) / 2) in
      qx ← Py.truediv (inject_Z (canvas_coords.1 - x_offset)) (scale_factor s);
      qy ← Py.truediv (inject_Z (canvas_coords.2 - y_offset)) (scale_factor s);
      let img_x := Py.int qx in
      let img_y := Py.int qy in
      let img_x := Z.max 0 (Z.min img_x (img_width - 1)) in
      let img_y := Z.max 0 (Z.min img_y (img_height - 1)) in
      Some (img_x, img_y)
  end.

(** The guard both drawing methods start with: a mask whose shape differs
    from the image's is replaced by a zero mask of the image's shape. *)
Definition fit_mask (i : img) (m : Raster.mask) : Raster.mask :=
  if decide (shape m = shape i) then m else zeros (height i) (width i).

Definition in_bounds (m : Raster.mask) (p : point) : bool :=
  (0 <=? p.1) && (p.1 <? width m) && (0 <=? p.2) && (p.2 <? height m).

(** [start_draw] *)
Definition start_draw (cv : opencv) (s : remover) (canvas_point : point)
    (brush_size : Z) : option remover :=
  match image s, mask s with
  | Some i, Some m =>
      let m := fit_mask i m in
      let s := set_mask s (Some m) in
      img_point ← canvas_to_image_coords s canvas_point;
      let radius := Z.max 1 (brush_size / 2) in
      if in_bounds m img_point
      then m1 ← cv2_circle cv m img_point radius; Some (set_mask s (Some m1))
      else Some s
  | _, _ => Some s
  end.

(** [draw_line_on_mask]; [rnd] is the sample [np.random.random()] returns. *)
Definition draw_line_on_mask (cv : opencv) (s : remover)
    (start_canvas_coords end_canvas_coords : point) (brush_size : Z) (rnd : Q)
  : option remover :=
  match image s, mask s with
  | Some i, Some m =>
      let m := fit_mask i m in
      let s := set_mask s (Some m) in
      start_img ← canvas_to_image_coords s start_canvas_coords;
      end_img ← canvas_to_image_coords s end_canvas_coords;
      s ← (if in_bounds m start_img && in_bounds m end_img then
             let radius := Z.max 1 (brush_size / 2) in
             m1 ← cv2_line cv m start_img end_img brush_size;
             m2 ← cv2_circle cv m1 start_img radius;
             m3 ← cv2_circle cv m2 end_img radius;
             Some (set_mask s (Some m3))
           else Some s);
      Some (if Py.ltQ rnd (2 # 10) then _save_mask_to_history s else s)
  | _, _ => Some s
  end.

(** [clear_mask] *)
Definition clear_mask (s : remover) : remover :=
  match image s with
  | Some i => set_mask s (Some (zeros (height i) (width i)))
  | None => s
  end.

(** [undo_mask] *)
Definition undo_mask (s : remover) : option (remover * bool) :=
  if bool_decide (mask_history s = []) || (history_index s <=? 0)
  then Some (s, false)
  else
    let i := history_index s - 1 in
    m ← Py.index (mask_history s) i;
    Some (set_mask (set_history s (mask_history s) i) (Some m), true).

(** [redo_mask] *)
Definition redo_mask (s : remover) : option (remover * bool) :=
  if Z.of_nat (length (mask_history s)) - 1 <=? history_index s
  then Some (s, false)
  else
    let i := history_index s + 1 in
    m ← Py.index (mask_history s) i;
    Some (set_mask (set_history s (mask_history s) i) (Some m), true).

(** [remove_watermark].  Besides the new state and the returned flag, the
    model reports the calls made to the inpainting oracle. *)
Definition remove_watermark (cv : opencv) (s : remover)
  : remover * bool * list inpaint_call :=
  match image s, mask s with
  | Some _, Some m =>
      let failed := set_params s (inpaint_radius s) (algorithm s) false in
      match original_image s with
      | None => (failed, false, [])
      | Some orig =>
          match cv_resize cv m (width orig) (height orig) with
          | None => (failed, false, [])
          | Some mask_resized =>
              let mask_binary := threshold mask_resized in
              match np_max mask_binary with
              | None => (failed, false, [])
              | Some 0 => (failed, false, [])
              | Some _ =>
                  let call := {| call_image := orig; call_mask := mask_binary;
                                 call_radius := inpaint_radius s;
                                 call_flag := algorithm s |} in
                  match cv_inpaint cv orig mask_binary (inpaint_radius s) (algorithm s) with
                  | None => (failed, false, [call])
                  | Some r =>
                      (set_images failed (image s) (original_image s) (Some r),
                       true, [call])
                  end
              end
          end
      end
  | _, _ => (s, false, [])
  end.

(** [get_result_image] *)
Definition get_result_image (s : remover) : option img := result_image s.

(** [continue_edit_result] *)
Definition continue_edit_result (s : remover) : remover * bool :=
  match result_image s with
  | None => (s, false)
  | Some r =>
      let s1 := set_images s (Some r) (Some r) (Some r) in
      let s2 := set_mask s1 (Some (zeros (height r) (width r))) in
      let s3 := _save_mask_to_history (set_history s2 [] (-1)) in
      (set_images s3 (image s3) (original_image s3) None, true)
  end.

End Remover.

(** ** core/watermark_remover.py: class WatermarkRemover *)

Module Core.
Import Raster.

(** The four concrete removal routines the dispatcher can run. *)
Inductive method := Basic | NavierStokes | FastMarching | PatchBased.

Inductive level := Info | Warning | Error.

(** The records handed to the [logging] module, oldest first. *)
Definition log_record : Type := (level * string)%type.

(** A bounding box as [cv2.boundingRect] returns it. *)
Definition box : Type := (Z * Z * Z * Z)%type.

(** An entry of [detected_regions]. *)
Record region := {
  x : Z; y : Z; region_width : Z; region_height : Z; area : Z; confidence : Q
}.

(** What the class takes from OpenCV, numpy and PIL.
    - [run] is the body of [_basic_remove], [_ns_algorithm],
      [_telea_algorithm], and of the guarded part of [_patchmatch_algorithm]:
      arguments are the preview flag, [preview_quality], the image and the
      mask; [None] when it raises.
    - [patch_setup] is the part of [_patchmatch_algorithm] before its [try]:
      the conversions, the threshold and, in preview mode, the two calls of
      [cv2.resize]; [false] when one of them raises.
    - [dilate] and [erode] are [cv2.dilate] and [cv2.erode] with the 3x3
      kernel and one iteration.
    - [find_boxes] is the pipeline of [detect_watermark] from [pil_to_cv] to
      the bounding rectangles of the external contours, together with the
      grey image; [None] when a step raises.
    - [np_std] and [sobel_sum] measure the grey image on a box: the
      standard deviation and the summed gradient magnitude. *)
Record imaging (gray : Type) := {
  run : method -> bool -> Z -> img -> mask -> option img;
  patch_setup : bool -> Z -> img -> mask -> bool;
  dilate : mask -> mask;
  erode : mask -> mask;
  find_boxes : img -> option (gray * list box);
  np_std : gray -> box -> Q;
  sobel_sum : gray -> box -> Q
}.
Arguments run {gray}.
Arguments patch_setup {gray}.
Arguments dilate {gray}.
Arguments erode {gray}.
Arguments find_boxes {gray}.
Arguments np_std {gray}.
Arguments sobel_sum {gray}.

(** The attributes of the class; [display_image] is a rendering and is left
    out.  [log] collects what the methods pass to [logging]. *)
Record core := {
  original_image : option img;
  current_image : option img;
  mask : option Raster.mask;
  detected_regions : list region;
  algorithm : string;
  processing : bool;
  preview_quality : Z;
  log : list log_record
}.

Definition set_log (s : core) (l : list log_record) : core := {|
  original_image := original_image s; current_image := current_image s;
  mask := mask s; detected_regions := detected_regions s;
  algorithm := algorithm s; processing := processing s;
  preview_quality := preview_quality s; log := l
|}.

Definition logging (s : core) (lv : level) (msg : string) : core :=
  set_log s (log s ++ [(lv, msg)]).

Definition set_mask (s : core) (m : option Raster.mask) : core := {|
  original_image := original_image s; current_image := current_image s;
  mask := m; detected_regions := detected_regions s;
  algorithm := algorithm s; processing := processing s;
  preview_quality := preview_quality s; log := log s
|}.

Definition set_detected (s : core) (r : list region) : core := {|
  original_image := original_image s; current_image := current_image s;
  mask := mask s; detected_regions := r;
  algorithm := algorithm s; processing := processing s;
  preview_quality := preview_quality s; log := log s
|}.

Definition set_current (s : core) (c : option img) (p : bool) : core := {|
  original_image := original_image s; current_image := c;
  mask := mask s; detected_regions := detected_regions s;
  algorithm := algorithm s; processing := p;
  preview_quality := preview_quality s; log := log s
|}.

(** *** Strategy selection: [_auto_algorithm] *)

(** [np.sum(mask_array > 127) / total_pixels]; the quotient of a mask without
    pixels is not a number, which is [None] here. *)
Definition mask_area (m : Raster.mask) : option Q :=
  let total_pixels := width m * height m in
  if total_pixels =? 0 then None
  else Some (inject_Z (count_gt 127 m) / inject_Z total_pixels)%Q.

(** [dilated - eroded] on uint8 arrays: the difference wraps modulo 256. *)
Definition edge_of (dilated eroded : Raster.mask) : Raster.mask :=
  zip_with (zip_with (fun d e => (d - e) mod 256)) dilated eroded.

(** [np.sum(edge > 0) / np.sum(mask_array > 127)], or 0 without a marked
    pixel. *)
Definition complexity {gray} (o : imaging gray) (m : Raster.mask) : Q :=
  let edge := edge_of (dilate o m) (erode o m) in
  if 0 <? count_gt 127 m
  then (inject_Z (count_gt 0 edge) / inject_Z (count_gt 127 m))%Q
  else 0%Q.

(** The branch [_auto_algorithm] takes: the routine it hands over to and the
    message it logs.  On a mask without pixels no branch is taken:
    [cv2.dilate] raises on an array without elements, which is [None]. *)
Definition auto_branch {gray} (o : imaging gray) (m : Raster.mask)
  : option (method * string) :=
  let c := complexity o m in
  match mask_area m with
  | None => None
  | Some a =>
      Some (
      if Py.ltQ a (1 # 100) then
        if Py.gtQ c (2 # 10)
        then (FastMarching, "auto: Telea (small area, complex shape)")
        else (NavierStokes, "auto: NS (small area, simple shape)")
      else if Py.ltQ a (1 # 10) then
        if Py.gtQ c (3 # 10)
        then (PatchBased, "auto: PatchMatch (medium area, complex shape)")
        else (FastMarching, "auto: Telea (medium area, simple shape)")
      else (PatchBased, "auto: PatchMatch (large area)"))
  end.

Definition auto_select {gray} (o : imaging gray) (m : Raster.mask)
  : option method :=
  fst <$> auto_branch o m.

(** The call of a routine; [None] is an exception that leaves the routine.
    In [_patchmatch_algorithm] only the part inside the [try] is guarded: a
    failure there is logged and answered with [_telea_algorithm], a failure
    before it leaves the routine. *)
Definition run_method {gray} (o : imaging gray) (s : core) (mt : method)
    (preview : bool) (i : img) (m : Raster.mask) : core * option img :=
  match mt with
  | PatchBased =>
      if patch_setup o preview (preview_quality s) i m then
        match run o PatchBased preview (preview_quality s) i m with
        | Some r => (s, Some r)
        | None =>
            (logging s Error "PatchMatch failed, falling back to Telea",
             run o FastMarching preview (preview_quality s) i m)
        end
      else (s, None)
  | _ => (s, run o mt preview (preview_quality s) i m)
  end.

Definition _auto_algorithm {gray} (o : imaging gray) (s : core)
    (preview : bool) (i : img) (m : Raster.mask) : core * option img :=
  match auto_branch o m with
  | Some (mt, msg) => run_method o (logging s Info msg) mt preview i m
  | None => (s, None)
  end.

(** *** [remove_watermark] *)

(** The outer [None] is an exception that leaves the method; the inner option
    is the returned image or Python's [None]. *)
Definition remove_watermark {gray} (o : imaging gray) (s : core) (preview : bool)
  : option (core * option img) :=
  match original_image s, mask s with
  | Some orig, Some m =>
      mx ← np_max m;
      if mx =? 0 then Some (logging s Warning "no watermark region marked", Some orig)
      else
        let s1 := set_current s (current_image s) true in
        let '(s2, res) :=
          if String.eqb (algorithm s) "basic" then run_method o s1 Basic preview orig m
          else if String.eqb (algorithm s) "ns" then run_method o s1 NavierStokes preview orig m
          else if String.eqb (algorithm s) "telea" then run_method o s1 FastMarching preview orig m
          else if String.eqb (algorithm s) "patchmatch" then run_method o s1 PatchBased preview orig m
          else if String.eqb (algorithm s) "auto" then _auto_algorithm o s1 preview orig m
          else run_method o s1 NavierStokes preview orig m in
        match res with
        | Some r =>
            Some (set_current (logging s2 Info "watermark removed") (Some r) false, Some r)
        | None =>
            Some (set_current (logging s2 Error "watermark removal failed")
                    (current_image s2) false, None)
        end
  | _, _ => Some (logging s Error "no image loaded or no region marked", None)
  end.

(** *** Detection: [detect_watermark] *)

(** [_calculate_watermark_confidence] *)
Definition _calculate_watermark_confidence {gray} (o : imaging gray)
    (gray_img : gray) (b : box) : Q :=
  let '(_, _, w, h) := b in
  let std_dev := np_std o gray_img b in
  let gradient_sum := sobel_sum o gray_img b in
  let normalized_gradient := (gradient_sum / inject_Z (w * h))%Q in
  let confidence :=
    ((1 - std_dev / 255) * (1 # 2) + (normalized_gradient / 100) * (1 # 2))%Q in
  Py.maxQ 0 (Py.minQ 1 confidence).

(** [list.sort(key=confidence, reverse=True)]: stable, largest key first. *)
Fixpoint insert_desc (r : region) (l : list region) : list region :=
  match l with
  | [] => [r]
  | r' :: l' =>
      if Py.ltQ (confidence r) (confidence r') then r' :: insert_desc r l'
      else r :: l
  end.

Definition sort_desc (l : list region) : list region := foldr insert_desc [] l.

(** [ImageDraw.rectangle([x0, y0, x1, y1], fill=255)]: both corners are
    inside the filled area. *)
Definition fill_rectangle (m : Raster.mask) (x0 y0 x1 y1 : Z) : Raster.mask :=
  imap (fun r row =>
    imap (fun c v =>
      if (x0 <=? Z.of_nat c) && (Z.of_nat c <=? x1) &&
         (y0 <=? Z.of_nat r) && (Z.of_nat r <=? y1)
      then 255 else v) row) m.

(** [clear_mask] *)
Definition clear_mask (s : core) : core :=
  match mask s, original_image s with
  | Some _, Some i => set_mask s (Some (zeros (height i) (width i)))
  | _, _ => s
  end.

Definition candidate {gray} (o : imaging gray) (gray_img : gray) (img_area : Z)
    (b : box) : option region :=
  let '(bx, by_, w, h) := b in
  let area := w * h in
  if Py.ltQ ((1 # 1000) * inject_Z img_area) (inject_Z area) &&
     Py.ltQ (inject_Z area) ((2 # 10) * inject_Z img_area)
  then Some {| x := bx; y := by_; region_width := w; region_height := h;
               area := area;
               confidence := _calculate_watermark_confidence o gray_img b |}
  else None.

Definition detect_watermark {gray} (o : imaging gray) (s : core)
  : core * list region :=
  match original_image s with
  | None => (s, [])
  | Some orig =>
      match find_boxes o orig with
      | None => (logging s Error "watermark detection failed", [])
      | Some (gray_img, contours) =>
          let img_area := width orig * height orig in
          let detected := omap (candidate o gray_img img_area) contours in
          let detected := sort_desc detected in
          let s := set_detected s (take 5 detected) in
          match detected with
          | [] => (s, detected_regions s)
          | _ :: _ =>
              let s := clear_mask s in
              match mask s with
              | None => (logging s Error "watermark detection failed", [])
              | Some m =>
                  let m' :=
                    foldl (fun m r =>
                             fill_rectangle m (x r) (y r)
                               (x r + region_width r) (y r + region_height r))
                          m (detected_regions s) in
                  (set_mask s (Some m'), detected_regions s)
              end
          end
      end
  end.

End Core.

(** ** watermark/batch_processor.py: class BatchWatermarkProcessor *)

Module Batch.
Import Raster Cv.

(** An output file of the batch inside [output_dir]: the source's base name
    without extension, the collision counter if one was appended, and the
    extension.  It stands for [name_SUFFIX.ext] and [name_SUFFIX_n.ext]. *)
Definition out_path : Type := (string * option Z * string)%type.

(** The files present in the output directory. *)
Abbreviation directory := (gset out_path).

(** The file system and the codecs.
    - [imread] is [cv2.imread] ([None] for Python's [None]);
    - [pil_open] is the PIL fallback ([None] when it raises);
    - [splitext] is [os.path.splitext(os.path.basename(path))];
    - [imwrite] is [os.makedirs] followed by [cv2.imwrite] ([None] when one of
      them raises, else the flag [cv2.imwrite] returns);
    - [pil_save] is the PIL fallback ([false] when it raises). *)
Record files := {
  imread : string -> option img;
  pil_open : string -> option img;
  splitext : string -> string * string;
  imwrite : out_path -> img -> option bool;
  pil_save : out_path -> img -> bool
}.

(** The attributes of the processor. *)
Record processor := {
  template_watermark_remover : Remover.remover;
  inpaint_radius : Z;
  algorithm : inpaint_flag;
  image_paths : list string;
  output_dir : string;
  processed_count : Z;
  success_count : Z;
  failed_paths : list string;
  is_processing : bool;
  should_stop : bool
}.

Definition set_counters (p : processor) (processed success : Z)
    (failed : list string) : processor := {|
  template_watermark_remover := template_watermark_remover p;
  inpaint_radius := inpaint_radius p; algorithm := algorithm p;
  image_paths := image_paths p; output_dir := output_dir p;
  processed_count := processed; success_count := success;
  failed_paths := failed;
  is_processing := is_processing p; should_stop := should_stop p
|}.

Definition set_flags (p : processor) (running stop : bool) : processor := {|
  template_watermark_remover := template_watermark_remover p;
  inpaint_radius := inpaint_radius p; algorithm := algorithm p;
  image_paths := image_paths p; output_dir := output_dir p;
  processed_count := processed_count p; success_count := success_count p;
  failed_paths := failed_paths p;
  is_processing := running; should_stop := stop
|}.

(** What the three callbacks receive. *)
Inductive event :=
| Progress (processed total : Z)
| Complete (success total : Z) (failed : list string)
| Failure (message : string).

(** The callbacks a caller passes; each may be left out. *)
Record callbacks := {
  progress_callback : bool;
  complete_callback : bool;
  error_callback : bool
}.

Definition emit (given : bool) (e : event) : list event :=
  if given then [e] else [].

(** *** [start_batch_processing] *)

Definition no_mask_message : string := "no watermark region marked on the template".
Definition no_files_message : string := "no image files selected".
Definition no_output_message : string := "no output directory set".
Definition busy_message : string := "a batch is already running".

(** The result of [start_batch_processing]: the new state, the returned flag,
    the events sent to the callbacks and whether the worker thread was
    launched.  [None] is the [ValueError] of [np.max] on a mask without
    elements, which the method does not catch. *)
Definition start_batch_processing (p : processor) (cb : callbacks)
  : option (processor * bool * list event * bool) :=
  match Remover.mask (template_watermark_remover p) with
  | None => Some (p, false, emit (error_callback cb) (Failure no_mask_message), false)
  | Some m =>
      mx ← np_max m;
      if mx =? 0 then
        Some (p, false, emit (error_callback cb) (Failure no_mask_message), false)
      else if bool_decide (image_paths p = []) then
        Some (p, false, emit (error_callback cb) (Failure no_files_message), false)
      else if String.eqb (output_dir p) "" then
        Some (p, false, emit (error_callback cb) (Failure no_output_message), false)
      else if is_processing p then
        Some (p, false, emit (error_callback cb) (Failure busy_message), false)
      else
        Some (set_counters (set_flags p true false) 0 0 [], true, [], true)
  end.

(** [stop_processing] *)
Definition stop_processing (p : processor) : processor :=
  set_flags p (is_processing p) true.

(** *** [_process_single_image] *)

(** The [while os.path.exists(output_path)] loop, started at [counter]. *)
Fixpoint free_name (fs : directory) (name ext : string) (fuel : nat)
    (counter : Z) : option out_path :=
  match fuel with
  | O => None
  | S fuel =>
      if decide ((name, Some counter, ext) ∈ fs)
      then free_name fs name ext fuel (counter + 1)
      else Some (name, Some counter, ext)
  end.

(** The output path: the plain name when it is free, else the first free
    counter from 1.  A directory of [n] files cannot hold all of the [n + 1]
    first numbered names, so [n + 1] rounds always suffice
    ([output_path_total] below). *)
Definition output_path (fs : directory) (name ext : string) : option out_path :=
  if decide ((name, None, ext) ∈ fs)
  then free_name fs name ext (S (size fs)) 1
  else Some (name, None, ext).

(** The image as read: [cv2.imread], then PIL when that gave [None]. *)
Definition read_image (w : files) (image_path : string) : option img :=
  match imread w image_path with
  | Some i => Some i
  | None => pil_open w image_path
  end.

(** The first half of a worker: read the image, resize the template mask to
    it, binarise, and call the inpainting oracle.  [None] when a step raises. *)
Definition inpainted (w : files) (cv : opencv) (p : processor)
    (image_path : string) (template_mask : option mask) : option img :=
  image ← read_image w image_path;
  mask_resized ← template_mask ≫= (fun t => cv_resize cv t (width image) (height image));
  let mask_binary := threshold mask_resized in
  cv_inpaint cv image mask_binary (inpaint_radius p) (algorithm p).

(** One worker: the returned flag and the directory afterwards.  Every
    exception ends in [return False]. *)
Definition _process_single_image (w : files) (cv : opencv) (p : processor)
    (fs : directory) (image_path : string) (template_mask : option mask)
  : bool * directory :=
  match inpainted w cv p image_path template_mask with
  | None => (false, fs)
  | Some result =>
      let '(name, ext) := splitext w image_path in
      match output_path fs name ext with
      | None => (false, fs)
      | Some out =>
          match imwrite w out result with
          | None => (false, fs)
          | Some true => (true, {[ out ]} ∪ fs)
          | Some false =>
              if pil_save w out result then (true, {[ out ]} ∪ fs)
              else (false, fs)
          end
      end
  end.

(** *** The worker pool *)

(** The last part of a worker, from [cv2.imwrite] on: the returned flag and
    the directory afterwards.  A file that is already there is overwritten. *)
Definition save (w : files) (fs : directory) (out : out_path) (result : img)
  : bool * directory :=
  match imwrite w out result with
  | None => (false, fs)
  | Some true => (true, {[ out ]} ∪ fs)
  | Some false =>
      if pil_save w out result then (true, {[ out ]} ∪ fs) else (false, fs)
  end.

(** How far the pool has got with a submitted source: still in the queue,
    taken by a thread, through the existence loop with an output path
    chosen but nothing written yet, or returned. *)
Inductive worker :=
| Queued
| Running
| Named (result : img) (out : out_path)
| Finished (flag : bool).

Definition started (x : worker) : bool :=
  match x with Queued => false | _ => true end.

Definition busy (x : worker) : bool :=
  match x with Running | Named _ _ => true | _ => false end.

(** The sources in the order of submission, each with its worker. *)
Abbreviation pool := (list (string * worker)).

(** The number of workers at work. *)
Definition at_work (ws : pool) : nat :=
  length (List.filter (fun x => busy x.2) ws).

(** One step of the worker of source [i]; the other workers stand still.
    - A queued source is taken when every source submitted before it has
      been taken and fewer than [max_workers] workers are at work, as the
      queue of [ThreadPoolExecutor] has it; otherwise nothing happens.
    - A worker that has been taken reads, inpaints and goes through the
      existence loop.  The directory only grows during a batch, so the loop
      ends on the path [output_path] gives for the directory at the time of
      its last test, which is when this step takes place.
    - A worker with a path writes, whatever has been written since the
      path was chosen. *)
Definition step (w : files) (cv : opencv) (p : processor)
    (template_mask : option mask) (max_workers : nat)
    (st : pool * directory) (i : nat) : pool * directory :=
  let '(ws, fs) := st in
  match ws !! i with
  | Some (image_path, Queued) =>
      if forallb (fun x => started x.2) (take i ws) &&
         (at_work ws <? max_workers)%nat
      then (<[i := (image_path, Running)]> ws, fs)
      else st
  | Some (image_path, Running) =>
      match inpainted w cv p image_path template_mask with
      | None => (<[i := (image_path, Finished false)]> ws, fs)
      | Some result =>
          let '(name, ext) := splitext w image_path in
          match output_path fs name ext with
          | Some out => (<[i := (image_path, Named result out)]> ws, fs)
          | None => (<[i := (image_path, Finished false)]> ws, fs)
          end
      end
  | Some (image_path, Named result out) =>
      let '(flag, fs') := save w fs out result in
      (<[i := (image_path, Finished flag)]> ws, fs')
  | _ => st
  end.

(** The executor is left only when every worker has returned: what is left
    of the work is done one source after the other, in the order of
    submission. *)
Fixpoint drain (w : files) (cv : opencv) (p : processor)
    (template_mask : option mask) (ws : pool) (fs : directory)
  : list (string * bool) * directory :=
  match ws with
  | [] => ([], fs)
  | (image_path, x) :: ws' =>
      let '(flag, fs1) :=
        match x with
        | Finished flag => (flag, fs)
        | Named result out => save w fs out result
        | Queued | Running =>
            _process_single_image w cv p fs image_path template_mask
        end in
      let '(results, fs2) := drain w cv p template_mask ws' fs1 in
      ((image_path, flag) :: results, fs2)
  end.

(** The workers of a batch on a pool of [max_workers] threads.  [sched]
    names the worker that moves next, step by step; when it is used up the
    rest is drained.  The results come in the order of submission. *)
Definition run_workers (w : files) (cv : opencv) (p : processor) (fs : directory)
    (template_mask : option mask) (max_workers : nat) (sched : list nat)
  : list (string * bool) * directory :=
  let submitted := (fun image_path => (image_path, Queued)) <$> image_paths p in
  let '(ws, fs1) :=
    foldl (step w cv p template_mask max_workers) (submitted, fs) sched in
  drain w cv p template_mask ws fs1.

(** *** [_batch_process_thread] *)

(** What the callbacks do when the thread calls them: a callback may raise,
    and [Some text] is an exception [e] with [str(e) = text].
    [progress_raises k] is about the call of round [k]. *)
Record outcomes := {
  progress_raises : nat -> option string;
  complete_raises : option string
}.

Definition thread_error_message (text : string) : string :=
  "error during batch processing: " +:+ text.

(** The [for future in as_completed(...)] loop.  [stop k] is the value of
    [should_stop] read at the start of round [k].  The third component is
    the exception that ended the loop, if one did. *)
Fixpoint collect (cb : callbacks) (oc : outcomes) (total_count : Z)
    (stop : nat -> bool) (k : nat) (futures : list (string * bool))
    (p : processor) : processor * list event * option string :=
  match futures with
  | [] => (p, [], None)
  | (image_path, result) :: rest =>
      if stop k then (p, [], None)
      else
        let p1 :=
          if result
          then set_counters p (processed_count p) (success_count p + 1) (failed_paths p)
          else set_counters p (processed_count p) (success_count p)
                 (failed_paths p ++ [image_path]) in
        let p2 := set_counters p1 (processed_count p1 + 1) (success_count p1)
                    (failed_paths p1) in
        let called := emit (progress_callback cb)
                        (Progress (processed_count p2) total_count) in
        match (if progress_callback cb then progress_raises oc k else None) with
        | Some text => (p2, called, Some text)
        | None =>
            let '(p3, evs, raised) :=
              collect cb oc total_count stop (S k) rest p2 in
            (p3, called ++ evs, raised)
        end
  end.

(** The thread function on a pool of [max_workers] threads
    ([self.max_workers], between 1 and 4).  [sched] is the interleaving of
    the workers and [order] the order in which [as_completed] hands over
    their futures, by position in [image_paths].  An exception raised
    inside the [try], which only a callback can do, ends in the [except]
    block: [is_processing] is cleared, the error callback is called and the
    completion callback is not.  Leaving the [with] block waits for the
    workers in every case. *)
Definition _batch_process_thread (w : files) (cv : opencv) (p : processor)
    (cb : callbacks) (oc : outcomes) (max_workers : nat) (fs : directory)
    (sched order : list nat) (stop : nat -> bool)
  : processor * directory * list event :=
  let total_count := Z.of_nat (length (image_paths p)) in
  let template_mask := Remover.mask (template_watermark_remover p) in
  let '(results, fs') := run_workers w cv p fs template_mask max_workers sched in
  let futures := omap (fun i => results !! i) order in
  let '(p1, evs, raised) := collect cb oc total_count stop 0 futures p in
  let p2 := set_flags p1 false (should_stop p1) in
  let failure text :=
    emit (error_callback cb) (Failure (thread_error_message text)) in
  match raised with
  | Some text => (p2, fs', evs ++ failure text)
  | None =>
      let completed :=
        emit (complete_callback cb)
          (Complete (success_count p2) total_count (failed_paths p2)) in
      match (if complete_callback cb then complete_raises oc else None) with
      | Some text => (p2, fs', evs ++ completed ++ failure text)
      | None => (p2, fs', evs ++ completed)
      end
  end.

(** [get_results] *)
Record results := {
  total : Z; processed : Z; success : Z; failed : Z;
  failed_list : list string; running : bool
}.

Definition get_results (p : processor) : results := {|
  total := Z.of_nat (length (image_paths p));
  processed := processed_count p;
  success := success_count p;
  failed := Z.of_nat (length (failed_paths p));
  failed_list := failed_paths p;
  running := is_processing p
|}.

End Batch.

(** ** The template mask as a shared object

    [_batch_process_thread] binds [template_mask] to the array the template
    remover's [mask] attribute refers to and hands that reference to every
    worker, while the interface keeps editing the same remover.  Arrays
    therefore get an identity here: a store maps references to contents, and
    each editing method either paints in place on the array [self.mask]
    refers to ([cv2.line], [cv2.circle]) or assigns [self.mask] a new array
    ([np.zeros], [.copy()]). *)

Module Shared.
Import Raster Cv.

Definition ref : Type := nat.

(** The store, the next unused reference, the template remover (its [mask]
    field is the contents read through [live_ref]) and the reference its
    [mask] attribute holds. *)
Record world := {
  heap : gmap ref mask;
  next : ref;
  live : Remover.remover;
  live_ref : option ref
}.

(** The editing calls the interface makes on the template remover. *)
Inductive ui_op :=
| StartDraw (canvas_point : point) (brush_size : Z)
| DrawLine (start_canvas_coords end_canvas_coords : point) (brush_size : Z) (rnd : Q)
| ClearMask
| Undo
| Redo
| SaveHistory.

(** The effect of a call on the attributes. *)
Definition apply (cv : opencv) (s : Remover.remover) (op : ui_op)
  : option Remover.remover :=
  match op with
  | StartDraw pt b => Remover.start_draw cv s pt b
  | DrawLine a b brush rnd => Remover.draw_line_on_mask cv s a b brush rnd
  | ClearMask => Some (Remover.clear_mask s)
  | Undo => fst <$> Remover.undo_mask s
  | Redo => fst <$> Remover.redo_mask s
  | SaveHistory => Some (Remover._save_mask_to_history s)
  end.

(** Whether the call assigns [self.mask] a new array: the drawing methods do
    so only through their shape guard, [clear_mask] whenever an image is
    loaded, [undo_mask] and [redo_mask] whenever they move the cursor. *)
Definition assigns_new_array (s : Remover.remover) (op : ui_op) : bool :=
  match op with
  | StartDraw _ _ | DrawLine _ _ _ _ =>
      match Remover.image s, Remover.mask s with
      | Some i, Some m => negb (bool_decide (shape m = shape i))
      | _, _ => false
      end
  | ClearMask => match Remover.image s with Some _ => true | None => false end
  | Undo => match Remover.undo_mask s with Some (_, true) => true | _ => false end
  | Redo => match Remover.redo_mask s with Some (_, true) => true | _ => false end
  | SaveHistory => false
  end.

(** Calls that paint on the array [self.mask] refers to. *)
Definition paints (op : ui_op) : bool :=
  match op with
  | StartDraw _ _ | DrawLine _ _ _ _ => true
  | _ => false
  end.

(** One editing call on the shared store; [None] when the call raises. *)
Definition ui_step (cv : opencv) (σ : world) (op : ui_op) : option world :=
  s' ← apply cv (live σ) op;
  Some (
    if assigns_new_array (live σ) op then
      {| heap := match Remover.mask s' with
                 | Some m => <[next σ := m]> (heap σ)
                 | None => heap σ
                 end;
         next := S (next σ); live := s'; live_ref := Some (next σ) |}
    else
      {| heap := match paints op, live_ref σ, Remover.mask s' with
                 | true, Some r, Some m => <[r := m]> (heap σ)
                 | _, _, _ => heap σ
                 end;
         next := next σ; live := s'; live_ref := live_ref σ |}).

(** What happens after the batch thread has bound [template_mask]: editing
    calls on the interface thread and workers of the pool, in some order. *)
Inductive action :=
| Ui (op : ui_op)
| Worker (image_path : string).

(** The image a worker computes, reading the template through the reference
    the batch thread holds. *)
Definition worker_result (w : Batch.files) (cv : opencv) (p : Batch.processor)
    (σ : world) (template_mask : option ref) (image_path : string) : option img :=
  Batch.inpainted w cv p image_path (template_mask ≫= (fun r => heap σ !! r)).

(** The per-item results of an interleaving. *)
Fixpoint run (w : Batch.files) (cv : opencv) (p : Batch.processor)
    (template_mask : option ref) (σ : world) (acts : list action)
  : option (list (string * option img)) :=
  match acts with
  | [] => Some []
  | Ui op :: rest =>
      σ' ← ui_step cv σ op;
      run w cv p template_mask σ' rest
  | Worker image_path :: rest =>
      rs ← run w cv p template_mask σ rest;
      Some ((image_path, worker_result w cv p σ template_mask image_path) :: rs)
  end.

(** The workers of an interleaving, without the editing calls. *)
Definition is_worker (a : action) : bool :=
  match a with Worker _ => true | Ui _ => false end.

Definition workers_only (acts : list action) : list action :=
  filter (fun a => is_worker a) acts.

(** The world when the batch thread binds [template_mask]: the remover's
    mask, if any, sits at reference 0. *)
Definition at_start (s : Remover.remover) : world := {|
  heap := match Remover.mask s with Some m => {[ 0%nat := m ]} | None => ∅ end;
  next := 1%nat;
  live := s;
  live_ref := match Remover.mask s with Some _ => Some 0%nat | None => None end
|}.

End Shared.

(** ** Sequences of calls on a remover *)

Module Session.
Import Raster Cv Remover.

(** The drawing calls of the interface. *)
Inductive draw_call :=
| Start (canvas_point : point) (brush_size : Z)
| Line (start_canvas_coords end_canvas_coords : point) (brush_size : Z) (rnd : Q).

Definition draw (cv : opencv) (s : remover) (c : draw_call) : option remover :=
  match c with
  | Start pt b => start_draw cv s pt b
  | Line a b brush rnd => draw_line_on_mask cv s a b brush rnd
  end.

(** A stroke: the drawing calls between pointer-down and pointer-up. *)
Fixpoint stroke (cv : opencv) (s : remover) (g : list draw_call) : option remover :=
  match g with
  | [] => Some s
  | c :: g' => s' ← draw cv s c; stroke cv s' g'
  end.

(** A stroke followed by the snapshot taken at pointer-up. *)
Definition stroke_and_snapshot (cv : opencv) (s : remover) (g : list draw_call)
  : option remover :=
  _save_mask_to_history <$> stroke cv s g.

Fixpoint strokes (cv : opencv) (s : remover) (gs : list (list draw_call))
  : option remover :=
  match gs with
  | [] => Some s
  | g :: gs' => s' ← stroke_and_snapshot cv s g; strokes cv s' gs'
  end.

(** The snapshots the throttle of [draw_line_on_mask] takes inside a stroke. *)
Definition throttled (c : draw_call) : bool :=
  match c with
  | Start _ _ => false
  | Line _ _ _ rnd => Py.ltQ rnd (2 # 10)
  end.

Definition throttle_hits (gs : list (list draw_call)) : nat :=
  length (filter (fun c => throttled c) (concat gs)).

(** The brush sizes with which the drawing calls of OpenCV return: the line
    of [draw_line_on_mask] has the brush size as its thickness, the circle
    of [start_draw] half of it, at least 1, as its radius. *)
Definition accepted (c : draw_call) : bool :=
  match c with
  | Start _ brush_size => Z.max 1 (brush_size / 2) <=? INT_MAX
  | Line _ _ brush_size _ => (1 <=? brush_size) && (brush_size <=? MAX_THICKNESS)
  end.

(** [undo_mask()] and [redo_mask()] applied [n] times. *)
Fixpoint undo_n (n : nat) (s : remover) : option remover :=
  match n with
  | O => Some s
  | S n' => r ← undo_mask s; undo_n n' r.1
  end.

Fixpoint redo_n (n : nat) (s : remover) : option remover :=
  match n with
  | O => Some s
  | S n' => r ← redo_mask s; redo_n n' r.1
  end.

(** The flags [n] successive calls of [undo_mask()], of [redo_mask()],
    return. *)
Fixpoint undo_flags (n : nat) (s : remover) : option (list bool) :=
  match n with
  | O => Some []
  | S n' => r ← undo_mask s; (fun l => r.2 :: l) <$> undo_flags n' r.1
  end.

Fixpoint redo_flags (n : nat) (s : remover) : option (list bool) :=
  match n with
  | O => Some []
  | S n' => r ← redo_mask s; (fun l => r.2 :: l) <$> redo_flags n' r.1
  end.

(** Any method of the class, with its arguments. *)
Inductive method_call :=
| LoadImage (exists_ : bool) (cv pil : option img)
| SetAlgorithm (n : algorithm_name)
| SetInpaintRadius (radius : Z)
| SetDisplaySize (w h : Z)
| Draw (c : draw_call)
| ClearMask
| SaveMaskToHistory
| UndoMask
| RedoMask
| RemoveWatermark
| ContinueEditResult.

(** The state a call leaves behind and the oracle calls it makes.  A call
    that raises leaves the state as the statements before the raise made
    it. *)
Definition exec (cv : opencv) (s : remover) (c : method_call)
  : remover * list inpaint_call :=
  match c with
  | LoadImage e a b => ((load_image s e a b).1, [])
  | SetAlgorithm n => (set_algorithm s n, [])
  | SetInpaintRadius r => (set_inpaint_radius s r, [])
  | SetDisplaySize w h =>
      (default (set_display s w h (scale_factor s)) (set_display_size s w h), [])
  | Draw c =>
      let before_raise :=
        match image s, mask s with
        | Some i, Some m => set_mask s (Some (fit_mask i m))
        | _, _ => s
        end in
      (default before_raise (draw cv s c), [])
  | ClearMask => (clear_mask s, [])
  | SaveMaskToHistory => (_save_mask_to_history s, [])
  | UndoMask =>
      (default (set_history s (mask_history s) (history_index s - 1))
         (fst <$> undo_mask s), [])
  | RedoMask =>
      (default (set_history s (mask_history s) (history_index s + 1))
         (fst <$> redo_mask s), [])
  | RemoveWatermark =>
      let '(s', _, calls) := remove_watermark cv s in (s', calls)
  | ContinueEditResult => ((continue_edit_result s).1, [])
  end.

(** The oracle calls of a sequence of method calls. *)
Fixpoint oracle_calls (cv : opencv) (s : remover) (cs : list method_call)
  : list inpaint_call :=
  match cs with
  | [] => []
  | c :: cs' => let '(s', calls) := exec cv s c in calls ++ oracle_calls cv s' cs'
  end.

End Session.

(** ** A small stand-in for OpenCV, for the executable examples *)

Module Sample.
Import Raster Cv.

(** A filled disc of colour 255. *)
Definition disc (m : mask) (c : point) (radius : Z) : mask :=
  imap (fun r row =>
    imap (fun k v =>
      if (Z.of_nat k - c.1) * (Z.of_nat k - c.1) +
         (Z.of_nat r - c.2) * (Z.of_nat r - c.2) <=? radius * radius
      then 255 else v) row) m.

(** A line is drawn as the discs at its two end points, which is exact when
    the end points coincide. *)
Definition line (m : mask) (p q : point) (thickness : Z) : mask :=
  disc (disc m p (thickness / 2)) q (thickness / 2).

(** Nearest-neighbour resampling to [w] columns and [h] rows. *)
Definition resize (m : mask) (w h : Z) : option mask :=
  if (w <=? 0) || (h <=? 0) || (height m <=? 0) || (width m <=? 0) then None
  else Some (
    map (fun r =>
      map (fun k =>
        nth (Z.to_nat (Z.of_nat k * width m / w))
            (nth (Z.to_nat (Z.of_nat r * height m / h)) m []) 0)
        (seq 0 (Z.to_nat w)))
      (seq 0 (Z.to_nat h))).

(** Inpainting blanks the marked pixels and refuses a mask of another
    shape. *)
Definition inpaint (i : img) (m : mask) (radius : Z) (flag : inpaint_flag)
  : option img :=
  if decide (shape m = shape i)
  then Some (zip_with (zip_with (fun px v => if 0 <? v then (0, 0, 0) else px)) i m)
  else None.

Definition cv : opencv := {|
  cv_line := line; cv_circle := disc; cv_resize := resize; cv_inpaint := inpaint
|}.

(** A one-pixel image and the remover that has just loaded it. *)
Definition dot : img := [[(10, 20, 30)]].

Definition fresh : Remover.remover := Remover.loaded Remover.init dot.

(** Morphology with the 3x3 kernel: the neighbours outside the array do not
    count, as with OpenCV's default border. *)
Definition at_ (m : mask) (r k : Z) : option Z :=
  if (0 <=? r) && (0 <=? k)
  then m !! Z.to_nat r ≫= (fun row => row !! Z.to_nat k)
  else None.

Definition window (m : mask) (r k : Z) : list Z :=
  omap (fun d : Z * Z => at_ m (r + d.1) (k + d.2))
    [(-1, -1); (-1, 0); (-1, 1); (0, -1); (0, 0); (0, 1); (1, -1); (1, 0); (1, 1)].

Definition morph (f : Z -> Z -> Z) (m : mask) : mask :=
  imap (fun r row =>
    imap (fun k v => foldr f v (window m (Z.of_nat r) (Z.of_nat k))) row) m.

(** The collaborators of the core class: every routine blanks the marked
    pixels, and detection reports the given boxes with the given
    measurements. *)
Definition imaging (boxes : list Core.box) (std grad : Core.box -> Q)
  : Core.imaging unit := {|
  Core.run := fun _ _ _ i m => inpaint i (threshold m) 3 INPAINT_NS;
  Core.patch_setup := fun _ _ _ _ => true;
  Core.dilate := morph Z.max;
  Core.erode := morph Z.min;
  Core.find_boxes := fun _ => Some (tt, boxes);
  Core.np_std := fun _ b => std b;
  Core.sobel_sum := fun _ b => grad b
|}.

(** A 10 by 10 mask with one marked pixel. *)
Definition speck : mask := disc (zeros 10 10) (5, 5) 0.

(** An OpenCV whose inpainting always raises. *)
Definition broken : opencv := {|
  cv_line := line; cv_circle := disc; cv_resize := resize;
  cv_inpaint := fun _ _ _ _ => None
|}.

(** The remover with the pixel of [dot] marked. *)
Definition marked : Remover.remover := Remover.set_mask fresh (Some [[255]]).

(** The core class after loading [dot], and before loading anything. *)
Definition core_fresh : Core.core := {|
  Core.original_image := Some dot; Core.current_image := Some dot;
  Core.mask := Some [[0]]; Core.detected_regions := [];
  Core.algorithm := "ns"; Core.processing := false;
  Core.preview_quality := 80; Core.log := []
|}.

Definition core_init : Core.core := {|
  Core.original_image := None; Core.current_image := None;
  Core.mask := None; Core.detected_regions := [];
  Core.algorithm := "ns"; Core.processing := false;
  Core.preview_quality := 80; Core.log := []
|}.

(** A two-pixel image, the remover that has loaded it and marked its left
    pixel, and a file system in which [a.png] decodes to it. *)
Definition pair : img := [[(10, 20, 30); (40, 50, 60)]].

Definition half : Remover.remover :=
  Remover.set_mask (Remover.loaded Remover.init pair) (Some [[255; 0]]).

Definition pair_files : Batch.files := {|
  Batch.imread := fun path => if String.eqb path "a.png" then Some pair else None;
  Batch.pil_open := fun _ => None;
  Batch.splitext := fun path => (path, ".png");
  Batch.imwrite := fun _ _ => Some true;
  Batch.pil_save := fun _ _ => true
|}.

(** The batch processor whose template is [half]. *)
Definition pair_processor : Batch.processor := {|
  Batch.template_watermark_remover := half;
  Batch.inpaint_radius := 3; Batch.algorithm := INPAINT_TELEA;
  Batch.image_paths := ["a.png"]; Batch.output_dir := "out";
  Batch.processed_count := 0; Batch.success_count := 0;
  Batch.failed_paths := [];
  Batch.is_processing := true; Batch.should_stop := false
|}.

(** A batch processor whose template is [marked], with two sources and an
    output directory. *)
Definition processor : Batch.processor := {|
  Batch.template_watermark_remover := marked;
  Batch.inpaint_radius := 3; Batch.algorithm := INPAINT_TELEA;
  Batch.image_paths := ["a.png"; "b.png"]; Batch.output_dir := "out";
  Batch.processed_count := 0; Batch.success_count := 0;
  Batch.failed_paths := [];
  Batch.is_processing := false; Batch.should_stop := false
|}.

(** A file system in which [a.png] decodes to [dot] and nothing else can be
    read; every write succeeds. *)
Definition files : Batch.files := {|
  Batch.imread := fun path => if String.eqb path "a.png" then Some dot else None;
  Batch.pil_open := fun _ => None;
  Batch.splitext := fun path => (path, ".png");
  Batch.imwrite := fun _ _ => Some true;
  Batch.pil_save := fun _ _ => true
|}.

End Sample.

(** ** The notions the properties are stated with *)

Module Notions.
Import Raster Cv.

(** *** Mask history *)

Section History.
Import Remover.

(** The state with the cursor moved to [k] and the snapshot [m] restored. *)
Definition at_cursor (s : remover) (k : nat) (m : Raster.mask) : remover :=
  set_mask (set_history s (mask_history s) (Z.of_nat k)) (Some m).

(** The history starts with [z], holds [n] more snapshots, and the cursor is
    on the last one. *)
Definition history_from (z : Raster.mask) (n : nat) (s : remover) : Prop :=
  is_Some (image s) /\ is_Some (mask s) /\
  exists rest, mask_history s = z :: rest /\ length rest = n /\
               history_index s = Z.of_nat n.

(** The active mask is the snapshot under the cursor. *)
Definition on_snapshot (s : remover) : Prop :=
  exists k m, history_index s = Z.of_nat k /\ mask_history s !! k = Some m /\
              mask s = Some m.

End History.

(** *** Detection *)

Section Detection.
Import Core.

(** Largest confidence first. *)
Definition by_confidence (a b : region) : Prop := (confidence b <= confidence a)%Q.

End Detection.

(** *** Starting a batch *)

Section Start.
Import Batch.

(** The pre-flight checks. *)
Inductive check := HasTemplateMask | HasSources | HasOutputDir | NotRunning.

(** The order in which the checks are made. *)
Definition check_order : list check :=
  [HasTemplateMask; HasSources; HasOutputDir; NotRunning].

(** A check taken on its own. *)
Definition passes (p : processor) (c : check) : bool :=
  match c with
  | HasTemplateMask =>
      match Remover.mask (template_watermark_remover p) with
      | Some m => bool_decide (np_max m <> Some 0)
      | None => false
      end
  | HasSources => bool_decide (image_paths p <> [])
  | HasOutputDir => bool_decide (output_dir p <> "")
  | NotRunning => negb (is_processing p)
  end.

Definition message_of (c : check) : string :=
  match c with
  | HasTemplateMask => no_mask_message
  | HasSources => no_files_message
  | HasOutputDir => no_output_message
  | NotRunning => busy_message
  end.

(** The first check of the order that fails, if any. *)
Definition first_failing (p : processor) : option check :=
  find (fun c => negb (passes p c)) check_order.

End Start.

(** *** Batch counters *)

Section Counters.
Import Batch.

(** A source is unreadable when neither decoder yields an image. *)
Definition unreadable (w : files) (image_path : string) : Prop :=
  read_image w image_path = None.

(** A readable source is processable when resizing the template mask and
    inpainting succeed on it, and its output is writable when one of the
    two encoders succeeds wherever the result is written. *)
Definition processable (w : files) (cv : opencv) (p : processor)
    (image_path : string) : Prop :=
  is_Some (read_image w image_path) ->
  is_Some (inpainted w cv p image_path
             (Remover.mask (template_watermark_remover p))).

Definition writable (w : files) (cv : opencv) (p : processor)
    (image_path : string) : Prop :=
  forall result out,
    inpainted w cv p image_path (Remover.mask (template_watermark_remover p))
      = Some result ->
    imwrite w out result = Some true \/
    (imwrite w out result = Some false /\ pil_save w out result = true).

End Counters.

(** *** The template mask during a batch *)

Section Template.
Import Shared.

(** The reference the batch holds is allocated. *)
Definition allocated (template_mask : option ref) (σ : world) : Prop :=
  forall r, template_mask = Some r -> (r < next σ)%nat.

End Template.

End Notions.

(** ** batch_processor.py: parameters and progress *)

Module BatchSetup.
Import Raster Cv Batch.

(** [set_parameters]; the algorithm name is the caller's string upper-cased.
    The processor keeps the radius as given and hands it to the template
    remover's [set_inpaint_radius]. *)
Definition set_parameters (p : processor) (radius : Z)
    (n : Remover.algorithm_name) : processor := {|
  template_watermark_remover :=
    Remover.set_algorithm
      (Remover.set_inpaint_radius (template_watermark_remover p) radius) n;
  inpaint_radius := radius;
  algorithm := match n with Remover.NameNS => INPAINT_NS | _ => INPAINT_TELEA end;
  image_paths := image_paths p; output_dir := output_dir p;
  processed_count := processed_count p; success_count := success_count p;
  failed_paths := failed_paths p;
  is_processing := is_processing p; should_stop := should_stop p
|}.

(** [set_batch_images] *)
Definition set_batch_images (p : processor) (paths : list string) : processor := {|
  template_watermark_remover := template_watermark_remover p;
  inpaint_radius := inpaint_radius p; algorithm := algorithm p;
  image_paths := paths; output_dir := output_dir p;
  processed_count := 0; success_count := 0; failed_paths := [];
  is_processing := is_processing p; should_stop := should_stop p
|}.

(** [clear_batch_images] *)
Definition clear_batch_images (p : processor) : processor := set_batch_images p [].

(** [get_progress] *)
Definition get_progress (p : processor) : Z * Z :=
  (processed_count p, Z.of_nat (length (image_paths p))).

End BatchSetup.

(** ** core/watermark_remover.py: choice of the algorithm *)

Module CoreSetup.
Import Core.

(** The class attribute [ALGORITHMS], display name to code, in the order of
    the dict literal. *)
Definition ALGORITHMS : list (string * string) :=
  [("基础修复", "basic"); ("NS算法", "ns"); ("Telea算法", "telea");
   ("基于PatchMatch", "patchmatch"); ("智能检测", "auto")].

(** [d[k]] for a key that is present. *)
Definition dict_get (d : list (string * string)) (k : string) : option string :=
  snd <$> find (fun kv => String.eqb kv.1 k) d.

Definition with_algorithm (s : core) (a : string) : core := {|
  original_image := original_image s; current_image := current_image s;
  mask := mask s; detected_regions := detected_regions s;
  algorithm := a; processing := processing s;
  preview_quality := preview_quality s; log := log s
|}.

(** [set_algorithm] *)
Definition set_algorithm (s : core) (algorithm : string) : core * bool :=
  let algorithm := default algorithm (dict_get ALGORITHMS algorithm) in
  let valid_algorithms := ALGORITHMS.*2 in
  if bool_decide (algorithm ∈ valid_algorithms)
  then (logging (with_algorithm s algorithm) Info ("algorithm set to: " +:+ algorithm),
        true)
  else (logging s Error ("unsupported algorithm: " +:+ algorithm), false).

End CoreSetup.

(** ** Sequences of method calls and further notions *)

(** The state after a sequence of method calls. *)
Module Reach.
Import Raster Cv Remover Session.

Fixpoint after (cv : opencv) (s : remover) (cs : list method_call) : remover :=
  match cs with
  | [] => s
  | c :: cs' => after cv (exec cv s c).1 cs'
  end.

(** Either nothing has been loaded, or an image and a mask are present and
    the cursor points into the history. *)
Definition well_formed (s : remover) : Prop :=
  (image s = None /\ mask s = None /\ mask_history s = [] /\ history_index s = -1) \/
  (is_Some (image s) /\ is_Some (mask s) /\
   0 <= history_index s <= Z.of_nat (length (mask_history s)) - 1).

End Reach.

Module Terms.

(** The error records of a log. *)
Definition is_error (r : Core.log_record) : bool :=
  match r.1 with Core.Error => true | _ => false end.

Definition errors (l : list Core.log_record) : list Core.log_record :=
  filter (fun r => is_error r) l.

(** A worker of the pool agrees with its source: a path was chosen only
    after the source was inpainted, and a returned flag says whether the
    source could be read. *)
Definition settled (w : Batch.files) (cv : Cv.opencv) (p : Batch.processor)
    (e : string * Batch.worker) : Prop :=
  match e.2 with
  | Batch.Finished flag => flag = bool_decide (~ Notions.unreadable w e.1)
  | Batch.Named result _ =>
      Batch.inpainted w cv p e.1
        (Remover.mask (Batch.template_watermark_remover p)) = Some result
  | _ => True
  end.

(** The path is one the existence loop can choose for the source. *)
Definition output_of (w : Batch.files) (image_path : string)
    (out : Batch.out_path) : Prop :=
  exists counter,
    out = ((Batch.splitext w image_path).1, counter, (Batch.splitext w image_path).2).

(** The workers of a pool that have returned [True], and the [True]
    results of a batch. *)
Definition returned_true (e : string * Batch.worker) : bool :=
  match e.2 with Batch.Finished true => true | _ => false end.

Definition written (ws : list (string * Batch.worker)) : nat :=
  length (filter (fun e => returned_true e) ws).

Definition successes (results : list (string * bool)) : nat :=
  length (filter (fun f => f.2 = true) results).

(** The exception the progress callback raises in round [k], if it is
    given and raises, and the one the completion callback raises. *)
Definition progress_fails (cb : Batch.callbacks) (oc : Batch.outcomes) (k : nat)
  : option string :=
  if Batch.progress_callback cb then Batch.progress_raises oc k else None.

Definition complete_fails (cb : Batch.callbacks) (oc : Batch.outcomes)
  : option string :=
  if Batch.complete_callback cb then Batch.complete_raises oc else None.

(** The calls of the progress callback in [n] rounds that start with
    [processed] results counted. *)
Definition progress_calls (cb : Batch.callbacks) (processed total_count : Z)
    (n : nat) : list Batch.event :=
  if Batch.progress_callback cb
  then (fun j : nat => Batch.Progress (processed + Z.of_nat (S j)) total_count)
         <$> seq 0 n
  else [].

(** The callbacks return whenever the thread calls them. *)
Definition returns (oc : Batch.outcomes) : Prop :=
  (forall k, Batch.progress_raises oc k = None) /\ Batch.complete_raises oc = None.

(** The event is the one the completion callback receives. *)
Definition is_complete (e : Batch.event) : bool :=
  match e with Batch.Complete _ _ _ => true | _ => false end.

(** Every element is 0 or 255. *)
Definition binary (m : Raster.mask) : Prop :=
  Forall (Forall (fun v => v = 0 \/ v = 255)) m.

(** The pixel at a row and a column. *)
Definition pixel_at (m : list (list Z)) (row col : nat) : option Z :=
  m !! row ≫= (fun r => r !! col).

(** The rectangle [detect_watermark] fills for a region, both corners
    included. *)
Definition covers (r : Core.region) (row col : nat) : bool :=
  (Core.x r <=? Z.of_nat col) &&
  (Z.of_nat col <=? Core.x r + Core.region_width r) &&
  (Core.y r <=? Z.of_nat row) &&
  (Z.of_nat row <=? Core.y r + Core.region_height r).

Definition paint (m : Raster.mask) (r : Core.region) : Raster.mask :=
  Core.fill_rectangle m (Core.x r) (Core.y r)
    (Core.x r + Core.region_width r) (Core.y r + Core.region_height r).

End Terms.

(** * Properties *)

(** Case analysis on every [match], [if] and monadic bind in sight. *)
Ltac split_cases :=
  repeat first
    [ progress simplify_eq
    | progress simpl in *
    | case_match
    | match goal with
      | |- context [mbind _ ?o] => destruct o eqn:?
      | |- context [fmap _ ?o] => destruct o eqn:?
      | H : context [mbind _ ?o] |- _ => destruct o eqn:?
      | H : context [fmap _ ?o] |- _ => destruct o eqn:?
      end ].

(** ** Worked examples *)

Section Examples.
Import Raster Cv.

(** [int(-3.5)] is [-3], [l[:-1]] drops the last element, [l[-1]] is the
    last one and [l[3]] on three elements raises. *)
Example int_truncates : Py.int (-7 # 2) = -3.
Proof. reflexivity. Qed.

Example slice_to_negative : Py.slice_to [1; 2; 3] (-1) = [1; 2].
Proof. reflexivity. Qed.

Example index_negative :
  Py.index [1; 2; 3] (-1) = Some 3 /\ Py.index [1; 2; 3] 3 = None.
Proof. split; reflexivity. Qed.

(** A 4 by 2 image on an 800 by 600 canvas: the scale is
    [min(200, 300) * 0.9 = 180], the image is drawn 720 by 360 at offset
    (40, 120); the canvas centre falls on pixel (2, 1), and a point far
    outside is clamped to the last pixel. *)
Example canvas_centre :
  let s := Remover.loaded Remover.init (replicate 2 (replicate 4 (0, 0, 0))) in
  (s' ← Remover.set_display_size s 800 600;
   Remover.canvas_to_image_coords s' (400, 300)) = Some (2, 1) /\
  (s' ← Remover.set_display_size s 800 600;
   Remover.canvas_to_image_coords s' (5000, 5000)) = Some (3, 1) /\
  (s' ← Remover.set_display_size s 800 600;
   Remover.canvas_to_image_coords s' (0, 0)) = Some (0, 0).
Proof. repeat split; vm_compute; reflexivity. Qed.

(** A display surface without width makes the scale zero, and the next
    conversion divides by it. *)
Example canvas_without_width :
  (s' ← Remover.set_display_size Sample.fresh 0 600;
   Remover.canvas_to_image_coords s' (10, 10)) = None.
Proof. vm_compute. reflexivity. Qed.

(** The collision loop: with [a_SUFFIX.png] and [a_SUFFIX_1.png] present the
    output goes to [a_SUFFIX_2.png]. *)
Example output_path_collision :
  Batch.output_path {[ ("a", None, ".png"); ("a", Some 1, ".png") ]} "a" ".png"
  = Some ("a", Some 2, ".png").
Proof. vm_compute. reflexivity. Qed.

(** Strategy selection on a 20 by 20 mask: nothing marked gives
    Navier-Stokes (area 0, complexity 0), one marked pixel gives
    fast-marching (area 0.0025, complexity 9), the whole mask marked gives
    patch-based (area 1). *)
Example auto_select_samples :
  let o := Sample.imaging [] (fun _ => 0%Q) (fun _ => 0%Q) in
  Core.auto_select o (zeros 20 20) = Some Core.NavierStokes /\
  Core.auto_select o (Sample.disc (zeros 20 20) (5, 5) 0) = Some Core.FastMarching /\
  Core.auto_select o (Sample.disc (zeros 20 20) (5, 5) 40) = Some Core.PatchBased /\
  Core.auto_select o [] = None.
Proof. repeat split; vm_compute; reflexivity. Qed.

(** Detection on a 100 by 100 image: the box of area 4 is below 0.1 percent
    of the image and the box of area 2500 is above 20 percent; the other
    three come back with the largest confidence first. *)
Example detect_watermark_sample :
  let o := Sample.imaging
             [(0, 0, 2, 2); (10, 10, 20, 10); (0, 0, 50, 50);
              (40, 40, 10, 10); (60, 60, 30, 10)]
             (fun b => inject_Z b.1.1.1)
             (fun b => inject_Z (b.1.2 * b.2 * 10)) in
  let s := {| Core.original_image := Some (replicate 100 (replicate 100 (0, 0, 0)));
              Core.current_image := None; Core.mask := Some (zeros 100 100);
              Core.detected_regions := []; Core.algorithm := "auto";
              Core.processing := false; Core.preview_quality := 80;
              Core.log := [] |} in
  map (fun r => (Core.x r, Core.y r)) (Core.detect_watermark o s).2
  = [(10, 10); (40, 40); (60, 60)].
Proof. vm_compute. reflexivity. Qed.

End Examples.

(** ** The inpaint radius *)

Section Radius.
Import Raster Cv Remover Session.

Lemma exec_radius cv s c :
  1 <= inpaint_radius s <= 20 ->
  1 <= inpaint_radius (exec cv s c).1 <= 20.
Proof.
  intros Hs.
  destruct c as [e a b|n|r|w h|[pt b|a b br rnd]| | | | | |]; simpl.
  all: unfold load_image, loaded, set_display_size, start_draw,
    draw_line_on_mask, clear_mask, undo_mask, redo_mask, remove_watermark,
    continue_edit_result, canvas_to_image_coords, _save_mask_to_history.
  all: split_cases; try done; lia.
Qed.

Lemma exec_calls_radius cv s c :
  Forall (fun k => call_radius k = inpaint_radius s) (exec cv s c).2.
Proof.
  destruct c; simpl; try by constructor.
  unfold remove_watermark. split_cases; by repeat constructor.
Qed.

Lemma oracle_calls_radius cv cs : forall s,
  1 <= inpaint_radius s <= 20 ->
  Forall (fun k => 1 <= call_radius k <= 20) (oracle_calls cv s cs).
Proof.
  induction cs as [|c cs IH]; intros s Hs; simpl; [constructor|].
  pose proof (exec_radius cv s c Hs) as Hnext.
  pose proof (exec_calls_radius cv s c) as Hcalls.
  destruct (exec cv s c) as [s' calls]; simpl in *.
  apply Forall_app; split; [|by apply IH].
  eapply Forall_impl; [exact Hcalls|]. simpl. intros k ->. exact Hs.
Qed.

(** C10.  After [set_inpaint_radius(r)] the stored radius is [r] clamped to
    [1, 20], and every call of the inpainting oracle made by any later
    sequence of method calls passes a radius in that range. *)
Theorem set_inpaint_radius_range (s : remover) (r : Z) :
  let s' := set_inpaint_radius s r in
  1 <= inpaint_radius s' <= 20 /\
  (r < 1 -> inpaint_radius s' = 1) /\
  (20 < r -> inpaint_radius s' = 20) /\
  (1 <= r <= 20 -> inpaint_radius s' = r) /\
  forall cv cs, Forall (fun k => 1 <= call_radius k <= 20) (oracle_calls cv s' cs).
Proof.
  simpl. repeat split; try lia.
  intros cv cs. apply oracle_calls_radius. simpl. lia.
Qed.

End Radius.

(** ** Canvas to image coordinates *)

Section Coordinates.
Import Raster Cv Remover.

Lemma truediv_nonzero (a b : Q) :
  ~ (b == 0)%Q -> Py.truediv a b = Some (a / b)%Q.
Proof.
  intros Hb. unfold Py.truediv.
  destruct (Qeq_bool b 0) eqn:E; [|done].
  apply Qeq_bool_iff in E. contradiction.
Qed.

Lemma truediv_positive (a b : Z) :
  0 < a -> 0 < b ->
  exists q, Py.truediv (inject_Z a) (inject_Z b) = Some q /\ (0 < q)%Q.
Proof.
  intros Ha Hb.
  assert (0 < inject_Z b)%Q as Hb' by (unfold Qlt; simpl; lia).
  exists (inject_Z a / inject_Z b)%Q. split.
  - apply truediv_nonzero. intros E. rewrite E in Hb'. by apply Qlt_irrefl in Hb'.
  - apply Qlt_shift_div_l; [exact Hb'|].
    rewrite Qmult_0_l. unfold Qlt; simpl; lia.
Qed.

Lemma minQ_positive (a b : Q) : (0 < a)%Q -> (0 < b)%Q -> (0 < Py.minQ a b)%Q.
Proof. intros Ha Hb. unfold Py.minQ. by destruct (Qle_bool a b). Qed.

(** Whatever the scale and the offsets, the final clamp puts the point
    inside the image as soon as the division is defined. *)
Lemma coords_clamped (s : remover) (i : img) (p : point) :
  image s = Some i -> 0 < width i -> 0 < height i ->
  ~ (scale_factor s == 0)%Q ->
  exists x y, canvas_to_image_coords s p = Some (x, y) /\
    0 <= x <= width i - 1 /\ 0 <= y <= height i - 1.
Proof.
  intros Hi Hw Hh Hs. unfold canvas_to_image_coords. rewrite Hi.
  rewrite !truediv_nonzero by exact Hs. simpl.
  eexists _, _. split; [reflexivity|]. lia.
Qed.

(** C7.  With an image of [w] by [h] pixels loaded and the display surface
    set to a positive size, every canvas point, inside the surface or not,
    is mapped to integer coordinates within [0, w-1] x [0, h-1]. *)
Theorem canvas_to_image_coords_in_image (s : remover) (i : img)
    (W H px py : Z) :
  image s = Some i -> 0 < width i -> 0 < height i -> 0 < W -> 0 < H ->
  exists s' x y,
    set_display_size s W H = Some s' /\
    canvas_to_image_coords s' (px, py) = Some (x, y) /\
    0 <= x <= width i - 1 /\ 0 <= y <= height i - 1.
Proof.
  intros Hi Hw Hh HW HH.
  destruct (truediv_positive W (width i) HW Hw) as (fw & Efw & Hfw).
  destruct (truediv_positive H (height i) HH Hh) as (fh & Efh & Hfh).
  unfold set_display_size. rewrite Hi, Efw, Efh. simpl.
  set (s' := set_display s W H (Py.minQ fw fh * (9 # 10))%Q).
  assert (0 < scale_factor s')%Q as Hpos.
  { simpl. apply Qmult_lt_0_compat; [by apply minQ_positive|reflexivity]. }
  destruct (coords_clamped s' i (px, py)) as (x & y & E & Hx & Hy); try done.
  { intros E. rewrite E in Hpos. by apply Qlt_irrefl in Hpos. }
  exists s', x, y. done.
Qed.

Lemma canvas_to_image_coords_in_image_witness :
  exists s' x y,
    set_display_size Sample.fresh 800 600 = Some s' /\
    canvas_to_image_coords s' (5000, -7) = Some (x, y) /\
    0 <= x <= width Sample.dot - 1 /\ 0 <= y <= height Sample.dot - 1.
Proof.
  apply (canvas_to_image_coords_in_image Sample.fresh Sample.dot 800 600 5000 (-7));
    [reflexivity | reflexivity | reflexivity | reflexivity | reflexivity].
Defined.

End Coordinates.

(** ** Mask history: undo, redo and truncation *)

Section History.
Import Raster Cv Remover Session Notions.

Lemma at_cursor_same s k m :
  history_index s = Z.of_nat k -> mask s = Some m -> at_cursor s k m = s.
Proof. destruct s; simpl; intros -> ->; reflexivity. Qed.

Lemma at_cursor_twice s j k m m' :
  at_cursor (at_cursor s j m) k m' = at_cursor s k m'.
Proof. reflexivity. Qed.

Lemma index_nat {A} (l : list A) (k : nat) : Py.index l (Z.of_nat k) = l !! k.
Proof.
  unfold Py.index. destruct (Z.leb_spec 0 (Z.of_nat k)); [|lia].
  by rewrite Nat2Z.id.
Qed.

Lemma undo_mask_step s k m :
  history_index s = Z.of_nat (S k) -> mask_history s !! k = Some m ->
  undo_mask s = Some (at_cursor s k m, true).
Proof.
  intros Hi Hm. unfold undo_mask.
  rewrite bool_decide_eq_false_2 by (intros E; rewrite E in Hm; done).
  destruct (Z.leb_spec (history_index s) 0); [lia|]. simpl.
  replace (history_index s - 1) with (Z.of_nat k) by lia.
  rewrite index_nat, Hm. reflexivity.
Qed.

Lemma redo_mask_step s k m :
  history_index s = Z.of_nat k -> mask_history s !! S k = Some m ->
  redo_mask s = Some (at_cursor s (S k) m, true).
Proof.
  intros Hi Hm. unfold redo_mask.
  apply lookup_lt_Some in Hm as Hlen.
  destruct (Z.leb_spec (Z.of_nat (length (mask_history s)) - 1) (history_index s)); [lia|].
  replace (history_index s + 1) with (Z.of_nat (S k)) by lia.
  rewrite index_nat, Hm. reflexivity.
Qed.

Lemma undo_n_rewinds n : forall s k m0 m,
  history_index s = Z.of_nat (n + k) -> mask s = Some m0 ->
  (n + k < length (mask_history s))%nat ->
  mask_history s !! k = Some m ->
  (n = 0%nat -> m0 = m) ->
  undo_n n s = Some (at_cursor s k m).
Proof.
  induction n as [|n IH]; intros s k m0 m Hi Hm0 Hlen Hk H0; simpl.
  - rewrite at_cursor_same; [done|done|]. by rewrite Hm0, H0.
  - destruct (lookup_lt_is_Some_2 (mask_history s) (n + k)) as [m1 Hm1]; [lia|].
    rewrite (undo_mask_step s (n + k) m1) by done. simpl.
    rewrite (IH _ k m1 m); try done.
    + simpl. lia.
    + intros ->. simpl in Hm1. congruence.
Qed.

Lemma redo_n_replays n : forall s k m0 m,
  history_index s = Z.of_nat k -> mask s = Some m0 ->
  mask_history s !! (n + k)%nat = Some m ->
  (n = 0%nat -> m0 = m) ->
  redo_n n s = Some (at_cursor s (n + k) m).
Proof.
  induction n as [|n IH]; intros s k m0 m Hi Hm0 Hk H0; simpl.
  - rewrite at_cursor_same; [done|done|]. by rewrite Hm0, H0.
  - apply lookup_lt_Some in Hk as Hlen.
    destruct (lookup_lt_is_Some_2 (mask_history s) (S k)) as [m1 Hm1]; [lia|].
    rewrite (redo_mask_step s k m1) by done. simpl.
    rewrite (IH _ (S k) m1 m); simpl; try done.
    + by rewrite Nat.add_succ_r.
    + by rewrite Nat.add_succ_r.
    + intros ->. simpl in Hk. congruence.
Qed.

Lemma save_appends s m :
  mask s = Some m ->
  history_index s = Z.of_nat (length (mask_history s)) - 1 ->
  _save_mask_to_history s =
  set_history s (mask_history s ++ [m]) (Z.of_nat (length (mask_history s))).
Proof.
  intros Hm Hi. unfold _save_mask_to_history. rewrite Hm.
  destruct (Z.ltb_spec (history_index s) (Z.of_nat (length (mask_history s)) - 1)); [lia|].
  f_equal. rewrite length_app. simpl. lia.
Qed.

Lemma save_history_from z n s :
  history_from z n s ->
  history_from z (S n) (_save_mask_to_history s) /\
  on_snapshot (_save_mask_to_history s).
Proof.
  intros (Hi & [m Hm] & rest & Hh & Hn & Hc).
  rewrite (save_appends s m); [|done|rewrite Hh; simpl; lia].
  split.
  - split; [done|]. split; [by exists m|].
    exists (rest ++ [m]). simpl. rewrite Hh. simpl.
    rewrite length_app. simpl. repeat split; lia.
  - exists (length (mask_history s)), m. simpl.
    split; [done|]. split; [|done]. by rewrite lookup_app_r, Nat.sub_diag.
Qed.

Lemma set_mask_history_from z n s m :
  history_from z n s -> history_from z n (set_mask s (Some m)).
Proof. intros (Hi & _ & Hr). split; [done|]. split; [by exists m|done]. Qed.

Lemma draw_history_from cv z n s c s' :
  history_from z n s -> draw cv s c = Some s' ->
  history_from z (n + if throttled c then 1 else 0) s' /\
  scale_factor s' = scale_factor s.
Proof.
  intros Hinv Hd.
  destruct Hinv as ([i Hi] & [m Hm] & Hrest).
  assert (forall m', history_from z n (set_mask s (Some m'))) as Hset.
  { intros m'. apply set_mask_history_from. split; [by exists i|]. split; [by exists m|done]. }
  destruct c as [pt b|a b br rnd]; simpl in *.
  - unfold start_draw in Hd. rewrite Hi, Hm in Hd.
    rewrite Nat.add_0_r. split_cases; split; try done; apply Hset.
  - unfold draw_line_on_mask in Hd. rewrite Hi, Hm in Hd.
    destruct (canvas_to_image_coords _ a) as [pa|]; [|done].
    destruct (canvas_to_image_coords _ b) as [pb|]; [|done].
    simpl in Hd.
    match type of Hd with
    | (?painted ≫= _) = _ => destruct painted as [s1|] eqn:E1; [|done]
    end.
    simpl in Hd. injection Hd as <-.
    assert (history_from z n s1 /\ scale_factor s1 = scale_factor s) as [H1 H2].
    { destruct (in_bounds _ pa && in_bounds _ pb).
      - destruct (cv2_line _ _ _ _ _) as [m1|]; [|done]. simpl in E1.
        destruct (cv2_circle _ m1 _ _) as [m2|]; [|done]. simpl in E1.
        destruct (cv2_circle _ m2 _ _) as [m3|]; [|done]. simpl in E1.
        injection E1 as <-. split; [apply Hset|done].
      - injection E1 as <-. split; [apply Hset|done]. }
    destruct (Py.ltQ rnd (2 # 10)).
    + rewrite Nat.add_1_r. split; [by apply save_history_from|].
      rewrite <- H2. unfold _save_mask_to_history. by destruct (mask s1).
    + by rewrite Nat.add_0_r.
Qed.

Lemma cv2_circle_accepted cv m c (radius : Z) :
  1 <= radius <= INT_MAX -> cv2_circle cv m c radius = Some (cv_circle cv m c radius).
Proof.
  intros Hr. unfold cv2_circle.
  destruct (Z.leb_spec 0 radius); [|lia].
  destruct (Z.leb_spec radius INT_MAX); [done|lia].
Qed.

Lemma cv2_line_accepted cv m a b (thickness : Z) :
  1 <= thickness <= MAX_THICKNESS ->
  cv2_line cv m a b thickness = Some (cv_line cv m a b thickness).
Proof.
  intros Hr. unfold cv2_line.
  destruct (Z.leb_spec 1 thickness); [|lia].
  destruct (Z.leb_spec thickness MAX_THICKNESS); [done|lia].
Qed.

Lemma radius_of_thickness (brush_size : Z) :
  1 <= brush_size <= MAX_THICKNESS -> 1 <= Z.max 1 (brush_size / 2) <= INT_MAX.
Proof.
  intros Hb. unfold MAX_THICKNESS, INT_MAX in *.
  assert (brush_size / 2 <= brush_size) by (apply Z.div_le_upper_bound; lia).
  lia.
Qed.

Lemma draw_defined cv s c :
  ~ (scale_factor s == 0)%Q -> accepted c = true -> is_Some (draw cv s c).
Proof.
  intros Hs Hc.
  assert (forall t p, scale_factor t = scale_factor s ->
            is_Some (canvas_to_image_coords t p)) as Hcoords.
  { intros t p Ht. unfold canvas_to_image_coords.
    destruct (image t); [|done].
    rewrite !truediv_nonzero by (by rewrite Ht). done. }
  destruct c as [pt b|a b br rnd]; simpl in *.
  - unfold start_draw. destruct (image s), (mask s); try done.
    match goal with |- context [canvas_to_image_coords ?t ?p] =>
      destruct (Hcoords t p eq_refl) as [q ->] end.
    simpl. destruct (in_bounds _ q); [|done].
    apply Z.leb_le in Hc. rewrite cv2_circle_accepted by lia. done.
  - apply andb_true_iff in Hc as [H1 H2]. apply Z.leb_le in H1, H2.
    pose proof (radius_of_thickness br (conj H1 H2)) as Hr.
    unfold draw_line_on_mask. destruct (image s), (mask s); try done.
    match goal with |- context [canvas_to_image_coords ?t a] =>
      destruct (Hcoords t a eq_refl) as [qa ->];
      destruct (Hcoords t b eq_refl) as [qb ->] end.
    simpl. destruct (in_bounds _ qa && in_bounds _ qb); [|done].
    rewrite cv2_line_accepted by lia. simpl.
    rewrite cv2_circle_accepted by lia. simpl.
    rewrite cv2_circle_accepted by lia. done.
Qed.

Lemma stroke_history_from cv z g : forall s n,
  history_from z n s -> ~ (scale_factor s == 0)%Q ->
  Forall (fun c => accepted c = true) g ->
  exists s', stroke cv s g = Some s' /\
    history_from z (n + length (filter (fun c => throttled c) g)) s' /\
    scale_factor s' = scale_factor s.
Proof.
  induction g as [|c g IH]; intros s n Hinv Hs Hacc; simpl.
  - exists s. by rewrite Nat.add_0_r.
  - apply Forall_cons in Hacc as [Hc Hacc].
    destruct (draw_defined cv s c Hs Hc) as [s1 Hd]. rewrite Hd. simpl.
    destruct (draw_history_from cv z n s c s1 Hinv Hd) as [H1 H2].
    destruct (IH s1 _ H1) as (s' & E & Hinv' & Hs'); [by rewrite H2|done|].
    exists s'. split; [done|]. split; [|congruence].
    destruct (throttled c) eqn:Ec.
    + rewrite filter_cons_True by (by rewrite Ec). simpl.
      by replace (n + S (length (filter (fun c => throttled c) g)))%nat
        with (n + 1 + length (filter (fun c => throttled c) g))%nat by lia.
    + rewrite filter_cons_False by (rewrite Ec; by intros []).
      by rewrite Nat.add_0_r in Hinv'.
Qed.

Lemma strokes_history_from cv z gs : forall s n,
  history_from z n s -> on_snapshot s -> ~ (scale_factor s == 0)%Q ->
  Forall (Forall (fun c => accepted c = true)) gs ->
  exists s', strokes cv s gs = Some s' /\
    history_from z (n + (length gs + throttle_hits gs)) s' /\ on_snapshot s'.
Proof.
  induction gs as [|g gs IH]; intros s n Hinv Hsnap Hs Hacc; simpl.
  - exists s. by rewrite Nat.add_0_r.
  - apply Forall_cons in Hacc as [Hg Hacc].
    unfold stroke_and_snapshot.
    destruct (stroke_history_from cv z g s n Hinv Hs Hg) as (s1 & E1 & H1 & Hs1).
    rewrite E1. simpl.
    destruct (save_history_from z _ s1 H1) as [H2 Hsnap2].
    destruct (IH _ _ H2 Hsnap2) as (s' & E & Hinv' & Hsnap'); [|done|].
    { replace (scale_factor (_save_mask_to_history s1)) with (scale_factor s1);
        [by rewrite Hs1|].
      unfold _save_mask_to_history. by destruct (mask s1). }
    exists s'. split; [done|]. split; [|done].
    unfold throttle_hits in *. simpl. rewrite filter_app, length_app.
    match goal with
    | H : history_from z ?a s' |- history_from z ?b s' =>
        replace b with a by lia; exact H
    end.
Qed.

Lemma undo_flags_rewinds n : forall s k,
  history_index s = Z.of_nat (n + k) ->
  (n + k < length (mask_history s))%nat ->
  undo_flags n s = Some (replicate n true).
Proof.
  induction n as [|n IH]; intros s k Hi Hlen; simpl; [done|].
  destruct (lookup_lt_is_Some_2 (mask_history s) (n + k)) as [m1 Hm1]; [lia|].
  rewrite (undo_mask_step s (n + k) m1) by done. simpl.
  rewrite (IH _ k); simpl; [done|done|lia].
Qed.

Lemma redo_flags_replays n : forall s k,
  history_index s = Z.of_nat k ->
  (n + k < length (mask_history s))%nat ->
  redo_flags n s = Some (replicate n true).
Proof.
  induction n as [|n IH]; intros s k Hi Hlen; simpl; [done|].
  destruct (lookup_lt_is_Some_2 (mask_history s) (S k)) as [m1 Hm1]; [lia|].
  rewrite (redo_mask_step s k m1) by done. simpl.
  rewrite (IH _ (S k)); simpl; [done|done|lia].
Qed.

Lemma loaded_history_from s0 i :
  history_from (zeros (height i) (width i)) 0 (loaded s0 i) /\
  on_snapshot (loaded s0 i) /\
  scale_factor (loaded s0 i) = scale_factor s0.
Proof.
  unfold loaded, _save_mask_to_history. simpl. split; [|split; [|done]].
  - split; [done|]. split; [done|]. by exists [].
  - by exists 0%nat, (zeros (height i) (width i)).
Qed.

(** C3, as the code has it.  From a freshly loaded image, any sequence of
    [N] strokes whose drawing calls OpenCV accepts, each followed by its
    snapshot, leaves after the load-time snapshot exactly
    [L = N + throttle hits] snapshots, one per stroke plus one for every
    [draw_line_on_mask] call whose random throttle fired, with the cursor on
    the last one.  [L] calls of [undo_mask()] all return [True] and restore
    the all-zero mask of load time, where a further call returns [False];
    [L] calls of [redo_mask()] then all return [True] and restore the final
    state, mask and history included, where a further call returns [False].
    [L] is [N] exactly when the throttle never fired. *)
Theorem undo_redo_over_all_snapshots (cv : opencv) (s0 : remover) (i : img)
    (gs : list (list draw_call)) :
  ~ (scale_factor s0 == 0)%Q ->
  Forall (Forall (fun c => accepted c = true)) gs ->
  let L := (length gs + throttle_hits gs)%nat in
  let blank := zeros (height i) (width i) in
  exists s s',
    strokes cv (loaded s0 i) gs = Some s /\
    length (mask_history s) = S L /\
    mask_history s !! 0%nat = Some blank /\
    history_index s = Z.of_nat L /\
    undo_n L s = Some s' /\
    undo_flags L s = Some (replicate L true) /\
    undo_mask s' = Some (s', false) /\
    mask s' = Some blank /\
    mask s' = mask (loaded s0 i) /\
    redo_n L s' = Some s /\
    redo_flags L s' = Some (replicate L true) /\
    redo_mask s = Some (s, false) /\
    (throttle_hits gs = 0%nat -> undo_n (length gs) s = Some s') /\
    (L = length gs <-> throttle_hits gs = 0%nat).
Proof.
  intros Hs Hacc L blank.
  destruct (loaded_history_from s0 i) as (Hinv & Hsnap & Hscale).
  destruct (strokes_history_from cv _ gs _ 0 Hinv Hsnap) as (s & E & Hinv' & Hsnap');
    [by rewrite Hscale|done|].
  simpl in Hinv'. fold L in Hinv'. fold blank in Hinv'.
  destruct Hinv' as (_ & _ & rest & Hh & Hlen & Hc).
  destruct Hsnap' as (k & m & Hk & Hm & Hmask).
  assert (k = L) as -> by lia.
  assert (length (mask_history s) = S L) as Hlength by (rewrite Hh; simpl; lia).
  assert (undo_n L s = Some (at_cursor s 0 blank)) as Hundo.
  { apply (undo_n_rewinds L s 0 m blank); rewrite ?Nat.add_0_r; try done.
    - lia.
    - by rewrite Hh.
    - intros HL. rewrite HL, Hh in Hm. simpl in Hm. congruence. }
  exists s, (at_cursor s 0 blank).
  split; [done|]. split; [done|]. split; [by rewrite Hh|]. split; [done|].
  split; [done|].
  split; [apply (undo_flags_rewinds L s 0); rewrite ?Nat.add_0_r; [done|lia]|].
  split.
  { unfold undo_mask. simpl.
    destruct (bool_decide (mask_history s = [])); simpl; [|done].
    reflexivity. }
  split; [done|]. split; [done|].
  split.
  { rewrite (redo_n_replays L (at_cursor s 0 blank) 0 blank m);
      rewrite ?Nat.add_0_r; try done.
    - rewrite at_cursor_twice. by rewrite at_cursor_same.
    - intros HL. rewrite HL, Hh in Hm. simpl in Hm. congruence. }
  split; [apply (redo_flags_replays L _ 0); simpl; [done|lia]|].
  split.
  { unfold redo_mask. rewrite Hlength, Hc.
    destruct (Z.leb_spec (Z.of_nat (S L) - 1) (Z.of_nat L)); [done|lia]. }
  split.
  - intros H0. subst L. rewrite H0, Nat.add_0_r in Hundo. exact Hundo.
  - subst L. lia.
Qed.

Lemma undo_redo_over_all_snapshots_witness :
  exists s s',
    strokes Sample.cv (loaded init Sample.dot)
      [[Start (0, 0) 2; Line (0, 0) (0, 0) 2 (1 # 10)]; []] = Some s /\
    length (mask_history s) = 4%nat /\
    undo_n 3 s = Some s' /\
    undo_flags 3 s = Some [true; true; true] /\
    undo_mask s' = Some (s', false) /\
    mask s' = Some (zeros 1 1) /\
    redo_n 3 s' = Some s /\
    redo_mask s = Some (s, false).
Proof.
  destruct (undo_redo_over_all_snapshots Sample.cv init Sample.dot
              [[Start (0, 0) 2; Line (0, 0) (0, 0) 2 (1 # 10)]; []])
    as (s & s' & H1 & H2 & _ & _ & H3 & H4 & H5 & H6 & _ & H7 & _ & H8 & _).
  - simpl. intros E. discriminate E.
  - repeat constructor.
  - exists s, s'. repeat split; assumption.
Defined.

(** C3, as the claim has it, fails: one stroke whose single
    [draw_line_on_mask] call takes a throttle snapshot leaves two snapshots
    behind, and one [undo_mask()] stops on the painted mask. *)
Lemma undo_once_per_stroke_counterexample :
  exists s s',
    strokes Sample.cv Sample.fresh [[Line (0, 0) (0, 0) 1 (1 # 10)]] = Some s /\
    undo_n 1 s = Some s' /\
    mask s' = Some [[255]] /\
    mask s' <> mask Sample.fresh.
Proof.
  eexists _, _. split; [vm_compute; reflexivity|].
  split; [vm_compute; reflexivity|]. split; [reflexivity|]. discriminate.
Qed.

Lemma redo_after_save s :
  is_Some (mask s) ->
  redo_mask (_save_mask_to_history s) = Some (_save_mask_to_history s, false).
Proof.
  intros [m Hm]. unfold _save_mask_to_history. rewrite Hm.
  unfold redo_mask. simpl.
  match goal with |- context [?a <=? ?b] => destruct (Z.leb_spec a b); [done|lia] end.
Qed.

Lemma undo_keeps_mask s s' b :
  is_Some (mask s) -> undo_mask s = Some (s', b) -> is_Some (mask s').
Proof. unfold undo_mask. intros Hm H. split_cases; done. Qed.

Lemma draw_keeps_mask cv s c s' :
  is_Some (mask s) -> draw cv s c = Some s' -> is_Some (mask s').
Proof.
  intros [m Hm] H. destruct c; simpl in H;
    unfold start_draw, draw_line_on_mask, _save_mask_to_history in H;
    rewrite Hm in H; split_cases; done.
Qed.

Lemma stroke_keeps_mask cv g : forall s s',
  is_Some (mask s) -> stroke cv s g = Some s' -> is_Some (mask s').
Proof.
  induction g as [|c g IH]; intros s s' Hm H; simpl in H.
  - by injection H as <-.
  - destruct (draw cv s c) as [s1|] eqn:E; [|done]. simpl in H.
    eapply IH; [|exact H]. by eapply draw_keeps_mask.
Qed.

(** C4.  A snapshot pushed while the cursor is before the end of the
    history keeps the snapshots up to the cursor and drops the later ones;
    the cursor is then on the new snapshot, so [redo_mask()] returns false.
    In particular it returns false after two undos, a new stroke and the
    snapshot that ends it. *)
Theorem snapshot_discards_future :
  (forall (s : remover) (m : Raster.mask),
     mask s = Some m -> -1 <= history_index s ->
     let s' := _save_mask_to_history s in
     mask_history s' =
       take (Z.to_nat (history_index s + 1)) (mask_history s) ++ [m] /\
     history_index s' = Z.of_nat (length (mask_history s')) - 1 /\
     redo_mask s' = Some (s', false)) /\
  (forall (cv : opencv) (s0 s1 s2 s3 : remover) (b1 b2 : bool)
          (g : list draw_call),
     is_Some (mask s0) ->
     undo_mask s0 = Some (s1, b1) -> undo_mask s1 = Some (s2, b2) ->
     stroke cv s2 g = Some s3 ->
     redo_mask (_save_mask_to_history s3) = Some (_save_mask_to_history s3, false)).
Proof.
  split.
  - intros s m Hm Hi s'. split; [|split].
    + subst s'. unfold _save_mask_to_history. rewrite Hm.
      destruct (Z.ltb_spec (history_index s) (Z.of_nat (length (mask_history s)) - 1)); simpl.
      * unfold Py.slice_to.
        destruct (Z.leb_spec 0 (history_index s + 1)); [done|lia].
      * rewrite take_ge by lia. done.
    + subst s'. unfold _save_mask_to_history. rewrite Hm. reflexivity.
    + apply redo_after_save. by exists m.
  - intros cv s0 s1 s2 s3 b1 b2 g Hm H1 H2 H3.
    apply redo_after_save.
    eapply stroke_keeps_mask; [|exact H3].
    eapply undo_keeps_mask; [|exact H2].
    eapply undo_keeps_mask; [|exact H1]. exact Hm.
Qed.

Lemma snapshot_discards_future_witness :
  let s0 := default Sample.fresh
    (strokes Sample.cv Sample.fresh [[Start (0, 0) 2]; [Start (0, 0) 2]]) in
  let s1 := (default (s0, false) (undo_mask s0)).1 in
  let s2 := (default (s1, false) (undo_mask s1)).1 in
  let s3 := default s2 (stroke Sample.cv s2 [Start (0, 0) 4]) in
  (mask_history (_save_mask_to_history s2) =
     take (Z.to_nat (history_index s2 + 1)) (mask_history s2) ++ [[[0]]] /\
   history_index (_save_mask_to_history s2) =
     Z.of_nat (length (mask_history (_save_mask_to_history s2))) - 1 /\
   redo_mask (_save_mask_to_history s2) = Some (_save_mask_to_history s2, false)) /\
  redo_mask (_save_mask_to_history s3) = Some (_save_mask_to_history s3, false).
Proof.
  intros s0 s1 s2 s3. split.
  - apply (proj1 snapshot_discards_future s2 [[0]]).
    + vm_compute. reflexivity.
    + vm_compute. discriminate.
  - apply (proj2 snapshot_discards_future Sample.cv s0 s1 s2 s3 true true
             [Start (0, 0) 4]).
    + vm_compute. eexists. reflexivity.
    + vm_compute. reflexivity.
    + vm_compute. reflexivity.
    + vm_compute. reflexivity.
Defined.

End History.

(** ** Float comparisons *)

Section Floats.

Lemma ltQ_true (a b : Q) : Py.ltQ a b = true <-> (a < b)%Q.
Proof.
  unfold Py.ltQ. rewrite negb_true_iff. split.
  - intros E. apply Qnot_le_lt. intros Hle.
    apply Qle_bool_iff in Hle. congruence.
  - intros Hlt. destruct (Qle_bool b a) eqn:E; [|done].
    apply Qle_bool_iff in E. by apply Qlt_not_le in Hlt.
Qed.

Lemma ltQ_false (a b : Q) : Py.ltQ a b = false <-> (b <= a)%Q.
Proof.
  unfold Py.ltQ. rewrite negb_false_iff. apply Qle_bool_iff.
Qed.

Lemma maxQ_minQ_unit (q : Q) :
  (0 <= Py.maxQ 0 (Py.minQ 1 q) /\ Py.maxQ 0 (Py.minQ 1 q) <= 1)%Q.
Proof.
  unfold Py.maxQ, Py.minQ.
  destruct (Qle_bool 1 q) eqn:E1.
  - destruct (Qle_bool 1 0) eqn:E2; split; done.
  - destruct (Qle_bool q 0) eqn:E2.
    + split; done.
    + split.
      * apply Qlt_le_weak, Qnot_le_lt. intros H. apply Qle_bool_iff in H. congruence.
      * apply Qlt_le_weak, Qnot_le_lt. intros H. apply Qle_bool_iff in H. congruence.
Qed.

End Floats.

(** ** Strategy selection *)

Section Strategy.
Import Raster Core.
Context {gray : Type}.

(** C1.  On a mask with pixels, [_auto_algorithm] hands over to the routine
    the decision table gives for the area fraction [a] and the complexity
    [c]: fast-marching (Telea) for [a < 0.01] and [c > 0.2], Navier-Stokes
    for [a < 0.01] and [c <= 0.2], patch-based for [0.01 <= a < 0.1] and
    [c > 0.3], fast-marching for [0.01 <= a < 0.1] and [c <= 0.3],
    patch-based for [a >= 0.1]; so [a = 0.005] with [c = 0.5] gives
    fast-marching and [a = 0.5] gives patch-based. *)
Theorem auto_select_decision_table (o : imaging gray) (m : Raster.mask) (a : Q) :
  mask_area m = Some a ->
  let c := complexity o m in
  ((a < 1 # 100)%Q -> (2 # 10 < c)%Q -> auto_select o m = Some FastMarching) /\
  ((a < 1 # 100)%Q -> (c <= 2 # 10)%Q -> auto_select o m = Some NavierStokes) /\
  ((1 # 100 <= a)%Q -> (a < 1 # 10)%Q -> (3 # 10 < c)%Q ->
     auto_select o m = Some PatchBased) /\
  ((1 # 100 <= a)%Q -> (a < 1 # 10)%Q -> (c <= 3 # 10)%Q ->
     auto_select o m = Some FastMarching) /\
  ((1 # 10 <= a)%Q -> auto_select o m = Some PatchBased) /\
  ((a == 5 # 1000)%Q -> (c == 1 # 2)%Q -> auto_select o m = Some FastMarching) /\
  ((a == 1 # 2)%Q -> auto_select o m = Some PatchBased).
Proof.
  intros Ha c.
  assert (forall lo, (a < lo)%Q -> Py.ltQ a lo = true) as Hlt
    by (intros; by apply ltQ_true).
  assert (forall lo, (lo <= a)%Q -> Py.ltQ a lo = false) as Hge
    by (intros; by apply ltQ_false).
  assert (forall t, (t < c)%Q -> Py.gtQ c t = true) as Hgt
    by (intros; by apply ltQ_true).
  assert (forall t, (c <= t)%Q -> Py.gtQ c t = false) as Hle
    by (intros; by apply ltQ_false).
  unfold auto_select, auto_branch. rewrite Ha. fold c. simpl.
  repeat split.
  - intros H1 H2. by rewrite Hlt, Hgt.
  - intros H1 H2. by rewrite Hlt, Hle.
  - intros H1 H2 H3. by rewrite Hge, Hlt, Hgt.
  - intros H1 H2 H3. by rewrite Hge, Hlt, Hle.
  - intros H1. rewrite (Hge (1 # 100)), (Hge (1 # 10)); [done|done|].
    eapply Qle_trans; [|exact H1]. done.
  - intros H1 H2. rewrite Hlt, Hgt; [done| |]; [rewrite H2|rewrite H1]; reflexivity.
  - intros H1. rewrite (Hge (1 # 100)), (Hge (1 # 10)); [done| |]; rewrite H1; done.
Qed.

End Strategy.

Lemma auto_select_decision_table_witness :
  Core.mask_area Sample.speck = Some (inject_Z 1 / inject_Z 100)%Q /\
  Core.auto_select (Sample.imaging [] (fun _ => 0%Q) (fun _ => 0%Q)) Sample.speck
    = Some Core.PatchBased.
Proof.
  split; [reflexivity|].
  destruct (auto_select_decision_table
              (Sample.imaging [] (fun _ => 0%Q) (fun _ => 0%Q)) Sample.speck
              (inject_Z 1 / inject_Z 100)%Q eq_refl) as (_ & _ & H & _).
  apply H; vm_compute; first [reflexivity | discriminate].
Defined.

(** ** Detection *)

Section Detection.
Import Raster Core Notions.
Context {gray : Type}.

Lemma confidence_unit (o : imaging gray) (g : gray) (b : box) :
  (0 <= _calculate_watermark_confidence o g b /\
   _calculate_watermark_confidence o g b <= 1)%Q.
Proof.
  unfold _calculate_watermark_confidence. destruct b as [[[bx by_] w] h].
  apply maxQ_minQ_unit.
Qed.

Lemma candidate_unit (o : imaging gray) (g : gray) (img_area : Z) (b : box) r :
  candidate o g img_area b = Some r ->
  (0 <= confidence r /\ confidence r <= 1)%Q.
Proof.
  unfold candidate. destruct b as [[[bx by_] w] h].
  destruct (_ && _); [|done]. intros [= <-]. simpl.
  apply (confidence_unit o g (bx, by_, w, h)).
Qed.

Lemma insert_desc_Forall (P : region -> Prop) r l :
  P r -> Forall P l -> Forall P (insert_desc r l).
Proof.
  intros Hr. induction 1 as [|r' l' Hr' Hl' IH]; simpl.
  - by repeat constructor.
  - destruct (Py.ltQ _ _); by repeat constructor.
Qed.

Lemma sort_desc_Forall (P : region -> Prop) l :
  Forall P l -> Forall P (sort_desc l).
Proof.
  induction 1 as [|r l Hr Hl IH]; simpl; [constructor|].
  by apply insert_desc_Forall.
Qed.

Lemma insert_desc_sorted r l :
  StronglySorted by_confidence l -> StronglySorted by_confidence (insert_desc r l).
Proof.
  induction 1 as [|r' l' Hl' IH Hr']; simpl.
  - by repeat constructor.
  - destruct (Py.ltQ (confidence r) (confidence r')) eqn:E.
    + constructor; [exact IH|].
      apply insert_desc_Forall; [|exact Hr'].
      apply ltQ_true in E. by apply Qlt_le_weak.
    + apply ltQ_false in E.
      constructor; [by constructor|].
      constructor; [exact E|].
      eapply Forall_impl; [exact Hr'|]. unfold by_confidence. simpl.
      intros x Hx. by eapply Qle_trans.
Qed.

Lemma sort_desc_sorted l : StronglySorted by_confidence (sort_desc l).
Proof.
  induction l as [|r l IH]; simpl; [constructor|].
  by apply insert_desc_sorted.
Qed.

Lemma take_sorted n : forall l,
  StronglySorted by_confidence l -> StronglySorted by_confidence (take n l).
Proof.
  induction n as [|n IH]; intros l Hl; [constructor|].
  destruct Hl as [|r l Hl Hr]; simpl; [constructor|].
  constructor; [by apply IH|]. by apply Forall_take.
Qed.

Lemma clear_mask_detected (s : core) :
  detected_regions (clear_mask s) = detected_regions s.
Proof. unfold clear_mask. by destruct (mask s), (original_image s). Qed.

(** C8.  Whatever the image and whatever OpenCV finds in it,
    [detect_watermark] returns at most 5 regions, each confidence lies in
    [0, 1], and the regions are in non-increasing order of confidence. *)
Theorem detect_watermark_top_five (o : imaging gray) (s : core) :
  let found := (detect_watermark o s).2 in
  (length found <= 5)%nat /\
  Forall (fun r => (0 <= confidence r /\ confidence r <= 1)%Q) found /\
  StronglySorted by_confidence found.
Proof.
  assert (forall l : list region,
            Forall (fun r => (0 <= confidence r /\ confidence r <= 1)%Q) l ->
            (length (take 5 (sort_desc l)) <= 5)%nat /\
            Forall (fun r => (0 <= confidence r /\ confidence r <= 1)%Q)
              (take 5 (sort_desc l)) /\
            StronglySorted by_confidence (take 5 (sort_desc l))) as Htop.
  { intros l Hl. split; [rewrite length_take; lia|]. split.
    - by apply Forall_take, sort_desc_Forall.
    - apply take_sorted, sort_desc_sorted. }
  assert ((0 <= 5)%nat /\
          Forall (fun r => (0 <= confidence r /\ confidence r <= 1)%Q) [] /\
          StronglySorted by_confidence []) as Hnil
    by (repeat split; [lia|constructor|constructor]).
  unfold detect_watermark.
  destruct (original_image s) as [orig|]; [|exact Hnil].
  destruct (find_boxes o orig) as [[g contours]|]; [|exact Hnil].
  set (cands := omap (candidate o g (width orig * height orig)) contours).
  assert (Forall (fun r => (0 <= confidence r /\ confidence r <= 1)%Q) cands) as Hc.
  { apply Forall_forall. intros r Hr.
    apply list_elem_of_omap in Hr as (b & _ & Hb).
    by eapply candidate_unit. }
  destruct (sort_desc cands) as [|r rest] eqn:Es.
  - simpl. exact Hnil.
  - rewrite <- Es. simpl.
    destruct (mask (clear_mask _)); simpl; [|exact Hnil].
    rewrite clear_mask_detected. simpl. by apply Htop.
Qed.

End Detection.

(** ** Removal with nothing marked *)

Section NothingMarked.
Import Raster Cv.

(** C5, as the code has it.  With nothing marked, the core class returns
    the original image and logs a warning, while each of its hard failures
    returns [None] and logs an error; the interactive remover returns
    [False] without calling the oracle and without touching [result_image],
    which is also what it returns on a hard failure. *)
Theorem remove_watermark_nothing_marked {gray : Type} (o : Core.imaging gray)
    (cv : opencv) :
  (forall (s : Core.core) (preview : bool) (orig : img) (m : mask),
     Core.original_image s = Some orig -> Core.mask s = Some m ->
     np_max m = Some 0 ->
     Core.remove_watermark o s preview =
       Some (Core.logging s Core.Warning "no watermark region marked", Some orig)) /\
  (forall (s s' : Core.core) (preview : bool),
     Core.remove_watermark o s preview = Some (s', None) ->
     exists msg, last (Core.log s') = Some (Core.Error, msg)) /\
  (forall (s : Remover.remover) (i orig : img) (m resized : mask),
     Remover.image s = Some i -> Remover.original_image s = Some orig ->
     Remover.mask s = Some m ->
     cv_resize cv m (width orig) (height orig) = Some resized ->
     np_max (threshold resized) = Some 0 ->
     let '(s', returned, calls) := Remover.remove_watermark cv s in
     returned = false /\ calls = [] /\
     Remover.result_image s' = Remover.result_image s /\
     Remover.get_result_image s' = Remover.result_image s) /\
  (forall (s : Remover.remover) (i orig : img) (m resized : mask),
     Remover.image s = Some i -> Remover.original_image s = Some orig ->
     Remover.mask s = Some m ->
     cv_resize cv m (width orig) (height orig) = Some resized ->
     cv_inpaint cv orig (threshold resized) (Remover.inpaint_radius s)
       (Remover.algorithm s) = None ->
     (Remover.remove_watermark cv s).1.2 = false).
Proof.
  split; [|split; [|split]].
  - intros s preview orig m Ho Hm Hmax.
    unfold Core.remove_watermark. rewrite Ho, Hm, Hmax. reflexivity.
  - intros s s' preview H. unfold Core.remove_watermark in H.
    unfold Core._auto_algorithm, Core.run_method in H.
    split_cases; eexists; apply last_snoc.
  - intros s i orig m resized Hi Ho Hm Hr Hmax.
    unfold Remover.remove_watermark. rewrite Hi, Hm, Ho, Hr, Hmax. done.
  - intros s i orig m resized Hi Ho Hm Hr Hfail.
    unfold Remover.remove_watermark. rewrite Hi, Hm, Ho, Hr.
    destruct (np_max (threshold resized)) as [[|?|?]|]; try done;
      by rewrite Hfail.
Qed.

End NothingMarked.

Lemma remove_watermark_nothing_marked_witness :
  Core.remove_watermark (Sample.imaging [] (fun _ => 0%Q) (fun _ => 0%Q))
    Sample.core_fresh false =
    Some (Core.logging Sample.core_fresh Core.Warning "no watermark region marked",
          Some Sample.dot) /\
  (exists msg,
     last (Core.log (Core.logging Sample.core_init Core.Error
                       "no image loaded or no region marked")) =
     Some (Core.Error, msg)) /\
  (let '(s', returned, calls) := Remover.remove_watermark Sample.cv Sample.fresh in
   returned = false /\ calls = [] /\
   Remover.result_image s' = Remover.result_image Sample.fresh /\
   Remover.get_result_image s' = Remover.result_image Sample.fresh) /\
  (Remover.remove_watermark Sample.broken Sample.marked).1.2 = false.
Proof.
  pose proof (remove_watermark_nothing_marked
                (Sample.imaging [] (fun _ => 0%Q) (fun _ => 0%Q)) Sample.cv)
    as (H1 & H2 & H3 & _).
  pose proof (remove_watermark_nothing_marked
                (Sample.imaging [] (fun _ => 0%Q) (fun _ => 0%Q)) Sample.broken)
    as (_ & _ & _ & H4).
  split; [|split; [|split]].
  - apply (H1 Sample.core_fresh false Sample.dot [[0]]); reflexivity.
  - apply (H2 Sample.core_init _ false). reflexivity.
  - apply (H3 Sample.fresh Sample.dot Sample.dot [[0]] [[0]]); reflexivity.
  - apply (H4 Sample.marked Sample.dot Sample.dot [[255]] [[255]]); reflexivity.
Defined.

(** C5, as the claim has it, fails on the interactive remover: with an image
    loaded and nothing marked it returns [False] and produces no image, and
    a hard failure of the oracle on a marked mask returns the same. *)
Lemma remover_nothing_marked_counterexample :
  Remover.original_image Sample.fresh = Some Sample.dot /\
  Remover.mask Sample.fresh = Some [[0]] /\
  Raster.np_max [[0]] = Some 0 /\
  (Remover.remove_watermark Sample.cv Sample.fresh).1.2 = false /\
  Remover.get_result_image (Remover.remove_watermark Sample.cv Sample.fresh).1.1
    = None /\
  (Remover.remove_watermark Sample.broken Sample.marked).1.2 = false /\
  Remover.get_result_image (Remover.remove_watermark Sample.broken Sample.marked).1.1
    = None.
Proof. repeat split. Qed.

(** ** Starting a batch *)

Section Start.
Import Raster Cv Batch Notions.

(** C6.  [start_batch_processing] makes its checks in the fixed order
    template mask present and marked, sources given, output directory set,
    no batch running.  The first check that fails is reported to the error
    callback, the method returns [False], the state is unchanged and no
    thread is launched; when every check passes the method resets the
    counters, launches the thread and returns [True]. *)
Theorem start_batch_processing_preflight (p : processor) (cb : callbacks) :
  (forall m, Remover.mask (template_watermark_remover p) = Some m ->
             is_Some (np_max m)) ->
  match first_failing p with
  | Some c =>
      start_batch_processing p cb =
        Some (p, false, emit (error_callback cb) (Failure (message_of c)), false)
  | None =>
      start_batch_processing p cb =
        Some (set_counters (set_flags p true false) 0 0 [], true, [], true)
  end.
Proof.
  intros Hpix. unfold start_batch_processing, first_failing. simpl.
  destruct (Remover.mask (template_watermark_remover p)) as [m|] eqn:Em; [|done].
  destruct (Hpix m eq_refl) as [mx Emx]. rewrite Emx. simpl.
  destruct (Z.eqb_spec mx 0) as [->|Hmx].
  { rewrite bool_decide_eq_false_2 by (intros H; by apply H). done. }
  rewrite bool_decide_eq_true_2 by congruence. simpl.
  destruct (image_paths p) as [|path paths] eqn:Ep; [done|]. simpl.
  destruct (String.eqb_spec (output_dir p) "") as [Eo|Eo].
  { rewrite bool_decide_eq_false_2 by (intros H; by apply H). done. }
  rewrite bool_decide_eq_true_2 by done. simpl.
  by destruct (is_processing p).
Qed.

Lemma start_batch_processing_preflight_witness :
  start_batch_processing Sample.processor
    {| progress_callback := true; complete_callback := true; error_callback := true |}
  = Some (set_counters (set_flags Sample.processor true false) 0 0 [], true, [], true)
  /\
  start_batch_processing (set_flags Sample.processor true false)
    {| progress_callback := true; complete_callback := true; error_callback := true |}
  = Some (set_flags Sample.processor true false, false, [Failure busy_message], false).
Proof.
  split.
  - apply (start_batch_processing_preflight Sample.processor).
    intros m [= <-]. vm_compute. eexists. reflexivity.
  - apply (start_batch_processing_preflight (set_flags Sample.processor true false)).
    intros m [= <-]. vm_compute. eexists. reflexivity.
Defined.

End Start.

(** ** Batch counters *)

Section Counters.
Import Raster Cv Batch Notions Terms.

Lemma free_name_exhausted (fs : directory) (name ext : string) (fuel : nat) :
  forall counter,
    free_name fs name ext fuel counter = None ->
    forall j, (j < fuel)%nat -> (name, Some (counter + Z.of_nat j), ext) ∈ fs.
Proof.
  induction fuel as [|fuel IH]; intros counter H j Hj; [lia|].
  simpl in H. destruct (decide ((name, Some counter, ext) ∈ fs)) as [Hin|]; [|done].
  destruct j as [|j].
  - by rewrite Z.add_0_r.
  - replace (counter + Z.of_nat (S j)) with (counter + 1 + Z.of_nat j) by lia.
    apply IH; [done|lia].
Qed.

(** The collision loop always finds a free name. *)
Lemma output_path_total (fs : directory) (name ext : string) :
  is_Some (output_path fs name ext).
Proof.
  unfold output_path. destruct (decide _); [|done].
  destruct (free_name fs name ext (S (size fs)) 1) as [out|] eqn:E; [done|].
  exfalso.
  pose proof (free_name_exhausted fs name ext _ 1 E) as Hall.
  set (f := fun j : nat => ((name, Some (1 + Z.of_nat j), ext) : out_path)).
  assert (list_to_set (f <$> seq 0 (S (size fs))) ⊆ fs) as Hsub.
  { intros x Hx. apply elem_of_list_to_set, list_elem_of_fmap in Hx as (j & -> & Hj).
    apply elem_of_seq in Hj. apply Hall. lia. }
  apply subseteq_size in Hsub.
  rewrite size_list_to_set in Hsub.
  - rewrite length_fmap, length_seq in Hsub. lia.
  - apply NoDup_fmap_2; [|apply NoDup_seq].
    intros a b [= Hab]. lia.
Qed.

Variables (w : files) (cv : opencv) (p : processor).

Lemma worker_flag (fs : directory) (image_path : string) :
  processable w cv p image_path -> writable w cv p image_path ->
  (_process_single_image w cv p fs image_path
     (Remover.mask (template_watermark_remover p))).1
  = bool_decide (~ unreadable w image_path).
Proof.
  intros Hproc Hwr. unfold _process_single_image, unreadable.
  destruct (read_image w image_path) as [image|] eqn:Er.
  - rewrite bool_decide_eq_true_2 by done.
    destruct Hproc as [result Hres]; [done|]. rewrite Hres.
    destruct (splitext w image_path) as [name ext].
    destruct (output_path_total fs name ext) as [out ->].
    destruct (Hwr result out Hres) as [->|[-> ->]]; done.
  - rewrite bool_decide_eq_false_2 by (intros H; by apply H).
    unfold inpainted. by rewrite Er.
Qed.

Lemma Forall_insert_1 {A} (P : A -> Prop) (l : list A) (i : nat) (x : A) :
  Forall P l -> P x -> Forall P (<[i:=x]> l).
Proof.
  intros Hl Hx. apply Forall_lookup_2. intros j y Hy.
  apply list_lookup_insert_Some in Hy as [(_ & <- & _)|[_ Hy]]; [done|].
  by eapply Forall_lookup_1.
Qed.

Lemma insert_same_path (ws : list (string * worker)) (i : nat) (image_path : string) (x x' : worker) :
  ws !! i = Some (image_path, x) -> (<[i:=(image_path, x')]> ws).*1 = ws.*1.
Proof.
  intros E. rewrite list_fmap_insert. simpl. apply list_insert_id.
  by rewrite list_lookup_fmap, E.
Qed.

Lemma submitted_paths (l : list string) :
  ((fun image_path => (image_path, Queued)) <$> l).*1 = l.
Proof. induction l as [|x l IH]; [done|]. simpl. by f_equal. Qed.

(** No step of the pool changes the sources or their order. *)
Lemma step_paths (template_mask : option mask) (max_workers : nat)
    (st : pool * directory) (i : nat) :
  (step w cv p template_mask max_workers st i).1.*1 = st.1.*1.
Proof.
  destruct st as [ws fs]. unfold step.
  destruct (ws !! i) as [[image_path x]|] eqn:E; [|done].
  destruct x as [| |result out|flag]; simpl.
  - destruct (_ && _); [by eapply insert_same_path|done].
  - destruct (inpainted _ _ _ _ _); [|by eapply insert_same_path].
    destruct (splitext w image_path) as [name ext].
    destruct (output_path fs name ext); by eapply insert_same_path.
  - destruct (save w fs out result). by eapply insert_same_path.
  - done.
Qed.

Lemma steps_paths (template_mask : option mask) (max_workers : nat)
    (sched : list nat) : forall st,
  (foldl (step w cv p template_mask max_workers) st sched).1.*1 = st.1.*1.
Proof.
  induction sched as [|i sched IH]; intros st; [done|].
  simpl. by rewrite IH, step_paths.
Qed.

Lemma drain_paths (template_mask : option mask) (ws : pool) : forall fs,
  (drain w cv p template_mask ws fs).1.*1 = ws.*1.
Proof.
  induction ws as [|[image_path x] ws IH]; intros fs; [done|].
  simpl.
  destruct (match x with Finished _ => _ | _ => _ end) as [flag fs1].
  specialize (IH fs1). destruct (drain _ _ _ _ _ _) as [results fs2].
  simpl in *. by f_equal.
Qed.

(** The results of a batch are those of its sources, in the order of
    submission, whatever the interleaving. *)
Lemma run_workers_paths (template_mask : option mask) (max_workers : nat)
    (sched : list nat) (fs : directory) :
  (run_workers w cv p fs template_mask max_workers sched).1.*1 = image_paths p.
Proof.
  unfold run_workers.
  pose proof (steps_paths template_mask max_workers sched
                ((fun image_path => (image_path, Queued)) <$> image_paths p, fs))
    as Hp.
  destruct (foldl (step _ _ _ _ _) _ sched) as [ws fs1]. simpl in Hp.
  by rewrite drain_paths, Hp, submitted_paths.
Qed.

Lemma save_flag (fs : directory) (image_path : string) (result : img)
    (out : out_path) :
  writable w cv p image_path ->
  inpainted w cv p image_path (Remover.mask (template_watermark_remover p)) = Some result ->
  (save w fs out result).1 = true.
Proof.
  intros Hwr Hres. unfold save.
  destruct (Hwr result out Hres) as [->|[-> ->]]; done.
Qed.

Lemma inpainted_readable (image_path : string) (result : img) :
  inpainted w cv p image_path (Remover.mask (template_watermark_remover p)) = Some result ->
  bool_decide (~ unreadable w image_path) = true.
Proof.
  intros Hres. apply bool_decide_eq_true_2. unfold unreadable.
  unfold inpainted in Hres. by destruct (read_image w image_path).
Qed.

Lemma not_inpainted_unreadable (image_path : string) :
  processable w cv p image_path ->
  inpainted w cv p image_path (Remover.mask (template_watermark_remover p)) = None ->
  bool_decide (~ unreadable w image_path) = false.
Proof.
  intros Hproc Hres. apply bool_decide_eq_false_2. intros Hr. unfold unreadable in Hr.
  destruct (read_image w image_path) as [image|] eqn:Er; [|done].
  destruct Hproc as [result Hsome]; [by rewrite Er|]. congruence.
Qed.

(** The sources of the pool are processable and writable, and every worker
    agrees with its source. *)
Local Abbreviation good :=
  (fun e : string * worker =>
     processable w cv p e.1 /\ writable w cv p e.1 /\ settled w cv p e).

Lemma step_settled (max_workers : nat) (st : pool * directory) (i : nat) :
  Forall good st.1 -> Forall good (step w cv p (Remover.mask (template_watermark_remover p)) max_workers st i).1.
Proof.
  destruct st as [ws fs]. simpl. intros Hall. unfold step.
  destruct (ws !! i) as [[image_path x]|] eqn:E; [|done].
  pose proof (Forall_lookup_1 _ _ _ _ Hall E) as (Hproc & Hwr & Hx).
  simpl in Hproc, Hwr.
  destruct x as [| |result out|flag]; simpl.
  - destruct (_ && _); [|done]. by apply Forall_insert_1.
  - destruct (inpainted _ _ _ _ _) as [result|] eqn:Hres.
    + destruct (splitext w image_path) as [name ext].
      destruct (output_path fs name ext) as [out|] eqn:Hout.
      * by apply Forall_insert_1.
      * by destruct (output_path_total fs name ext) as [out Hsome]; congruence.
    + apply Forall_insert_1; [done|]. split; [done|]. split; [done|].
      unfold settled. simpl. symmetry. by apply not_inpainted_unreadable.
  - unfold settled in Hx. simpl in Hx.
    pose proof (save_flag fs image_path result out Hwr Hx) as Hflag.
    destruct (save w fs out result) as [flag fs']. simpl in Hflag. subst flag.
    apply Forall_insert_1; [done|]. split; [done|]. split; [done|].
    unfold settled. simpl. symmetry. by eapply inpainted_readable.
  - done.
Qed.

Lemma steps_settled (max_workers : nat) (sched : list nat) : forall st,
  Forall good st.1 ->
  Forall good (foldl (step w cv p (Remover.mask (template_watermark_remover p)) max_workers) st sched).1.
Proof.
  induction sched as [|i sched IH]; intros st Hst; [done|].
  simpl. apply IH. by apply step_settled.
Qed.

Lemma drain_flags (ws : pool) : forall fs,
  Forall good ws ->
  (drain w cv p (Remover.mask (template_watermark_remover p)) ws fs).1
  = (fun path => (path, bool_decide (~ unreadable w path))) <$> ws.*1.
Proof.
  induction ws as [|[image_path x] ws IH]; intros fs Hall; [done|].
  apply Forall_cons in Hall as [(Hproc & Hwr & Hx) Hall]. simpl in Hproc, Hwr.
  simpl.
  assert ((match x with
           | Finished flag => (flag, fs)
           | Named result out => save w fs out result
           | _ => _process_single_image w cv p fs image_path (Remover.mask (template_watermark_remover p))
           end).1 = bool_decide (~ unreadable w image_path)) as Hflag.
  { destruct x as [| |result out|flag]; try by apply worker_flag.
    - unfold settled in Hx. simpl in Hx.
      rewrite (save_flag fs image_path result out Hwr Hx).
      symmetry. by eapply inpainted_readable.
    - exact Hx. }
  destruct (match x with Finished _ => _ | _ => _ end) as [flag fs1].
  simpl in Hflag. specialize (IH fs1 Hall).
  destruct (drain _ _ _ _ _ _) as [results fs2]. simpl in *.
  by rewrite Hflag, IH.
Qed.

(** Whatever the interleaving of the workers, each one returns [True]
    exactly when its source can be read. *)
Lemma run_workers_flags (max_workers : nat) (sched : list nat) (fs : directory) :
  Forall (processable w cv p) (image_paths p) ->
  Forall (writable w cv p) (image_paths p) ->
  (run_workers w cv p fs (Remover.mask (template_watermark_remover p)) max_workers sched).1
  = (fun path => (path, bool_decide (~ unreadable w path))) <$> image_paths p.
Proof.
  intros Hproc Hwr. unfold run_workers.
  set (st := ((fun image_path => (image_path, Queued)) <$> image_paths p, fs)).
  assert (Forall good st.1) as Hst.
  { subst st. simpl. apply Forall_fmap, Forall_lookup_2. intros i path Hi.
    split; [by eapply Forall_lookup_1|]. split; [by eapply Forall_lookup_1|done]. }
  pose proof (steps_settled max_workers sched st Hst) as Hgood.
  pose proof (steps_paths (Remover.mask (template_watermark_remover p)) max_workers sched st) as Hpaths.
  destruct (foldl (step _ _ _ _ _) st sched) as [ws fs1]. simpl in Hgood, Hpaths.
  rewrite drain_flags by done. by rewrite Hpaths, submitted_paths.
Qed.

Lemma collect_counts (cb : callbacks) (oc : outcomes) (total_count : Z)
    (stop : nat -> bool) (completed : list string) :
  (forall k, stop k = false) ->
  (forall k, progress_raises oc k = None) ->
  forall k q q' evs raised,
    collect cb oc total_count stop k
      ((fun path => (path, bool_decide (~ unreadable w path))) <$> completed) q
      = (q', evs, raised) ->
    success_count q' =
      success_count q
      + Z.of_nat (length (filter (fun x => ~ unreadable w x) completed)) /\
    failed_paths q' = failed_paths q ++ filter (unreadable w) completed /\
    processed_count q' = processed_count q + Z.of_nat (length completed) /\
    is_processing q' = is_processing q /\ should_stop q' = should_stop q /\
    image_paths q' = image_paths q /\ raised = None.
Proof.
  intros Hstop Hret. induction completed as [|path rest IH]; intros k q q' evs raised H.
  - injection H as <- <- <-. rewrite app_nil_r. simpl. repeat split; lia.
  - simpl in H. rewrite Hstop, Hret in H.
    assert ((if progress_callback cb then None else None) = @None string) as Hnone
      by (by destruct (progress_callback cb)).
    rewrite Hnone in H.
    destruct (collect cb oc total_count stop (S k) _ _) as [[q3 evs3] r3] eqn:E in H.
    injection H as <- <- <-.
    apply IH in E as (Hs & Hf & Hc & Hr & Ht & Hi & Hn).
    rewrite Hs, Hf, Hc, Hr, Ht, Hi.
    destruct (decide (unreadable w path)) as [Hu|Hu].
    + rewrite bool_decide_eq_false_2 by (intros H; by apply H).
      rewrite filter_cons_False by (intros H; by apply H).
      rewrite filter_cons_True by done.
      simpl. rewrite <- app_assoc. repeat split; try done; lia.
    + rewrite bool_decide_eq_true_2 by done.
      rewrite filter_cons_True by done.
      rewrite filter_cons_False by done.
      simpl. repeat split; try done; lia.
Qed.

Lemma filter_split_length (l : list string) :
  (length (filter (fun x => ~ unreadable w x) l)
   + length (filter (unreadable w) l) = length l)%nat.
Proof.
  induction l as [|x l IH]; [done|].
  destruct (decide (unreadable w x)).
  - rewrite filter_cons_False by (intros H; by apply H).
    rewrite filter_cons_True by done. simpl. lia.
  - rewrite filter_cons_True by done.
    rewrite filter_cons_False by done. simpl. lia.
Qed.

Lemma omap_lookup_seq_app {A} (l : list A) : forall pre,
  omap (fun i => (pre ++ l) !! i) (seq (length pre) (length l)) = l.
Proof.
  induction l as [|x l IH]; intros pre; [done|].
  simpl. rewrite list_lookup_middle by done. simpl. f_equal.
  specialize (IH (pre ++ [x])).
  rewrite length_app, Nat.add_1_r, <- app_assoc in IH. exact IH.
Qed.

Lemma omap_lookup_seq {A} (l : list A) :
  omap (fun i => l !! i) (seq 0 (length l)) = l.
Proof. exact (omap_lookup_seq_app l []). Qed.

(** The futures [as_completed] hands over in the order [order]. *)
Lemma handed_over {A B} (f : A -> B) (l : list A) (order : list nat) :
  omap (fun i => (f <$> l) !! i) order = f <$> omap (fun i => l !! i) order.
Proof.
  induction order as [|i order IH]; [done|].
  simpl. rewrite list_lookup_fmap.
  destruct (l !! i); simpl; [f_equal|]; exact IH.
Qed.

Lemma handed_over_all {A} (l : list A) (order : list nat) :
  order ≡ₚ seq 0 (length l) -> omap (fun i => l !! i) order ≡ₚ l.
Proof. intros ->. by rewrite omap_lookup_seq. Qed.

(** C2.  A batch of [T] sources of which [k] are unreadable, every readable
    one being processable and writable, that runs to its natural end (the
    stop flag is never seen set and the callbacks return) finishes with
    success count plus failure count equal to [T], failure count equal to
    [k], and a failure list that is a permutation of the unreadable
    sources; the completion callback receives these values.  This holds on
    a pool of any size, for every interleaving [sched] of the workers and
    every order [order] in which their futures are handed over. *)
Theorem batch_counts_add_up (cb : callbacks) (oc : outcomes) (max_workers : nat)
    (fs : directory) (sched order : list nat) (stop : nat -> bool) :
  order ≡ₚ seq 0 (length (image_paths p)) ->
  (forall k, stop k = false) ->
  returns oc ->
  processed_count p = 0 -> success_count p = 0 -> failed_paths p = [] ->
  Forall (processable w cv p) (image_paths p) ->
  Forall (writable w cv p) (image_paths p) ->
  let '(p', _, events) :=
    _batch_process_thread w cv p cb oc max_workers fs sched order stop in
  let T := Z.of_nat (length (image_paths p)) in
  let k := Z.of_nat (length (filter (unreadable w) (image_paths p))) in
  success_count p' + failed (get_results p') = T /\
  failed (get_results p') = k /\
  failed_paths p' ≡ₚ filter (unreadable w) (image_paths p) /\
  processed_count p' = T /\
  is_processing p' = false /\
  (complete_callback cb = true ->
   last events = Some (Complete (T - k) T (failed_paths p'))).
Proof.
  intros Hperm Hstop [Hprog Hcomp] Hp0 Hs0 Hf0 Hproc Hwr.
  unfold _batch_process_thread.
  pose proof (run_workers_flags max_workers sched fs Hproc Hwr) as Hrun.
  destruct (run_workers _ _ _ _ _ _ _) as [results fs']. simpl in Hrun. subst results.
  rewrite handed_over.
  set (completed := omap (fun i => image_paths p !! i) order).
  assert (completed ≡ₚ image_paths p) as Hcompleted
    by (by apply handed_over_all).
  destruct (collect _ _ _ _ _ _ _) as [[p1 evs] raised] eqn:Ecol.
  apply (collect_counts cb oc _ stop completed Hstop Hprog) in Ecol
    as (Hs & Hf & Hc & Hr & Ht & Hi & ->).
  rewrite Hs0 in Hs. rewrite Hf0 in Hf. rewrite Hp0 in Hc. simpl in Hf.
  pose proof (filter_split_length completed) as Hsplit.
  assert (length completed = length (image_paths p)) as Hlen
    by (by rewrite Hcompleted).
  assert (filter (unreadable w) completed
          ≡ₚ filter (unreadable w) (image_paths p)) as Hfp
    by (by rewrite Hcompleted).
  assert (length (filter (unreadable w) completed)
          = length (filter (unreadable w) (image_paths p))) as Hk
    by (by rewrite Hfp).
  rewrite Hcomp.
  assert ((if complete_callback cb then None else None) = @None string) as ->
    by (by destruct (complete_callback cb)).
  simpl. rewrite Hf, Hs, Hc, Hk.
  repeat split; try done; try lia.
  intros ->. simpl. rewrite last_snoc. do 2 f_equal. lia.
Qed.

End Counters.

Lemma batch_counts_add_up_witness :
  let '(p', _, events) :=
    Batch._batch_process_thread Sample.files Sample.cv Sample.processor
      {| Batch.progress_callback := true; Batch.complete_callback := true;
         Batch.error_callback := true |}
      {| Batch.progress_raises := fun _ => None; Batch.complete_raises := None |}
      2 ∅ [0; 1; 1; 0; 0]%nat [1; 0]%nat (fun _ => false) in
  let T := Z.of_nat (length (Batch.image_paths Sample.processor)) in
  let k := Z.of_nat (length (filter (Notions.unreadable Sample.files)
                               (Batch.image_paths Sample.processor))) in
  Batch.success_count p' + Batch.failed (Batch.get_results p') = T /\
  Batch.failed (Batch.get_results p') = k /\
  Batch.failed_paths p' ≡ₚ
    filter (Notions.unreadable Sample.files) (Batch.image_paths Sample.processor) /\
  Batch.processed_count p' = T /\
  Batch.is_processing p' = false /\
  (true = true ->
   last events = Some (Batch.Complete (T - k) T (Batch.failed_paths p'))).
Proof.
  apply (batch_counts_add_up Sample.files Sample.cv Sample.processor
           {| Batch.progress_callback := true; Batch.complete_callback := true;
              Batch.error_callback := true |}
           {| Batch.progress_raises := fun _ => None;
              Batch.complete_raises := None |}
           2 ∅ [0; 1; 1; 0; 0]%nat [1; 0]%nat (fun _ => false)).
  - simpl. apply Permutation_swap.
  - intros k. reflexivity.
  - split; [intros k|]; reflexivity.
  - reflexivity.
  - reflexivity.
  - reflexivity.
  - simpl. repeat constructor.
    + intros _. vm_compute. eexists. reflexivity.
    + intros [x Hx]. vm_compute in Hx. discriminate Hx.
  - simpl. repeat constructor; intros result out _; left; reflexivity.
Defined.

(** ** The template mask during a batch *)

Section Template.
Import Raster Cv Shared Notions.
Variables (w : Batch.files) (cv : opencv) (p : Batch.processor).

Lemma ui_step_keeps_template (template_mask : option ref) (σ σ' : world)
    (op : ui_op) :
  allocated template_mask σ -> paints op = false ->
  ui_step cv σ op = Some σ' ->
  allocated template_mask σ' /\
  (template_mask ≫= fun r => heap σ' !! r) = (template_mask ≫= fun r => heap σ !! r).
Proof.
  intros Hal Hp H. unfold ui_step in H.
  destruct (apply cv (live σ) op) as [s'|]; [|done]. simpl in H.
  injection H as <-.
  destruct (assigns_new_array (live σ) op); simpl.
  - split.
    + intros r Hr. specialize (Hal r Hr). simpl. lia.
    + destruct template_mask as [r|]; [|done]. simpl.
      destruct (Remover.mask s'); [|done].
      apply lookup_insert_ne. specialize (Hal r eq_refl). lia.
  - rewrite Hp. done.
Qed.

Lemma worker_result_heap (σ σ' : world) (template_mask : option ref) path :
  (template_mask ≫= fun r => heap σ' !! r) = (template_mask ≫= fun r => heap σ !! r) ->
  worker_result w cv p σ' template_mask path = worker_result w cv p σ template_mask path.
Proof. unfold worker_result. by intros ->. Qed.

Lemma run_same_heap (template_mask : option ref) (acts : list action) :
  Forall (fun a => is_worker a) acts ->
  forall σ σ',
    (template_mask ≫= fun r => heap σ' !! r) = (template_mask ≫= fun r => heap σ !! r) ->
    run w cv p template_mask σ' acts = run w cv p template_mask σ acts.
Proof.
  induction 1 as [|a acts Ha Hs IH]; intros σ σ' Hh; [done|].
  destruct a as [op|path]; [done|]. simpl.
  by rewrite (IH σ σ' Hh), (worker_result_heap σ σ' _ _ Hh).
Qed.

Lemma run_without_painting (template_mask : option ref) (acts : list action) :
  Forall (fun a => match a with Ui op => paints op = false | Worker _ => True end)
    acts ->
  forall σ results,
    allocated template_mask σ ->
    run w cv p template_mask σ acts = Some results ->
    run w cv p template_mask σ (workers_only acts) = Some results.
Proof.
  induction 1 as [|a acts Ha Hs IH]; intros σ results Hal H; [done|].
  destruct a as [op|path]; simpl in H.
  - unfold workers_only. rewrite filter_cons_False by (by intros []).
    destruct (ui_step cv σ op) as [σ'|] eqn:E; [|done]. simpl in H.
    destruct (ui_step_keeps_template _ _ _ _ Hal Ha E) as [Hal' Hh].
    rewrite <- (IH σ' results Hal' H).
    symmetry. apply run_same_heap; [|done].
    apply Forall_forall. intros a Ha'. by apply list_elem_of_filter in Ha' as [? _].
  - unfold workers_only. rewrite filter_cons_True by done. simpl.
    destruct (run w cv p template_mask σ acts) as [rs|] eqn:E; [|done].
    simpl in H. injection H as <-.
    fold (workers_only acts). by rewrite (IH σ rs Hal E).
Qed.

(** C9, as the code has it.  The batch thread takes no copy: it holds the
    array the template remover's [mask] attribute refers to, and every worker
    reads that array when it runs.  Editing calls that assign the attribute
    a new array or leave the mask alone ([clear_mask], [undo_mask],
    [redo_mask], [_save_mask_to_history]) do not change any per-item
    result. *)
Theorem batch_reads_live_template (s : Remover.remover) (acts : list action)
    (results : list (string * option img)) :
  Forall (fun a => match a with Ui op => paints op = false | Worker _ => True end)
    acts ->
  run w cv p (live_ref (at_start s)) (at_start s) acts = Some results ->
  run w cv p (live_ref (at_start s)) (at_start s) (workers_only acts) = Some results /\
  forall path,
    worker_result w cv p (at_start s) (live_ref (at_start s)) path
    = Batch.inpainted w cv p path (Remover.mask s).
Proof.
  intros Hacts Hrun. split.
  - apply run_without_painting; try done.
    intros r Hr. simpl in *. destruct (Remover.mask s); simplify_eq. lia.
  - intros path. unfold worker_result, at_start. simpl.
    destruct (Remover.mask s); simpl; [|done].
    by rewrite lookup_singleton_eq.
Qed.

End Template.

Lemma batch_reads_live_template_witness :
  Shared.run Sample.pair_files Sample.cv Sample.pair_processor
    (Shared.live_ref (Shared.at_start Sample.half)) (Shared.at_start Sample.half)
    (Shared.workers_only
       [Shared.Ui Shared.ClearMask; Shared.Worker "a.png"; Shared.Ui Shared.Undo])
  = Some [("a.png", Some [[(0, 0, 0); (40, 50, 60)]])] /\
  forall path,
    Shared.worker_result Sample.pair_files Sample.cv Sample.pair_processor
      (Shared.at_start Sample.half) (Shared.live_ref (Shared.at_start Sample.half)) path
    = Batch.inpainted Sample.pair_files Sample.cv Sample.pair_processor path
        (Remover.mask Sample.half).
Proof.
  apply (batch_reads_live_template Sample.pair_files Sample.cv Sample.pair_processor
           Sample.half
           [Shared.Ui Shared.ClearMask; Shared.Worker "a.png"; Shared.Ui Shared.Undo]).
  - repeat constructor.
  - vm_compute. reflexivity.
Defined.

(** C9, as the claim has it, fails: two runs of the same batch that differ
    only in one stroke painted on the live template after the batch thread
    has taken the mask give different results for the same source. *)
Lemma template_alias_counterexample :
  let σ := Shared.at_start Sample.half in
  Shared.run Sample.pair_files Sample.cv Sample.pair_processor (Shared.live_ref σ) σ
    [Shared.Worker "a.png"]
  = Some [("a.png", Some [[(0, 0, 0); (40, 50, 60)]])] /\
  Shared.run Sample.pair_files Sample.cv Sample.pair_processor (Shared.live_ref σ) σ
    [Shared.Ui (Shared.StartDraw (1, 0) 2); Shared.Worker "a.png"]
  = Some [("a.png", Some [[(0, 0, 0); (0, 0, 0)]])].
Proof. split; vm_compute; reflexivity. Qed.

(** * Further properties of the batch processor *)

Section Naming.
Import Raster Cv Batch.

Lemma free_name_found (fs : directory) (name ext : string) (fuel : nat) :
  forall counter out,
    free_name fs name ext fuel counter = Some out ->
    exists n, out = (name, Some n, ext) /\ counter <= n /\ (out ∉ fs) /\
              forall j, counter <= j < n -> (name, Some j, ext) ∈ fs.
Proof.
  induction fuel as [|fuel IH]; intros counter out H; [done|].
  simpl in H. destruct (decide ((name, Some counter, ext) ∈ fs)) as [Hin|Hout].
  - apply IH in H as (n & -> & Hle & Hfree & Hbelow).
    exists n. repeat split; [lia|done|].
    intros j Hj. destruct (decide (j = counter)) as [->|]; [done|].
    apply Hbelow. lia.
  - injection H as <-. exists counter. repeat split; [lia|done|].
    intros j Hj. lia.
Qed.

Lemma output_path_fresh (fs : directory) (name ext : string) :
  exists counter,
    output_path fs name ext = Some (name, counter, ext) /\
    ((name, counter, ext) ∉ fs).
Proof.
  destruct (output_path_total fs name ext) as [out Hout].
  rewrite Hout. unfold output_path in Hout.
  destruct (decide ((name, None, ext) ∈ fs)) as [Hin|Hfree].
  - apply free_name_found in Hout as (n & -> & _ & Hfree & _). by exists (Some n).
  - injection Hout as <-. by exists None.
Qed.

Lemma worker_grows (w : files) (cv : opencv) (p : processor)
    (fs : directory) (image_path : string) (template_mask : option mask) :
  let '(ok, fs') := _process_single_image w cv p fs image_path template_mask in
  if ok then fs ⊆ fs' /\ size fs' = S (size fs) else fs' = fs.
Proof.
  unfold _process_single_image.
  destruct (inpainted w cv p image_path template_mask) as [result|]; [|done].
  destruct (splitext w image_path) as [name ext]. simpl.
  destruct (output_path_fresh fs name ext) as (counter & -> & Hfree).
  assert (fs ⊆ {[(name, counter, ext)]} ∪ fs /\
          size ({[(name, counter, ext)]} ∪ fs) = S (size fs)) as Hgrow.
  { split; [apply union_subseteq_r|].
    rewrite size_union by (apply disjoint_singleton_l; exact Hfree).
    by rewrite size_singleton. }
  destruct (imwrite w (name, counter, ext) result) as [[|]|]; [done| |done].
  by destruct (pil_save w (name, counter, ext) result).
Qed.

(** X1.  The collision loop of [_process_single_image] always ends, and the path
    it ends on is not in the directory.  It is the plain name when that is
    free; otherwise the plain name is taken, and so is every numbered name
    below the counter that is chosen, which starts at 1. *)
Theorem output_path_first_free (fs : directory) (name ext : string) :
  exists out,
    output_path fs name ext = Some out /\ (out ∉ fs) /\
    match out with
    | (name', None, ext') => name' = name /\ ext' = ext
    | (name', Some n, ext') =>
        name' = name /\ ext' = ext /\ 1 <= n /\ (name, None, ext) ∈ fs /\
        forall j, 1 <= j < n -> (name, Some j, ext) ∈ fs
    end.
Proof.
  destruct (output_path_total fs name ext) as [out Hout].
  exists out. split; [done|]. unfold output_path in Hout.
  destruct (decide ((name, None, ext) ∈ fs)) as [Hin|Hfree].
  - apply free_name_found in Hout as (n & -> & Hle & Hfree & Hbelow). done.
  - injection Hout as <-. done.
Qed.

(** X2.  A worker that returns [False] leaves the output directory as it was; a
    worker that returns [True] adds exactly one file, under a name that was
    not there before and that carries the source's base name and
    extension. *)
Theorem worker_adds_one_new_file (w : files) (cv : opencv) (p : processor)
    (fs : directory) (image_path : string) (template_mask : option mask) :
  let '(ok, fs') := _process_single_image w cv p fs image_path template_mask in
  if ok
  then exists counter,
         let out := ((splitext w image_path).1, counter, (splitext w image_path).2) in
         (out ∉ fs) /\ fs' = {[ out ]} ∪ fs /\ size fs' = S (size fs)
  else fs' = fs.
Proof.
  unfold _process_single_image.
  destruct (inpainted w cv p image_path template_mask) as [result|]; [|done].
  destruct (splitext w image_path) as [name ext]. simpl.
  destruct (output_path_fresh fs name ext) as (counter & -> & Hfree).
  assert (size ({[(name, counter, ext)]} ∪ fs) = S (size fs)) as Hsize.
  { rewrite size_union by set_solver. by rewrite size_singleton. }
  destruct (imwrite w (name, counter, ext) result) as [[|]|]; [| |done].
  - by exists counter.
  - destruct (pil_save w (name, counter, ext) result); [by exists counter|done].
Qed.

End Naming.

Section Pool.
Import Raster Cv Batch Terms.
Variables (w : files) (cv : opencv) (p : processor) (template_mask : option mask).

Lemma save_effect (fs : directory) (out : out_path) (result : img) :
  let '(flag, fs') := save w fs out result in
  fs ⊆ fs' /\ fs' ⊆ {[ out ]} ∪ fs /\
  (size fs' <= size fs + (if flag then 1 else 0))%nat /\
  (out ∉ fs -> size fs' = (size fs + (if flag then 1 else 0))%nat).
Proof.
  assert (fs ⊆ {[out]} ∪ fs /\ {[out]} ∪ fs ⊆ {[out]} ∪ fs /\
          (size ({[out]} ∪ fs) <= size fs + 1)%nat /\
          (out ∉ fs -> size ({[out]} ∪ fs) = (size fs + 1)%nat)) as Hadd.
  { split; [apply union_subseteq_r|]. split; [done|]. split.
    - rewrite size_union_alt, size_singleton.
      assert (size (fs ∖ {[out]}) <= size fs)%nat
        by (apply subseteq_size, subseteq_difference_l; done).
      lia.
    - intros Hfree. rewrite size_union by (by apply disjoint_singleton_l).
      rewrite size_singleton. lia. }
  assert (fs ⊆ fs /\ fs ⊆ {[out]} ∪ fs /\ (size fs <= size fs + 0)%nat /\
          (out ∉ fs -> size fs = (size fs + 0)%nat)) as Hsame.
  { split; [done|]. split; [apply union_subseteq_r|]. split; lia. }
  unfold save. destruct (imwrite w out result) as [[|]|]; [done| |done].
  by destruct (pil_save w out result).
Qed.

Lemma worker_effect (fs : directory) (image_path : string) :
  let '(flag, fs') := _process_single_image w cv p fs image_path template_mask in
  exists out,
    output_of w image_path out /\ fs ⊆ fs' /\ fs' ⊆ {[ out ]} ∪ fs /\
    size fs' = (size fs + (if flag then 1 else 0))%nat.
Proof.
  unfold _process_single_image.
  assert (exists out, output_of w image_path out /\ fs ⊆ fs /\ fs ⊆ {[out]} ∪ fs /\
                      size fs = (size fs + 0)%nat) as Hsame.
  { exists ((splitext w image_path).1, None, (splitext w image_path).2).
    split; [by eexists|]. split; [done|]. split; [apply union_subseteq_r|lia]. }
  destruct (inpainted w cv p image_path template_mask) as [result|]; [|done].
  destruct (splitext w image_path) as [name ext] eqn:Esplit.
  destruct (output_path_fresh fs name ext) as (counter & -> & Hfree).
  pose proof (save_effect fs (name, counter, ext) result) as Hsave.
  unfold save in Hsave.
  assert (output_of w image_path (name, counter, ext)) as Hout
    by (exists counter; by rewrite Esplit).
  destruct (imwrite w (name, counter, ext) result) as [[|]|].
  - destruct Hsave as (H1 & H2 & _ & H4). eexists. repeat split; eauto.
  - destruct (pil_save w (name, counter, ext) result).
    + destruct Hsave as (H1 & H2 & _ & H4). eexists. repeat split; eauto.
    + destruct Hsave as (H1 & H2 & _ & H4). eexists. repeat split; eauto.
  - destruct Hsave as (H1 & H2 & _ & H4). eexists. repeat split; eauto.
Qed.

Lemma filter_length_insert {A} (f : A -> bool) (l : list A) (i : nat) (x y : A) :
  l !! i = Some x ->
  (length (filter (fun a => f a) (<[i:=y]> l)) + (if f x then 1 else 0)
   = length (filter (fun a => f a) l) + (if f y then 1 else 0))%nat.
Proof.
  intros Hx. apply lookup_lt_Some in Hx as Hlt.
  rewrite insert_take_drop by done.
  rewrite <- (take_drop_middle l i x Hx) at 3.
  rewrite !filter_app, !length_app.
  assert (forall (a : A) (k : list A),
            length (filter (fun a => f a) (a :: k))
            = ((if f a then 1 else 0) + length (filter (fun a => f a) k))%nat) as Hcons.
  { intros a k. destruct (f a) eqn:E.
    - rewrite filter_cons_True by (by rewrite E). done.
    - rewrite filter_cons_False by (rewrite E; by intros []). done. }
  rewrite !Hcons. lia.
Qed.

Lemma written_cons (e : string * worker) (ws : pool) :
  written (e :: ws) = ((if returned_true e then 1 else 0) + written ws)%nat.
Proof.
  unfold written. destruct (returned_true e) eqn:E.
  - rewrite filter_cons_True by (by rewrite E). done.
  - rewrite filter_cons_False by (rewrite E; by intros []). done.
Qed.

Lemma successes_cons (image_path : string) (flag : bool)
    (results : list (string * bool)) :
  successes ((image_path, flag) :: results)
  = ((if flag then 1 else 0) + successes results)%nat.
Proof.
  unfold successes. destruct flag.
  - rewrite filter_cons_True by done. done.
  - rewrite filter_cons_False by done. done.
Qed.

(** The path a worker has chosen is one of its source. *)
Local Abbreviation named_for :=
  (fun e : string * worker =>
     match e.2 with Named _ out => output_of w e.1 out | _ => True end).

(** The files added to [fs0] come from the sources, and there are no more
    of them than workers that have returned [True]. *)
Local Abbreviation within :=
  (fun (fs0 : directory) (st : pool * directory) =>
     fs0 ⊆ st.2 /\ (size st.2 <= size fs0 + written st.1)%nat /\
     (forall out, out ∈ st.2 -> out ∉ fs0 ->
        exists image_path, image_path ∈ st.1.*1 /\ output_of w image_path out) /\
     Forall named_for st.1).

Lemma step_within (max_workers : nat) (fs0 : directory) (st : pool * directory)
    (i : nat) :
  within fs0 st -> within fs0 (step w cv p template_mask max_workers st i).
Proof.
  intros (Hsub & Hsize & Hfrom & Hnamed).
  destruct st as [ws fs]. simpl in *. unfold step.
  destruct (ws !! i) as [[image_path x]|] eqn:E; [|done].
  assert (forall y, returned_true (image_path, y) = false ->
            returned_true (image_path, x) = false ->
            written (<[i:=(image_path, y)]> ws) = written ws) as Hsame.
  { intros y Hy Hx. unfold written.
    pose proof (filter_length_insert returned_true ws i _ (image_path, y) E) as H.
    rewrite Hx, Hy in H. simpl in H. rewrite !Nat.add_0_r in H. exact H. }
  assert (forall y, returned_true (image_path, y) = false ->
            returned_true (image_path, x) = false ->
            named_for (image_path, y) ->
            within fs0 (<[i:=(image_path, y)]> ws, fs)) as Hstay.
  { intros y Hy Hx Hn. simpl. rewrite (insert_same_path _ _ _ _ _ E).
    split; [done|]. split; [by rewrite Hsame|]. split; [done|].
    by apply Forall_insert_1. }
  destruct x as [| |result out|flag].
  - destruct (_ && _); [|done]. by apply Hstay.
  - destruct (inpainted _ _ _ _ _) as [result|]; [|by apply Hstay].
    destruct (splitext w image_path) as [name ext] eqn:Esplit.
    destruct (output_path_fresh fs name ext) as (counter & -> & Hfree).
    apply Hstay; [done|done|]. simpl. exists counter. by rewrite Esplit.
  - pose proof (Forall_lookup_1 _ _ _ _ Hnamed E) as Hout. simpl in Hout.
    pose proof (save_effect fs out result) as Hsave.
    destruct (save w fs out result) as [flag fs']. simpl.
    rewrite (insert_same_path _ _ _ _ _ E).
    destruct Hsave as (H1 & H2 & H3 & _).
    split; [by etrans|]. split; [|split].
    + assert (written (<[i:=(image_path, Finished flag)]> ws)
              = written ws + (if flag then 1 else 0))%nat as Hw.
      { pose proof (filter_length_insert returned_true ws i _
                      (image_path, Finished flag) E) as H.
        change (returned_true (image_path, Named result out)) with false in H.
        rewrite Nat.add_0_r in H. unfold written. rewrite H. by destruct flag. }
      rewrite Hw. destruct flag; lia.
    + intros out' Hin Hnew. apply H2 in Hin.
      apply elem_of_union in Hin as [Hin|Hin]; [|by apply Hfrom].
      apply elem_of_singleton in Hin as ->.
      exists image_path. split; [|done].
      apply list_elem_of_fmap. exists (image_path, Named result out).
      split; [done|]. by eapply list_elem_of_lookup_2.
    + by apply Forall_insert_1.
  - done.
Qed.

Lemma steps_within (max_workers : nat) (fs0 : directory) (sched : list nat) :
  forall st,
    within fs0 st ->
    within fs0 (foldl (step w cv p template_mask max_workers) st sched).
Proof.
  induction sched as [|i sched IH]; intros st Hst; [done|].
  simpl. apply IH. by apply step_within.
Qed.

Lemma drain_within (ws : pool) : forall fs,
  Forall named_for ws ->
  let '(results, fs') := drain w cv p template_mask ws fs in
  fs ⊆ fs' /\
  (size fs' + written ws <= size fs + successes results)%nat /\
  (forall out, out ∈ fs' -> out ∉ fs ->
     exists image_path, image_path ∈ ws.*1 /\ output_of w image_path out).
Proof.
  induction ws as [|[image_path x] ws IH]; intros fs Hnamed.
  { simpl. split; [done|]. split; [unfold written, successes; simpl; lia|done]. }
  apply Forall_cons in Hnamed as [Hx Hnamed]. simpl in Hx. simpl.
  assert (let '(flag, fs1) :=
            match x with
            | Finished flag => (flag, fs)
            | Named result out => save w fs out result
            | _ => _process_single_image w cv p fs image_path template_mask
            end in
          fs ⊆ fs1 /\
          (size fs1 + (if returned_true (image_path, x) then 1 else 0)
           <= size fs + (if flag then 1 else 0))%nat /\
          (forall out, out ∈ fs1 -> out ∉ fs -> output_of w image_path out))
    as Hhead.
  { destruct x as [| |result out|flag].
    - pose proof (worker_effect fs image_path) as H.
      destruct (_process_single_image _ _ _ _ _ _) as [flag fs1].
      destruct H as (out & Hout & H1 & H2 & H3).
      split; [done|]. split; [simpl; lia|].
      intros out' Hin Hnew. apply H2 in Hin.
      apply elem_of_union in Hin as [Hin|Hin]; [|done].
      by apply elem_of_singleton in Hin as ->.
    - pose proof (worker_effect fs image_path) as H.
      destruct (_process_single_image _ _ _ _ _ _) as [flag fs1].
      destruct H as (out & Hout & H1 & H2 & H3).
      split; [done|]. split; [simpl; lia|].
      intros out' Hin Hnew. apply H2 in Hin.
      apply elem_of_union in Hin as [Hin|Hin]; [|done].
      by apply elem_of_singleton in Hin as ->.
    - pose proof (save_effect fs out result) as H.
      destruct (save w fs out result) as [flag fs1].
      destruct H as (H1 & H2 & H3 & _).
      split; [done|]. split; [simpl; lia|].
      intros out' Hin Hnew. apply H2 in Hin.
      apply elem_of_union in Hin as [Hin|Hin]; [|done].
      by apply elem_of_singleton in Hin as ->.
    - split; [done|]. split; [destruct flag; simpl; lia|done]. }
  destruct (match x with Finished _ => _ | _ => _ end) as [flag fs1].
  destruct Hhead as (H1 & H2 & H3).
  specialize (IH fs1 Hnamed).
  destruct (drain _ _ _ _ _ _) as [results fs2].
  destruct IH as (I1 & I2 & I3).
  split; [by etrans|]. split.
  - rewrite written_cons, successes_cons. lia.
  - intros out Hin Hnew.
    destruct (decide (out ∈ fs1)) as [Hin1|Hnew1].
    + exists image_path. split; [by left|]. by apply H3.
    + destruct (I3 out Hin Hnew1) as (path & Hpath & Hout).
      exists path. split; [by right|done].
Qed.

(** X3.  On a pool of any size and for every interleaving of the workers, a
    batch keeps every file the output directory had, adds no more files
    than workers have returned [True], and each file it adds carries the
    base name and the extension of one of its sources. *)
Theorem run_workers_one_file_each (max_workers : nat) (sched : list nat)
    (fs : directory) :
  let '(results, fs') := run_workers w cv p fs template_mask max_workers sched in
  fs ⊆ fs' /\
  (size fs' <= size fs + successes results)%nat /\
  forall out, out ∈ fs' -> out ∉ fs ->
    exists image_path, image_path ∈ image_paths p /\ output_of w image_path out.
Proof.
  unfold run_workers.
  set (st := ((fun image_path => (image_path, Queued)) <$> image_paths p, fs)).
  assert (within fs st) as Hst.
  { subst st. simpl. split; [done|]. split; [lia|]. split; [done|].
    apply Forall_fmap, Forall_true. done. }
  pose proof (steps_within max_workers fs sched st Hst) as (Hsub & Hsize & Hfrom & Hnamed).
  pose proof (steps_paths w cv p template_mask max_workers sched st) as Hpaths.
  destruct (foldl (step _ _ _ _ _) st sched) as [ws fs1]. simpl in *.
  rewrite submitted_paths in Hpaths.
  pose proof (drain_within ws fs1 Hnamed) as Hdrain.
  destruct (drain _ _ _ _ _ _) as [results fs2].
  destruct Hdrain as (D1 & D2 & D3).
  split; [by etrans|]. split; [lia|].
  intros out Hin Hnew. rewrite <- Hpaths.
  destruct (decide (out ∈ fs1)) as [Hin1|Hnew1]; [by apply Hfrom|by apply D3].
Qed.

(** X19.  On a pool of at least two threads nothing stands between the
    existence test of one worker and the write of another.  When two
    sources share base name and extension and both workers pass the test
    before either writes, both choose the same free path and both return
    [True], and the directory has one new file for the two results: the
    second write replaces the first. *)
Theorem same_name_race (a b : string) (ra rb : img) (name ext : string)
    (max_workers : nat) (fs : directory) :
  image_paths p = [a; b] ->
  splitext w a = (name, ext) -> splitext w b = (name, ext) ->
  inpainted w cv p a template_mask = Some ra ->
  inpainted w cv p b template_mask = Some rb ->
  (name, None, ext) ∉ fs ->
  imwrite w (name, None, ext) ra = Some true ->
  imwrite w (name, None, ext) rb = Some true ->
  (2 <= max_workers)%nat ->
  let '(results, fs') :=
    run_workers w cv p fs template_mask max_workers [0; 1; 0; 1; 0; 1]%nat in
  results = [(a, true); (b, true)] /\
  fs' = {[ (name, None, ext) ]} ∪ fs /\
  size fs' = S (size fs) /\ successes results = 2%nat.
Proof.
  intros Hpaths Ha Hb Hra Hrb Hfree Hwa Hwb Hmax.
  destruct max_workers as [|[|k]]; [lia|lia|].
  assert (output_path fs name ext = Some (name, None, ext)) as Hout.
  { unfold output_path. by rewrite decide_False. }
  unfold run_workers. rewrite Hpaths. cbn -[output_path inpainted save].
  rewrite Hra, Ha. cbn -[output_path inpainted save]. rewrite Hout.
  cbn -[output_path inpainted save].
  rewrite Hrb, Hb. cbn -[output_path inpainted save]. rewrite Hout.
  cbn -[output_path inpainted save].
  unfold save at 1. rewrite Hwa. cbn -[output_path inpainted save].
  unfold save. rewrite Hwb. cbn -[output_path inpainted].
  split; [done|].
  assert ({[(name, None, ext)]} ∪ ({[(name, None, ext)]} ∪ fs)
          = ({[(name, None, ext)]} ∪ fs : directory)) as Hsame
    by (apply set_eq; intros x; rewrite !elem_of_union; tauto).
  split; [exact Hsame|]. split; [|reflexivity].
  transitivity (size ({[(name, None, ext)]} ∪ fs : directory));
    [by f_equal|].
  etrans; [apply size_union; by apply disjoint_singleton_l|].
  by rewrite size_singleton.
Qed.

Lemma written_insert (ws : pool) (i : nat) (e e' : string * worker) :
  ws !! i = Some e ->
  (written (<[i:=e']> ws) + (if returned_true e then 1 else 0)
   = written ws + (if returned_true e' then 1 else 0))%nat.
Proof. intros E. unfold written. by apply filter_length_insert. Qed.

Lemma written_submitted (l : list string) :
  written ((fun image_path => (image_path, Queued)) <$> l) = 0%nat.
Proof.
  induction l as [|x l IH]; [done|].
  simpl. rewrite written_cons. simpl. exact IH.
Qed.

(** A path chosen for one source is none that the worker of a source with
    another base name or extension writes. *)
Lemma output_of_apart (a b : string) (out out' : out_path) (fs fs1 : directory) :
  splitext w a <> splitext w b ->
  output_of w a out -> output_of w b out' ->
  fs1 ⊆ {[ out ]} ∪ fs -> out' ∉ fs -> out' ∉ fs1.
Proof.
  intros Hab [c ->] [c' ->] Hsub Hfree Hin.
  apply Hsub, elem_of_union in Hin as [Hin|Hin]; [|done].
  apply elem_of_singleton in Hin. apply Hab.
  destruct (splitext w a), (splitext w b). simpl in Hin. congruence.
Qed.

(** The path a worker has chosen is one of its source and still free. *)
Local Abbreviation free_for :=
  (fun (fs : directory) (e : string * worker) =>
     match e.2 with
     | Named _ out => output_of w e.1 out /\ out ∉ fs
     | _ => True
     end).

(** Every worker that has returned [True] has added a file of its own. *)
Local Abbreviation apart :=
  (fun (fs0 : directory) (st : pool * directory) =>
     size st.2 = (size fs0 + written st.1)%nat /\ Forall (free_for st.2) st.1).

Lemma step_apart (max_workers : nat) (fs0 : directory) (st : pool * directory)
    (i : nat) :
  NoDup (splitext w <$> st.1.*1) ->
  apart fs0 st -> apart fs0 (step w cv p template_mask max_workers st i).
Proof.
  intros Hdup (Hsize & Hfree).
  destruct st as [ws fs]. simpl in *. unfold step.
  destruct (ws !! i) as [[image_path x]|] eqn:E; [|done].
  assert (forall y, returned_true (image_path, y) = false ->
            returned_true (image_path, x) = false ->
            free_for fs (image_path, y) ->
            apart fs0 (<[i:=(image_path, y)]> ws, fs)) as Hstay.
  { intros y Hy Hx Hn. simpl. split; [|by apply Forall_insert_1].
    pose proof (written_insert ws i _ (image_path, y) E) as Hw.
    rewrite Hx, Hy in Hw. rewrite !Nat.add_0_r in Hw. by rewrite Hw. }
  destruct x as [| |result out|flag].
  - destruct (_ && _); [|done]. by apply Hstay.
  - destruct (inpainted _ _ _ _ _) as [result|]; [|by apply Hstay].
    destruct (splitext w image_path) as [name ext] eqn:Esplit.
    destruct (output_path_fresh fs name ext) as (counter & -> & Hnew).
    apply Hstay; [done|done|]. simpl. split; [|done].
    exists counter. by rewrite Esplit.
  - pose proof (Forall_lookup_1 _ _ _ _ Hfree E) as [Hout Hnew].
    simpl in Hout, Hnew.
    pose proof (save_effect fs out result) as Hsave.
    destruct (save w fs out result) as [flag fs']. simpl.
    destruct Hsave as (H1 & H2 & _ & H4). specialize (H4 Hnew).
    split.
    + pose proof (written_insert ws i _ (image_path, Finished flag) E) as Hw.
      change (returned_true (image_path, Named result out)) with false in Hw.
      rewrite Nat.add_0_r in Hw. rewrite Hw, H4, Hsize.
      destruct flag; simpl; lia.
    + apply Forall_lookup_2. intros k e Hk.
      apply list_lookup_insert_Some in Hk as [(_ & <- & _)|[Hne Hk]]; [done|].
      pose proof (Forall_lookup_1 _ _ _ _ Hfree Hk) as He.
      destruct e as [path' [| |r' out'|f']]; simpl in *; try done.
      destruct He as [Ho' Hn']. split; [done|].
      eapply (output_of_apart image_path path');
        [|exact Hout|exact Ho'|exact H2|exact Hn'].
      intros Heq. apply Hne.
      eapply (NoDup_lookup _ i k _ Hdup).
      * by rewrite !list_lookup_fmap, E.
      * rewrite !list_lookup_fmap, Hk. simpl. by rewrite Heq.
  - done.
Qed.

Lemma steps_apart (max_workers : nat) (fs0 : directory) (sched : list nat) :
  forall st,
    NoDup (splitext w <$> st.1.*1) -> apart fs0 st ->
    apart fs0 (foldl (step w cv p template_mask max_workers) st sched).
Proof.
  induction sched as [|i sched IH]; intros st Hdup Hst; [done|].
  simpl. apply IH; [by rewrite step_paths|by apply step_apart].
Qed.

Lemma drain_apart (ws : pool) : forall fs,
  NoDup (splitext w <$> ws.*1) -> Forall (free_for fs) ws ->
  let '(results, fs') := drain w cv p template_mask ws fs in
  (size fs' + written ws = size fs + successes results)%nat.
Proof.
  induction ws as [|[image_path x] ws IH]; intros fs Hdup Hfree.
  { simpl. unfold written, successes. simpl. lia. }
  simpl in Hdup. apply NoDup_cons in Hdup as [Hnotin Hdup].
  apply Forall_cons in Hfree as [Hx Hfree]. simpl in Hx. simpl.
  assert (forall out fs1, output_of w image_path out -> fs1 ⊆ {[out]} ∪ fs ->
            Forall (free_for fs1) ws) as Hkeep.
  { intros out fs1 Hout Hsub. apply Forall_lookup_2. intros k [path' y] Hk.
    pose proof (Forall_lookup_1 _ _ _ _ Hfree Hk) as He.
    destruct y as [| |r' out'|f']; simpl in *; try done.
    destruct He as [Ho' Hn']. split; [done|].
    eapply (output_of_apart image_path path');
      [|exact Hout|exact Ho'|exact Hsub|exact Hn'].
    intros Heq. apply Hnotin. rewrite Heq.
    apply list_elem_of_fmap. exists path'. split; [done|].
    apply list_elem_of_fmap. exists (path', Named r' out'). split; [done|].
    by eapply list_elem_of_lookup_2. }
  assert (let '(flag, fs1) :=
            match x with
            | Finished flag => (flag, fs)
            | Named result out => save w fs out result
            | _ => _process_single_image w cv p fs image_path template_mask
            end in
          (size fs1 + (if returned_true (image_path, x) then 1 else 0)
           = size fs + (if flag then 1 else 0))%nat /\
          Forall (free_for fs1) ws)
    as Hhead.
  { destruct x as [| |result out|flag].
    - pose proof (worker_effect fs image_path) as H.
      destruct (_process_single_image _ _ _ _ _ _) as [flag fs1].
      destruct H as (out & Hout & H1 & H2 & H3).
      split; [simpl; lia|]. by eapply Hkeep.
    - pose proof (worker_effect fs image_path) as H.
      destruct (_process_single_image _ _ _ _ _ _) as [flag fs1].
      destruct H as (out & Hout & H1 & H2 & H3).
      split; [simpl; lia|]. by eapply Hkeep.
    - destruct Hx as [Hout Hnew].
      pose proof (save_effect fs out result) as H.
      destruct (save w fs out result) as [flag fs1].
      destruct H as (H1 & H2 & _ & H4). specialize (H4 Hnew).
      split; [simpl; lia|]. by eapply Hkeep.
    - split; [destruct flag; simpl; lia|done]. }
  destruct (match x with Finished _ => _ | _ => _ end) as [flag fs1].
  destruct Hhead as [H1 H2].
  specialize (IH fs1 Hdup H2).
  destruct (drain _ _ _ _ _ _) as [results fs2].
  rewrite written_cons, successes_cons. lia.
Qed.

(** X20.  When no two sources of a batch share base name and extension, the
    workers cannot collide: on a pool of any size and for every interleaving
    the output directory keeps its files and grows by exactly the number of
    [True] results, so every such result is a file of its own. *)
Theorem distinct_names_one_file_each (max_workers : nat) (sched : list nat)
    (fs : directory) :
  NoDup (splitext w <$> image_paths p) ->
  let '(results, fs') := run_workers w cv p fs template_mask max_workers sched in
  fs ⊆ fs' /\ size fs' = (size fs + successes results)%nat.
Proof.
  intros Hdup. unfold run_workers.
  set (st := ((fun image_path => (image_path, Queued)) <$> image_paths p, fs)).
  assert (NoDup (splitext w <$> st.1.*1)) as Hdup0
    by (subst st; simpl; by rewrite submitted_paths).
  assert (apart fs st) as Hst.
  { subst st. simpl. split; [by rewrite written_submitted, Nat.add_0_r|].
    apply Forall_fmap, Forall_true. done. }
  assert (within fs st) as Hwithin.
  { subst st. simpl. split; [done|]. split; [lia|]. split; [done|].
    apply Forall_fmap, Forall_true. done. }
  pose proof (steps_apart max_workers fs sched st Hdup0 Hst) as [Hsize Hfree].
  pose proof (steps_within max_workers fs sched st Hwithin) as (Hsub & _ & _ & Hnamed).
  pose proof (steps_paths w cv p template_mask max_workers sched st) as Hpaths.
  rewrite <- Hpaths in Hdup0.
  destruct (foldl (step _ _ _ _ _) st sched) as [ws fs1]. simpl in *.
  pose proof (drain_apart ws fs1 Hdup0 Hfree) as Hdrain.
  pose proof (drain_within ws fs1 Hnamed) as Hkeeps.
  destruct (drain _ _ _ _ _ _) as [results fs2].
  destruct Hkeeps as (D1 & _ & _).
  split; [by etrans|lia].
Qed.

End Pool.

Lemma distinct_names_one_file_each_witness :
  let '(results, fs') :=
    Batch.run_workers Sample.files Sample.cv Sample.processor ∅ (Some [[255]]) 2
      [0; 1; 0; 1; 0; 1]%nat in
  (∅ : Batch.directory) ⊆ fs' /\
  size fs' = (size (∅ : Batch.directory) + Terms.successes results)%nat.
Proof.
  apply (distinct_names_one_file_each Sample.files Sample.cv Sample.processor
           (Some [[255]]) 2 [0; 1; 0; 1; 0; 1]%nat ∅).
  apply (bool_decide_unpack _). vm_compute. exact I.
Defined.

Lemma same_name_race_witness :
  let p := BatchSetup.set_batch_images Sample.processor ["a.png"; "a.png"] in
  let '(results, fs') :=
    Batch.run_workers Sample.files Sample.cv p ∅ (Some [[255]]) 2
      [0; 1; 0; 1; 0; 1]%nat in
  results = [("a.png", true); ("a.png", true)] /\
  fs' = {[ ("a.png", None, ".png") ]} ∪ ∅ /\
  size fs' = S (size (∅ : Batch.directory)) /\ Terms.successes results = 2%nat.
Proof.
  intros p.
  apply (same_name_race Sample.files Sample.cv p (Some [[255]]) "a.png" "a.png"
           [[(0, 0, 0)]] [[(0, 0, 0)]] "a.png" ".png" 2 ∅);
    try reflexivity.
  apply not_elem_of_empty.
Defined.

Section Stopping.
Import Raster Cv Batch Terms.

Lemma progress_calls_S (cb : callbacks) (processed total_count : Z) (n : nat) :
  progress_calls cb processed total_count (S n)
  = emit (progress_callback cb) (Progress (processed + 1) total_count)
    ++ progress_calls cb (processed + 1) total_count n.
Proof.
  unfold progress_calls, emit. destruct (progress_callback cb); [|done].
  simpl. f_equal. rewrite <- fmap_S_seq, <- list_fmap_compose.
  apply list_fmap_ext. intros _ j _. simpl. f_equal. lia.
Qed.

Lemma progress_calls_0 (cb : callbacks) (processed total_count : Z) :
  progress_calls cb processed total_count 0 = [].
Proof. unfold progress_calls. by destruct (progress_callback cb). Qed.

(** The rounds of the collecting loop: it counts [n] results, and ends
    because the futures are used up, because the stop flag is seen set, or
    because the progress callback raises at the end of round [n - 1]. *)
Lemma collect_rounds (cb : callbacks) (oc : outcomes) (total_count : Z)
    (stop : nat -> bool) (futures : list (string * bool)) :
  forall k q q' evs raised,
    collect cb oc total_count stop k futures q = (q', evs, raised) ->
    exists n extra,
      (n <= length futures)%nat /\
      (forall j, (j < n)%nat -> stop (k + j)%nat = false) /\
      (forall j, (S j < n)%nat -> progress_fails cb oc (k + j) = None) /\
      match raised with
      | None =>
          (forall j, (j < n)%nat -> progress_fails cb oc (k + j) = None) /\
          ((n < length futures)%nat -> stop (k + n)%nat = true)
      | Some text =>
          exists m, n = S m /\ progress_fails cb oc (k + m) = Some text
      end /\
      processed_count q' = processed_count q + Z.of_nat n /\
      success_count q' + Z.of_nat (length extra) = success_count q + Z.of_nat n /\
      failed_paths q' = failed_paths q ++ extra /\
      extra ⊆ (take n futures).*1 /\
      is_processing q' = is_processing q /\ should_stop q' = should_stop q /\
      image_paths q' = image_paths q /\ output_dir q' = output_dir q /\
      template_watermark_remover q' = template_watermark_remover q /\
      evs = progress_calls cb (processed_count q) total_count n.
Proof.
  induction futures as [|[path result] rest IH]; intros k q q' evs raised H.
  - injection H as <- <- <-. exists 0%nat, []. rewrite app_nil_r. simpl.
    unfold progress_calls. destruct (progress_callback cb);
      repeat split; try done; try lia; intros j Hj; lia.
  - simpl in H. destruct (stop k) eqn:Ek.
    + injection H as <- <- <-. exists 0%nat, []. rewrite app_nil_r, Nat.add_0_r.
      simpl. unfold progress_calls. destruct (progress_callback cb);
        repeat split; try done; try lia; intros j Hj; lia.
    + fold (progress_fails cb oc k) in H.
      set (q2 := set_counters _ (processed_count _ + 1) _ _) in H.
      assert (processed_count q2 = processed_count q + 1) as Hq2p
        by (subst q2; by destruct result).
      assert (success_count q2 + (if result then 0 else 1) = success_count q + 1)
        as Hq2s by (subst q2; destruct result; simpl; lia).
      assert (failed_paths q2 = failed_paths q ++ (if result then [] else [path]))
        as Hq2f by (subst q2; destruct result; simpl; by rewrite ?app_nil_r).
      assert (is_processing q2 = is_processing q /\ should_stop q2 = should_stop q /\
              image_paths q2 = image_paths q /\ output_dir q2 = output_dir q /\
              template_watermark_remover q2 = template_watermark_remover q)
        as (Hq2r & Hq2t & Hq2i & Hq2o & Hq2m) by (subst q2; by destruct result).
      destruct (progress_fails cb oc k) as [text|] eqn:Efail.
      * injection H as <- <- <-.
        exists 1%nat, (if result then [] else [path]).
        rewrite Hq2p, Hq2f, Hq2r, Hq2t, Hq2i, Hq2o, Hq2m.
        split; [simpl; lia|]. split.
        { intros j Hj. assert (j = 0%nat) as -> by lia. by rewrite Nat.add_0_r. }
        split; [intros j Hj; lia|]. split.
        { exists 0%nat. by rewrite Nat.add_0_r. }
        rewrite progress_calls_S. unfold progress_calls at 1. simpl.
        assert ((if progress_callback cb then [] else []) = @nil event) as ->
          by (by destruct (progress_callback cb)).
        rewrite app_nil_r.
        repeat split; try done; try (destruct result; simpl in *; lia).
        all: destruct result; simpl; try done; set_solver.
      * destruct (collect cb oc total_count stop (S k) rest q2)
          as [[q3 evs3] r3] eqn:E in H.
        injection H as <- <- <-.
        apply IH in E as (n & extra & Hn & Hrun & Hquiet & Hend & Hp & Hs & Hf & Hsub
                            & Hr & Ht & Hi & Ho & Htm & Hev).
        exists (S n), ((if result then [] else [path]) ++ extra).
        rewrite Hp, Hf, Hr, Ht, Hi, Ho, Htm, Hq2p, Hq2f, Hq2r, Hq2t, Hq2i, Hq2o, Hq2m.
        split; [simpl; lia|]. split.
        { intros [|j] Hj; [by rewrite Nat.add_0_r|].
          rewrite <- Nat.add_succ_comm. apply Hrun. lia. }
        split.
        { intros [|j] Hj; [by rewrite Nat.add_0_r|].
          rewrite <- Nat.add_succ_comm. apply Hquiet. lia. }
        split.
        { destruct r3 as [text|].
          - destruct Hend as (m & -> & Hm). exists (S m). split; [done|].
            by rewrite <- Nat.add_succ_comm.
          - destruct Hend as [Hnone Hstop]. split.
            + intros [|j] Hj; [by rewrite Nat.add_0_r|].
              rewrite <- Nat.add_succ_comm. apply Hnone. lia.
            + intros Hlt. rewrite <- Nat.add_succ_comm. apply Hstop.
              simpl in Hlt. lia. }
        rewrite progress_calls_S, Hev, Hq2p, <- app_assoc.
        repeat split; try done; try lia;
          try (rewrite length_app; destruct result; simpl in *; lia).
        destruct result; simpl.
        { intros x Hx. right. by apply Hsub. }
        { intros x [->|Hx]%elem_of_cons; [by left|]. right. by apply Hsub. }
        by destruct result.
Qed.

(** X4.  Stop and exception semantics of the thread.  Whatever the workers
    return, however they interleave and whenever the stop flag is seen
    set, the thread counts [n] results, with success count plus failure
    count equal to [n] and every failed path among the first [n] handed
    over, and clears [is_processing].  The callbacks are called in this
    order: the progress callback once per counted result; then, when no
    progress call raised, the completion callback with the final counts,
    once and last unless it raises itself, in which case the error callback
    follows; when the progress call of the last counted round raised, the
    loop ends there, the completion callback is not called and the error
    callback is.  Without an exception the loop ends when the futures are
    used up or at the first round in which the flag is seen set. *)
Theorem batch_stop_partial_counts (w : files) (cv : opencv) (p : processor)
    (cb : callbacks) (oc : outcomes) (max_workers : nat) (fs : directory)
    (sched order : list nat) (stop : nat -> bool) :
  processed_count p = 0 -> success_count p = 0 -> failed_paths p = [] ->
  let '(p', _, events) :=
    _batch_process_thread w cv p cb oc max_workers fs sched order stop in
  let handed := omap (fun i => image_paths p !! i) order in
  let total_count := Z.of_nat (length (image_paths p)) in
  exists n : nat,
    (n <= length handed)%nat /\
    (forall j, (j < n)%nat -> stop j = false) /\
    (forall j, (S j < n)%nat -> progress_fails cb oc j = None) /\
    processed_count p' = Z.of_nat n /\
    success_count p' + failed (get_results p') = Z.of_nat n /\
    failed_paths p' ⊆ take n handed /\
    is_processing p' = false /\
    let failure text := emit (error_callback cb) (Failure (thread_error_message text)) in
    let completed :=
      emit (complete_callback cb)
        (Complete (success_count p') total_count (failed_paths p')) in
    match n with
    | S m =>
        match progress_fails cb oc m with
        | Some text => events = progress_calls cb 0 total_count n ++ failure text
        | None =>
            ((n < length handed)%nat -> stop n = true) /\
            events = progress_calls cb 0 total_count n ++ completed
                     ++ match complete_fails cb oc with
                        | Some text => failure text
                        | None => []
                        end
        end
    | O =>
        ((n < length handed)%nat -> stop n = true) /\
        events = completed ++ match complete_fails cb oc with
                              | Some text => failure text
                              | None => []
                              end
    end.
Proof.
  intros Hp0 Hs0 Hf0. unfold _batch_process_thread.
  pose proof (run_workers_paths w cv p
                (Remover.mask (template_watermark_remover p)) max_workers sched fs)
    as Hpaths.
  destruct (run_workers _ _ _ _ _ _ _) as [results fs']. simpl in Hpaths.
  set (futures := omap (fun i => results !! i) order).
  assert (futures.*1 = omap (fun i => image_paths p !! i) order) as Hhanded.
  { subst futures. rewrite <- Hpaths. clear.
    induction order as [|i order IH]; [done|].
    simpl. rewrite list_lookup_fmap.
    destruct (results !! i); simpl; [f_equal|]; exact IH. }
  destruct (collect _ _ _ _ _ _ _) as [[p1 evs] raised] eqn:E.
  apply collect_rounds in E as (n & extra & Hn & Hrun & Hquiet & Hend & Hp & Hs & Hf
                                  & Hsub & Hr & Ht & Hi & Ho & Htm & Hev).
  rewrite Hp0 in Hp, Hev. rewrite Hs0 in Hs. rewrite Hf0 in Hf. simpl in Hf. subst extra.
  assert (length futures = length (omap (fun i => image_paths p !! i) order)) as Hlen
    by (by rewrite <- Hhanded, length_fmap).
  assert (failed_paths p1 ⊆ take n (omap (fun i => image_paths p !! i) order))
    as Hfailed.
  { etrans; [exact Hsub|]. by rewrite fmap_take, Hhanded. }
  fold (complete_fails cb oc).
  destruct raised as [text|].
  - destruct Hend as (m & -> & Hm). simpl in Hm.
    cbv beta iota zeta. exists (S m). rewrite <- Hlen. simpl. rewrite Hm.
    repeat split; try done; try lia. by rewrite Hev.
  - destruct Hend as [Hnone Hstop]. simpl in Hnone, Hstop.
    destruct (complete_fails cb oc) as [text|];
      cbv beta iota zeta; exists n; rewrite <- Hlen;
      (split; [done|]); (split; [done|]); (split; [done|]);
      (destruct n as [|m]; [|rewrite (Hnone m) by lia]);
      simpl; repeat split; try done; try lia;
      by rewrite Hev, ?progress_calls_0, ?app_nil_r.
Qed.

Lemma batch_stop_partial_counts_witness :
  let cb := {| progress_callback := true; complete_callback := true;
               error_callback := true |} in
  let oc := {| progress_raises := fun k => if Nat.eqb k 1 then Some "boom" else None;
               complete_raises := None |} in
  (let '(p', _, events) :=
     _batch_process_thread Sample.files Sample.cv Sample.processor cb oc
       2 ∅ [0; 1; 0; 1]%nat [1; 0]%nat (fun k => Nat.eqb k 1) in
   exists n : nat, processed_count p' = Z.of_nat n /\ is_processing p' = false) /\
  (let '(p', _, events) :=
     _batch_process_thread Sample.files Sample.cv Sample.processor cb oc
       2 ∅ [0; 1; 0; 1]%nat [1; 0]%nat (fun _ => false) in
   exists n : nat, processed_count p' = Z.of_nat n /\ is_processing p' = false).
Proof.
  intros cb oc. split.
  - pose proof (batch_stop_partial_counts Sample.files Sample.cv Sample.processor
                  cb oc 2 ∅ [0; 1; 0; 1]%nat [1; 0]%nat (fun k => Nat.eqb k 1)
                  eq_refl eq_refl eq_refl) as H.
    destruct (_batch_process_thread _ _ _ _ _ _ _ _ _ _) as [[p' fs'] events].
    destruct H as (n & _ & _ & _ & Hp & _ & _ & Hr & _). by exists n.
  - pose proof (batch_stop_partial_counts Sample.files Sample.cv Sample.processor
                  cb oc 2 ∅ [0; 1; 0; 1]%nat [1; 0]%nat (fun _ => false)
                  eq_refl eq_refl eq_refl) as H.
    destruct (_batch_process_thread _ _ _ _ _ _ _ _ _ _) as [[p' fs'] events].
    destruct H as (n & _ & _ & _ & Hp & _ & _ & Hr & _). by exists n.
Defined.

(** A stop request seen in round 1 ends the batch after one result with
    the completion callback called last; a progress callback that raises
    in round 1 ends it after two results with the error callback called
    last and the completion callback not at all. *)
Example batch_stop_and_raise :
  let cb := {| progress_callback := true; complete_callback := true;
               error_callback := true |} in
  let oc := {| progress_raises := fun k => if Nat.eqb k 1 then Some "boom" else None;
               complete_raises := None |} in
  (_batch_process_thread Sample.files Sample.cv Sample.processor cb oc
     2 ∅ [0; 1; 0; 1]%nat [1; 0]%nat (fun k => Nat.eqb k 1)).2
  = [Progress 1 2; Complete 0 2 ["b.png"]] /\
  (_batch_process_thread Sample.files Sample.cv Sample.processor cb oc
     2 ∅ [0; 1; 0; 1]%nat [1; 0]%nat (fun _ => false)).2
  = [Progress 1 2; Progress 2 2; Failure (thread_error_message "boom")].
Proof. split; vm_compute; reflexivity. Qed.

End Stopping.

Section Setup.
Import Raster Cv Batch BatchSetup.

(** X5.  After [set_parameters(r, name)] the processor and its template remover
    agree on the algorithm, but not always on the radius: the template
    remover stores [r] clamped to [1, 20] and passes that to the oracle,
    whereas the processor stores [r] itself and every batch worker passes
    [r] to the oracle unclamped. *)
Theorem set_parameters_radius_unclamped (w : files) (cv : opencv) (p : processor)
    (r : Z) (n : Remover.algorithm_name) :
  let p' := set_parameters p r n in
  algorithm p' = Remover.algorithm (template_watermark_remover p') /\
  Remover.inpaint_radius (template_watermark_remover p') = Z.max 1 (Z.min 20 r) /\
  Forall (fun k => call_radius k = Z.max 1 (Z.min 20 r))
    (Remover.remove_watermark cv (template_watermark_remover p')).2 /\
  forall image_path template_mask image resized,
    read_image w image_path = Some image ->
    template_mask ≫= (fun t => cv_resize cv t (width image) (height image))
      = Some resized ->
    inpainted w cv p' image_path template_mask
    = cv_inpaint cv image (threshold resized) r (algorithm p').
Proof.
  simpl. split; [by destruct n|]. split; [done|]. split.
  - unfold Remover.remove_watermark. split_cases; by repeat constructor.
  - intros image_path template_mask image resized Hr Hm.
    unfold inpainted. rewrite Hr. simpl. rewrite Hm. reflexivity.
Qed.

(** X6.  A finished batch can be followed by another one.  When
    [start_batch_processing] has returned [True], then after the thread has
    ended, stopped or not, whatever the workers returned and whether or not
    a callback raised, a new call passes every check again and starts from
    zeroed counters and an empty failure list. *)
Theorem batch_can_restart (w : files) (cv : opencv) (p p1 : processor)
    (cb cb' : callbacks) (oc : outcomes) (max_workers : nat)
    (events : list event) (launched : bool)
    (fs : directory) (sched order : list nat) (stop : nat -> bool) :
  start_batch_processing p cb = Some (p1, true, events, launched) ->
  let '(p2, _, _) :=
    _batch_process_thread w cv p1 cb oc max_workers fs sched order stop in
  start_batch_processing p2 cb' =
    Some (set_counters (set_flags p2 true false) 0 0 [], true, [], true) /\
  get_progress (set_counters (set_flags p2 true false) 0 0 [])
    = (0, Z.of_nat (length (image_paths p))).
Proof.
  intros Hstart. unfold start_batch_processing in Hstart.
  destruct (Remover.mask (template_watermark_remover p)) as [m|] eqn:Em; [|done].
  destruct (np_max m) as [mx|] eqn:Emx; [|done]. simpl in Hstart.
  destruct (mx =? 0) eqn:E0; [done|].
  destruct (bool_decide (image_paths p = [])) eqn:Ep; [done|].
  destruct (String.eqb (output_dir p) "") eqn:Eo; [done|].
  destruct (is_processing p) eqn:Er; [done|].
  injection Hstart as <- _ _.
  unfold _batch_process_thread.
  destruct (run_workers _ _ _ _ _ _ _) as [results fs'].
  destruct (collect _ _ _ _ _ _ _) as [[q evs] raised] eqn:E.
  apply collect_rounds in E as (k & extra & _ & _ & _ & _ & _ & _ & _ & _
                                  & _ & _ & Hi & Ho & Htm & _).
  simpl in Hi, Ho, Htm.
  assert (start_batch_processing (set_flags q false (should_stop q)) cb' =
            Some (set_counters (set_flags (set_flags q false (should_stop q))
                                  true false) 0 0 [], true, [], true) /\
          get_progress (set_counters (set_flags (set_flags q false (should_stop q))
                                        true false) 0 0 [])
          = (0, Z.of_nat (length (image_paths p)))) as Hrestart.
  { unfold start_batch_processing, get_progress. simpl.
    rewrite Htm, Em, Hi, Ho. simpl. rewrite Emx. simpl.
    by rewrite E0, Ep, Eo. }
  destruct raised as [text|]; [exact Hrestart|].
  by destruct (if complete_callback cb then complete_raises oc else None).
Qed.

Lemma batch_can_restart_witness :
  let cb := {| progress_callback := true; complete_callback := true;
               error_callback := true |} in
  let oc := {| progress_raises := fun _ => Some "boom"; complete_raises := None |} in
  let p1 := set_counters (set_flags Sample.processor true false) 0 0 [] in
  let '(p2, _, _) :=
    _batch_process_thread Sample.files Sample.cv p1 cb oc 2 ∅ [0; 1; 1]%nat
      [0; 1]%nat (fun k => Nat.eqb k 1) in
  start_batch_processing p2 cb =
    Some (set_counters (set_flags p2 true false) 0 0 [], true, [], true) /\
  get_progress (set_counters (set_flags p2 true false) 0 0 []) = (0, 2).
Proof.
  intros cb oc p1.
  apply (batch_can_restart Sample.files Sample.cv Sample.processor p1 cb cb oc 2
           [] true ∅ [0; 1; 1]%nat [0; 1]%nat (fun k => Nat.eqb k 1)).
  vm_compute. reflexivity.
Defined.

End Setup.

Lemma set_parameters_radius_unclamped_witness :
  let p' := BatchSetup.set_parameters Sample.processor 50 Remover.NameNS in
  Remover.inpaint_radius (Batch.template_watermark_remover p') = 20 /\
  Batch.inpainted Sample.files Sample.cv p' "a.png" (Some [[255]])
  = Cv.cv_inpaint Sample.cv Sample.dot (Raster.threshold [[255]]) 50 Cv.INPAINT_NS.
Proof.
  destruct (set_parameters_radius_unclamped Sample.files Sample.cv
              Sample.processor 50 Remover.NameNS) as (_ & H1 & _ & H2).
  split; [exact H1|].
  apply (H2 "a.png" (Some [[255]]) Sample.dot [[255]]); reflexivity.
Defined.

(** * Further properties of the interactive remover *)

Section Reachable.
Import Raster Cv Remover Session Reach.

Lemma save_well_formed s :
  is_Some (image s) -> is_Some (mask s) -> -1 <= history_index s ->
  well_formed (_save_mask_to_history s).
Proof.
  intros Hi [m Hm] Hc. right. unfold _save_mask_to_history. rewrite Hm. simpl.
  split; [done|]. split; [by eexists|]. rewrite length_app. simpl. lia.
Qed.

Lemma loaded_well_formed s i : well_formed (loaded s i).
Proof. unfold loaded. apply save_well_formed; simpl; by eauto. Qed.

Lemma well_formed_undo s :
  well_formed s ->
  exists s' b, undo_mask s = Some (s', b) /\ well_formed s' /\
               (b = false -> s' = s).
Proof.
  intros [(Hi & Hm & Hh & Hc)|(Hi & Hm & Hc)]; unfold undo_mask.
  - rewrite Hh. simpl. exists s, false.
    split; [done|]. split; [by left|done].
  - destruct (bool_decide (mask_history s = []) || (history_index s <=? 0)) eqn:E.
    + exists s, false. split; [done|]. split; [by right|done].
    + apply orb_false_iff in E as [_ E]. apply Z.leb_gt in E.
      replace (history_index s - 1) with (Z.of_nat (Z.to_nat (history_index s - 1)))
        by lia.
      rewrite index_nat.
      destruct (lookup_lt_is_Some_2 (mask_history s) (Z.to_nat (history_index s - 1)))
        as [m' ->]; [lia|]. simpl.
      eexists _, true. split; [reflexivity|]. split; [|done].
      right. simpl. split; [done|]. split; [by eexists|]. lia.
Qed.

Lemma well_formed_redo s :
  well_formed s ->
  exists s' b, redo_mask s = Some (s', b) /\ well_formed s' /\
               (b = false -> s' = s).
Proof.
  intros Hwf. unfold redo_mask.
  destruct (Z.leb_spec (Z.of_nat (length (mask_history s)) - 1) (history_index s)).
  - by exists s, false.
  - destruct Hwf as [(Hi & Hm & Hh & Hc)|(Hi & Hm & Hc)].
    { rewrite Hh, Hc in *. simpl in *. lia. }
    replace (history_index s + 1) with (Z.of_nat (Z.to_nat (history_index s + 1)))
      by lia.
    rewrite index_nat.
    destruct (lookup_lt_is_Some_2 (mask_history s) (Z.to_nat (history_index s + 1)))
      as [m' ->]; [lia|]. simpl.
    eexists _, true. split; [reflexivity|]. split; [|done].
    right. simpl. split; [done|]. split; [by eexists|]. lia.
Qed.

Lemma well_formed_fields s s' :
  image s' = image s -> mask s' = mask s \/ (is_Some (mask s) /\ is_Some (mask s')) ->
  mask_history s' = mask_history s -> history_index s' = history_index s ->
  well_formed s -> well_formed s'.
Proof.
  intros Hi Hm Hh Hc [(H1 & H2 & H3 & H4)|(H1 & H2 & H3)].
  - left. rewrite Hi, Hh, Hc. repeat split; try done.
    destruct Hm as [->|[[m Hm] _]]; [done|congruence].
  - right. rewrite Hi, Hh, Hc. repeat split; try done; try lia.
    destruct Hm as [->|[_ Hm]]; done.
Qed.

Lemma draw_well_formed cv s c :
  well_formed s ->
  well_formed (exec cv s (Draw c)).1.
Proof.
  intros Hwf. simpl.
  destruct Hwf as [(Hi & Hm & Hh & Hc)|(Hi & Hm & Hc)].
  - assert (draw cv s c = Some s) as ->.
    { destruct c; simpl; unfold start_draw, draw_line_on_mask; by rewrite Hi. }
    rewrite Hi. simpl. left. done.
  - destruct Hi as [i Hi]. destruct Hm as [m Hm]. rewrite Hi, Hm.
    assert (forall m', well_formed (set_mask s (Some m'))) as Hset.
    { intros m'. right. simpl. rewrite Hi. split; [by eexists|].
      split; [by eexists|done]. }
    destruct (draw cv s c) as [s'|] eqn:Hd; simpl; [|apply Hset].
    destruct c as [pt b|a b br rnd]; simpl in Hd.
    + unfold start_draw in Hd. rewrite Hi, Hm in Hd.
      split_cases; apply Hset.
    + unfold draw_line_on_mask in Hd. rewrite Hi, Hm in Hd.
      destruct (canvas_to_image_coords _ a); [|done].
      destruct (canvas_to_image_coords _ b); [|done].
      simpl in Hd.
      match type of Hd with
      | (?painted ≫= _) = _ => destruct painted as [s1|] eqn:E1; [|done]
      end.
      simpl in Hd. injection Hd as <-.
      assert (exists m', s1 = set_mask s (Some m')) as [m' ->].
      { destruct (in_bounds _ _ && in_bounds _ _).
        - destruct (cv2_line _ _ _ _ _) as [m1|]; [|done]. simpl in E1.
          destruct (cv2_circle _ m1 _ _) as [m2|]; [|done]. simpl in E1.
          destruct (cv2_circle _ m2 _ _) as [m3|]; [|done]. simpl in E1.
          injection E1 as <-. by eexists.
        - injection E1 as <-. by eexists. }
      destruct (Py.ltQ rnd (2 # 10)); [|apply Hset].
      apply save_well_formed; simpl; rewrite ?Hi; try by eexists. lia.
Qed.

Lemma exec_well_formed cv s c : well_formed s -> well_formed (exec cv s c).1.
Proof.
  intros Hwf.
  destruct c as [e a b|n|r|w h|c| | | | | |].
  - simpl. unfold load_image.
    destruct e; simpl; [|done].
    destruct a; simpl; [apply loaded_well_formed|].
    destruct b; simpl; [apply loaded_well_formed|].
    eapply well_formed_fields; [..|exact Hwf]; try done. by left.
  - eapply well_formed_fields; [..|exact Hwf]; try done. by left.
  - eapply well_formed_fields; [..|exact Hwf]; try done. by left.
  - simpl. unfold set_display_size. destruct (image s); simpl.
    + destruct (Py.truediv (inject_Z w) _); simpl;
        [destruct (Py.truediv (inject_Z h) _); simpl|];
        (eapply well_formed_fields; [..|exact Hwf]; try done; by left).
    + eapply well_formed_fields; [..|exact Hwf]; try done. by left.
  - by apply draw_well_formed.
  - simpl. unfold clear_mask. destruct (image s) eqn:Hi; [|done].
    destruct Hwf as [(H1 & _)|(H1 & H2 & H3)]; [congruence|].
    right. simpl. rewrite Hi. split; [by eexists|]. split; [by eexists|done].
  - simpl. destruct Hwf as [(H1 & H2 & H3 & H4)|(H1 & H2 & H3)].
    + unfold _save_mask_to_history. rewrite H2. by left.
    + apply save_well_formed; try done. lia.
  - simpl. destruct (well_formed_undo s Hwf) as (s' & b & -> & Hwf' & _). done.
  - simpl. destruct (well_formed_redo s Hwf) as (s' & b & -> & Hwf' & _). done.
  - simpl. unfold remove_watermark.
    split_cases; (eapply well_formed_fields; [..|exact Hwf]; try done; by left).
  - simpl. unfold continue_edit_result. destruct (result_image s); simpl; [|done].
    match goal with
    | |- well_formed (set_images ?t _ _ _) =>
        assert (well_formed t) as Ht by (apply save_well_formed; simpl; by eauto)
    end.
    eapply well_formed_fields; [..|exact Ht]; try done. by left.
Qed.

(** X7.  From a new remover, after any sequence of method calls with any
    arguments, either nothing is loaded (no image, no mask, empty history,
    cursor -1) or image and mask are present and the cursor lies within the
    history.  In every such state [undo_mask] and [redo_mask] return without
    an [IndexError], and change nothing when they return [False]. *)
Theorem history_cursor_always_valid (cv : opencv) (cs : list method_call) :
  let s := after cv init cs in
  well_formed s /\
  (exists s' b, undo_mask s = Some (s', b) /\ (b = false -> s' = s)) /\
  (exists s' b, redo_mask s = Some (s', b) /\ (b = false -> s' = s)).
Proof.
  assert (forall s, well_formed s -> well_formed (after cv s cs)) as Hall.
  { induction cs as [|c cs IH]; intros s Hs; [done|].
    simpl. apply IH. by apply exec_well_formed. }
  assert (well_formed (after cv init cs)) as Hwf.
  { apply Hall. left. done. }
  simpl. split; [done|]. split.
  - destruct (well_formed_undo _ Hwf) as (s' & b & E & _ & Hb). by exists s', b.
  - destruct (well_formed_redo _ Hwf) as (s' & b & E & _ & Hb). by exists s', b.
Qed.

End Reachable.

Section Editing.
Import Raster Cv Remover Session Reach.

Lemma shape_zeros {A} (i : raster A) : shape (zeros (height i) (width i)) = shape i.
Proof.
  unfold shape, zeros, height, width. rewrite length_replicate, !Nat2Z.id.
  destruct i as [|row i]; simpl; [done|].
  by rewrite length_replicate.
Qed.

Lemma shape_fit_mask i m : shape (fit_mask i m) = shape i.
Proof. unfold fit_mask. destruct (decide _); [done|apply shape_zeros]. Qed.

Lemma in_bounds_clamped m x y :
  0 <= x <= width m - 1 -> 0 <= y <= height m - 1 -> in_bounds m (x, y) = true.
Proof.
  intros Hx Hy. unfold in_bounds. simpl.
  destruct (Z.leb_spec 0 x); [|lia]. destruct (Z.ltb_spec x (width m)); [|lia].
  destruct (Z.leb_spec 0 y); [|lia]. destruct (Z.ltb_spec y (height m)); [|lia].
  done.
Qed.

(** X8.  With the cursor past the first snapshot of a state reached by
    method calls, [undo_mask] followed by [redo_mask] both return [True] and
    leave the state as it was except for the active mask, which becomes the
    snapshot under the cursor: paint that no snapshot recorded is lost, and
    a mask that equals the snapshot under the cursor is restored exactly. *)
Theorem undo_then_redo_restores_snapshot (s : remover) :
  well_formed s -> 0 < history_index s ->
  exists s1 m,
    undo_mask s = Some (s1, true) /\
    Py.index (mask_history s) (history_index s) = Some m /\
    redo_mask s1 = Some (set_mask s (Some m), true) /\
    (mask s = Some m -> redo_mask s1 = Some (s, true)).
Proof.
  intros [(_ & _ & _ & Hc)|(Hi & Hm & Hc)] Hpos; [lia|].
  destruct (lookup_lt_is_Some_2 (mask_history s) (Z.to_nat (history_index s - 1)))
    as [m' Hm']; [lia|].
  destruct (lookup_lt_is_Some_2 (mask_history s) (Z.to_nat (history_index s)))
    as [m0 Hm0]; [lia|].
  assert (Z.to_nat (history_index s) = S (Z.to_nat (history_index s - 1))) as Hk by lia.
  exists (Notions.at_cursor s (Z.to_nat (history_index s - 1)) m'), m0.
  assert (redo_mask (Notions.at_cursor s (Z.to_nat (history_index s - 1)) m')
          = Some (set_mask s (Some m0), true)) as Hredo.
  { erewrite redo_mask_step; [|reflexivity|simpl; by rewrite <- Hk].
    unfold Notions.at_cursor. simpl. do 2 f_equal.
    destruct s; unfold set_mask, set_history; simpl in *. f_equal. lia. }
  split; [apply undo_mask_step; [lia|done]|].
  split; [|split; [done|]].
  - replace (history_index s) with (Z.of_nat (Z.to_nat (history_index s))) at 1 by lia.
    by rewrite index_nat.
  - intros E. rewrite Hredo. do 2 f_equal.
    destruct s; unfold set_mask; simpl in *. by rewrite E.
Qed.

Lemma undo_then_redo_restores_snapshot_witness :
  let s := (default Sample.fresh
              (Session.strokes Sample.cv Sample.fresh
                 [[Start (0, 0) 2]; [Start (0, 0) 2]])) in
  exists s1 m,
    undo_mask s = Some (s1, true) /\
    Py.index (mask_history s) (history_index s) = Some m /\
    redo_mask s1 = Some (set_mask s (Some m), true) /\
    (mask s = Some m -> redo_mask s1 = Some (s, true)).
Proof.
  apply undo_then_redo_restores_snapshot.
  - right. vm_compute. split; [by eexists|]. split; [by eexists|]. split; discriminate.
  - vm_compute. reflexivity.
Defined.

(** X9.  [clear_mask] takes no snapshot and leaves history and cursor alone:
    an [undo_mask] or [redo_mask] that succeeds gives the same state whether
    or not the mask was cleared just before it, so the clearing is not a
    step of the history. *)
Theorem clear_mask_not_recorded (s s' : remover) :
  (undo_mask s = Some (s', true) -> undo_mask (clear_mask s) = Some (s', true)) /\
  (redo_mask s = Some (s', true) -> redo_mask (clear_mask s) = Some (s', true)) /\
  mask_history (clear_mask s) = mask_history s /\
  history_index (clear_mask s) = history_index s.
Proof.
  unfold clear_mask. destruct (image s) as [i|]; [|done].
  split; [|split; [|done]]; unfold undo_mask, redo_mask; simpl.
  - destruct (_ || _); [done|]. by destruct (Py.index _ _).
  - destruct (_ <=? _); [done|]. by destruct (Py.index _ _).
Qed.

(** X10.  On an image with pixels and with a scale factor other than 0, the
    bounds test of [start_draw] and [draw_line_on_mask] never fails: the
    converted points are already clamped into the image.  So the outcome of
    a call depends on the brush size alone.  [start_draw] paints a dot at
    the converted point, and raises only when half the brush size does not
    fit a C [int]; [draw_line_on_mask] paints a line with a dot at either
    end when the brush size lies in [1, 32767], and otherwise raises in
    [cv2.line], before anything is painted and before the throttle is
    sampled, so that no snapshot is taken. *)
Theorem drawing_always_paints (cv : opencv) (s : remover) (i : img) (m : Raster.mask)
    (a b : point) (brush : Z) (rnd : Q) :
  image s = Some i -> mask s = Some m -> 0 < width i -> 0 < height i ->
  ~ (scale_factor s == 0)%Q ->
  exists a' b',
    canvas_to_image_coords s a = Some a' /\
    canvas_to_image_coords s b = Some b' /\
    let radius := Z.max 1 (brush / 2) in
    let fitted := fit_mask i m in
    start_draw cv s a brush
    = (if radius <=? INT_MAX
       then Some (set_mask s (Some (cv_circle cv fitted a' radius)))
       else None) /\
    let painted :=
      set_mask s (Some (cv_circle cv (cv_circle cv
                          (cv_line cv fitted a' b' brush) a' radius) b' radius)) in
    draw_line_on_mask cv s a b brush rnd
    = (if (1 <=? brush) && (brush <=? MAX_THICKNESS)
       then Some (if Py.ltQ rnd (2 # 10) then _save_mask_to_history painted
                  else painted)
       else None).
Proof.
  intros Hi Hm Hw Hh Hs.
  destruct (coords_clamped s i a Hi Hw Hh Hs) as (xa & ya & Ea & Hxa & Hya).
  destruct (coords_clamped s i b Hi Hw Hh Hs) as (xb & yb & Eb & Hxb & Hyb).
  exists (xa, ya), (xb, yb). split; [done|]. split; [done|].
  pose proof (shape_fit_mask i m) as Hshape. unfold shape in Hshape.
  injection Hshape as Hfh Hfw.
  assert (forall m', canvas_to_image_coords (set_mask s m') a = Some (xa, ya)) as Ea'
    by (intros; exact Ea).
  assert (forall m', canvas_to_image_coords (set_mask s m') b = Some (xb, yb)) as Eb'
    by (intros; exact Eb).
  simpl. split.
  - unfold start_draw. rewrite Hi, Hm, Ea'. simpl.
    rewrite in_bounds_clamped by (rewrite ?Hfw, ?Hfh; lia).
    unfold cv2_circle.
    destruct (Z.leb_spec 0 (Z.max 1 (brush / 2))) as [_|]; [|lia]. simpl.
    by destruct (Z.max 1 (brush / 2) <=? INT_MAX).
  - unfold draw_line_on_mask. rewrite Hi, Hm, Ea', Eb'. simpl.
    rewrite !in_bounds_clamped by (rewrite ?Hfw, ?Hfh; lia). simpl.
    destruct ((1 <=? brush) && (brush <=? MAX_THICKNESS)) eqn:Eb2.
    + apply andb_true_iff in Eb2 as [H1 H2]. apply Z.leb_le in H1, H2.
      pose proof (radius_of_thickness brush (conj H1 H2)) as Hr.
      rewrite cv2_line_accepted by lia. simpl.
      rewrite cv2_circle_accepted by lia. simpl.
      rewrite cv2_circle_accepted by lia. done.
    + unfold cv2_line. by rewrite Eb2.
Qed.

Lemma drawing_always_paints_witness :
  exists a' b',
    canvas_to_image_coords Sample.fresh (7, -3) = Some a' /\
    canvas_to_image_coords Sample.fresh (0, 0) = Some b' /\
    start_draw Sample.cv Sample.fresh (7, -3) 2
    = Some (set_mask Sample.fresh
              (Some (cv_circle Sample.cv (fit_mask Sample.dot [[0]]) a' 1))) /\
    draw_line_on_mask Sample.cv Sample.fresh (7, -3) (0, 0) 0 0 = None.
Proof.
  destruct (drawing_always_paints Sample.cv Sample.fresh Sample.dot [[0]]
              (7, -3) (0, 0) 2 0) as (a' & b' & Ea & Eb & Hs & _);
    [reflexivity|reflexivity|reflexivity|reflexivity|vm_compute; discriminate|].
  destruct (drawing_always_paints Sample.cv Sample.fresh Sample.dot [[0]]
              (7, -3) (0, 0) 0 0) as (a2 & b2 & _ & _ & _ & Hl);
    [reflexivity|reflexivity|reflexivity|reflexivity|vm_compute; discriminate|].
  exists a', b'. split; [exact Ea|]. split; [exact Eb|]. split; [exact Hs|exact Hl].
Defined.

End Editing.

Section Display.
Import Raster Cv Remover.

Lemma int_bounds (q : Q) (z : Z) :
  (0 <= q)%Q -> (q <= inject_Z z)%Q -> 0 <= Py.int q <= z.
Proof.
  unfold Qle, Py.int. destruct q as [n d]. simpl. intros Hn Hz.
  rewrite Z.quot_div_nonneg by lia. split.
  - apply Z.div_pos; lia.
  - apply Z.div_le_upper_bound; lia.
Qed.

Lemma minQ_le_l (a b : Q) : (Py.minQ a b <= a)%Q.
Proof.
  unfold Py.minQ. destruct (Qle_bool a b) eqn:E; [apply Qle_refl|].
  apply Qlt_le_weak, Qnot_le_lt. intros H. apply Qle_bool_iff in H. congruence.
Qed.

Lemma minQ_le_r (a b : Q) : (Py.minQ a b <= b)%Q.
Proof.
  unfold Py.minQ. destruct (Qle_bool a b) eqn:E; [by apply Qle_bool_iff|apply Qle_refl].
Qed.

Lemma scaled_fits (w W : Z) (f : Q) :
  0 < w -> 0 < W -> (0 < f)%Q -> (f <= inject_Z W / inject_Z w)%Q ->
  0 <= Py.int (inject_Z w * (f * (9 # 10)))%Q <= W.
Proof.
  intros Hw HW Hf Hle.
  assert (0 < inject_Z w)%Q as Hw' by (unfold Qlt; simpl; lia).
  assert (0 <= inject_Z W)%Q as HW' by (unfold Qle; simpl; lia).
  apply int_bounds.
  - apply Qmult_le_0_compat; [by apply Qlt_le_weak|].
    apply Qmult_le_0_compat; [by apply Qlt_le_weak|done].
  - apply Qle_trans with (inject_Z w * (inject_Z W / inject_Z w * (9 # 10)))%Q.
    + apply Qmult_le_l; [done|]. apply Qmult_le_compat_r; [done|]. done.
    + assert (inject_Z w * (inject_Z W / inject_Z w * (9 # 10)) == inject_Z W * (9 # 10))%Q
        as -> by (field; intros E; rewrite E in Hw'; by apply Qlt_irrefl in Hw').
      rewrite <- (Qmult_1_r (inject_Z W)) at 2.
      apply Qmult_le_l; [unfold Qlt; simpl; lia|unfold Qle; simpl; lia].
Qed.

(** X11.  With an image of [w] by [h] pixels loaded and a display surface of
    positive size [W] by [H], [set_display_size] stores the scale
    [min(W/w, H/h) * 0.9], and the image scaled by it, as
    [canvas_to_image_coords] computes it, fits the surface: its width lies
    in [0, W] and its height in [0, H], so both centring offsets are simply
    half the remaining space. *)
Theorem set_display_size_fits (s : remover) (i : img) (W H : Z) :
  image s = Some i -> 0 < width i -> 0 < height i -> 0 < W -> 0 < H ->
  exists s',
    set_display_size s W H = Some s' /\
    display_width s' = W /\ display_height s' = H /\
    scale_factor s' =
      (Py.minQ (inject_Z W / inject_Z (width i)) (inject_Z H / inject_Z (height i))
       * (9 # 10))%Q /\
    let scaled_width := Py.int (inject_Z (width i) * scale_factor s')%Q in
    let scaled_height := Py.int (inject_Z (height i) * scale_factor s')%Q in
    0 <= scaled_width <= W /\ 0 <= scaled_height <= H /\
    Z.max 0 ((W - scaled_width) / 2) = (W - scaled_width) / 2 /\
    Z.max 0 ((H - scaled_height) / 2) = (H - scaled_height) / 2.
Proof.
  intros Hi Hw Hh HW HH.
  assert (~ (inject_Z (width i) == 0)%Q) as Hw0 by (unfold Qeq; simpl; lia).
  assert (~ (inject_Z (height i) == 0)%Q) as Hh0 by (unfold Qeq; simpl; lia).
  unfold set_display_size. rewrite Hi, !truediv_nonzero by done. simpl.
  eexists. split; [reflexivity|]. simpl.
  split; [done|]. split; [done|]. split; [reflexivity|].
  set (fw := (inject_Z W / inject_Z (width i))%Q).
  set (fh := (inject_Z H / inject_Z (height i))%Q).
  assert (0 < fw)%Q as Hfw.
  { apply Qlt_shift_div_l; unfold Qlt; simpl; lia. }
  assert (0 < fh)%Q as Hfh.
  { apply Qlt_shift_div_l; unfold Qlt; simpl; lia. }
  pose proof (minQ_positive fw fh Hfw Hfh) as Hmin.
  pose proof (scaled_fits (width i) W (Py.minQ fw fh) Hw HW Hmin (minQ_le_l fw fh)) as H1.
  pose proof (scaled_fits (height i) H (Py.minQ fw fh) Hh HH Hmin (minQ_le_r fw fh)) as H2.
  split; [exact H1|]. split; [exact H2|].
  split; apply Z.max_r, Z.div_pos; lia.
Qed.

Lemma set_display_size_fits_witness :
  exists s',
    set_display_size Sample.fresh 800 600 = Some s' /\
    0 <= Py.int (inject_Z (width Sample.dot) * scale_factor s')%Q <= 800.
Proof.
  destruct (set_display_size_fits Sample.fresh Sample.dot 800 600)
    as (s' & E & _ & _ & _ & Hfit & _); [reflexivity..|].
  exists s'. split; [exact E|exact Hfit].
Defined.

End Display.

Section Removal.
Import Raster Cv Remover Terms.

Lemma threshold_binary (a : Raster.mask) : binary (threshold a).
Proof.
  unfold binary, threshold. apply Forall_fmap, Forall_true. intros row. simpl.
  apply Forall_fmap, Forall_true. intros v. simpl.
  destruct (127 <? v); [by right|by left].
Qed.

Lemma np_max_binary (a : Raster.mask) (mx : Z) :
  binary a -> np_max a = Some mx -> mx = 0 \/ mx = 255.
Proof.
  intros Hb. unfold np_max.
  assert (Forall (fun v => v = 0 \/ v = 255) (concat a)) as Hc.
  { induction Hb; simpl; [done|]. by apply Forall_app. }
  destruct (concat a) as [|x xs]; [done|]. intros [= <-].
  apply Forall_cons in Hc as [Hx Hxs].
  induction Hxs as [|y ys Hy _ IH]; simpl; [done|]. lia.
Qed.

Local Ltac no_call :=
  simpl; split; [lia|]; split; [by apply Forall_nil|]; by repeat split.

(** X12.  [remove_watermark] calls the inpainting oracle at most once, and
    only with the original image, the stored radius and algorithm, and a
    mask that is the binarised resize of the active mask, holds only 0 and
    255 and has at least one 255.  It returns [True] exactly when that call
    returned, and then [result_image] is what the call returned; otherwise
    [result_image] stays as it was.  Image, original, mask and history are
    never touched. *)
Theorem remove_watermark_outcome (cv : opencv) (s : remover) :
  let '(s', ok, calls) := remove_watermark cv s in
  (length calls <= 1)%nat /\
  Forall (fun c =>
    original_image s = Some (call_image c) /\
    call_radius c = inpaint_radius s /\ call_flag c = algorithm s /\
    (exists m resized,
       mask s = Some m /\
       cv_resize cv m (width (call_image c)) (height (call_image c)) = Some resized /\
       call_mask c = threshold resized) /\
    binary (call_mask c) /\ np_max (call_mask c) = Some 255 /\
    (ok = true <-> is_Some (cv_inpaint cv (call_image c) (call_mask c)
                              (call_radius c) (call_flag c))) /\
    (ok = true -> result_image s'
                  = cv_inpaint cv (call_image c) (call_mask c)
                      (call_radius c) (call_flag c))) calls /\
  (ok = true -> calls <> []) /\
  (ok = false -> result_image s' = result_image s) /\
  image s' = image s /\ original_image s' = original_image s /\
  mask s' = mask s /\ mask_history s' = mask_history s /\
  history_index s' = history_index s.
Proof.
  unfold remove_watermark.
  destruct (image s) as [i|] eqn:Hi; [|no_call].
  destruct (mask s) as [m|] eqn:Hm; [|no_call].
  destruct (original_image s) as [orig|] eqn:Ho; [|no_call].
  destruct (cv_resize cv m _ _) as [resized|] eqn:Hr; [|no_call].
  destruct (np_max (threshold resized)) as [mx|] eqn:Hmx; [|no_call].
  destruct (np_max_binary _ _ (threshold_binary resized) Hmx) as [->| ->];
    [no_call|].
  destruct (cv_inpaint cv orig _ _ _) as [r|] eqn:Hc; simpl.
  - split; [lia|]. split; [|by repeat split].
    apply Forall_singleton. simpl. rewrite Hc.
    split; [done|]. split; [done|]. split; [done|].
    split; [by exists m, resized|]. split; [apply threshold_binary|].
    split; [done|]. split; [|done]. split; [by eexists|done].
  - split; [lia|]. split; [|by repeat split].
    apply Forall_singleton. simpl. rewrite Hc.
    split; [done|]. split; [done|]. split; [done|].
    split; [by exists m, resized|]. split; [apply threshold_binary|].
    split; [done|]. split; [|done]. split; [done|]. by intros [? ?].
Qed.

(** X13.  [load_image] on a path that does not exist changes nothing.  On an
    existing file that neither decoder can read it returns [False] and keeps
    image, mask, history and result, but the original image is gone: from
    then on [remove_watermark] returns [False] without calling the oracle,
    whatever is marked on the image still shown. *)
Theorem undecodable_file_disables_removal (cv : opencv) (s : remover)
    (a b : option img) :
  load_image s false a b = (s, false) /\
  let '(s', ok) := load_image s true None None in
  ok = false /\ original_image s' = None /\
  image s' = image s /\ mask s' = mask s /\ result_image s' = result_image s /\
  mask_history s' = mask_history s /\ history_index s' = history_index s /\
  (remove_watermark cv s').1.2 = false /\ (remove_watermark cv s').2 = [] /\
  result_image (remove_watermark cv s').1.1 = result_image s.
Proof.
  split; [done|]. unfold load_image. simpl.
  repeat (split; [done|]).
  unfold remove_watermark. simpl.
  destruct (image s); [|done]. by destruct (mask s).
Qed.

(** X14.  When a result exists, [continue_edit_result] returns [True], makes
    the result the image and the original, empties the mask and starts a new
    history of one blank snapshot, so neither [undo_mask] nor [redo_mask]
    can bring back a mask drawn before; the result is consumed, and a second
    call returns [False] and changes nothing. *)
Theorem continue_edit_result_starts_over (s : remover) (r : img) :
  result_image s = Some r ->
  let '(s', ok) := continue_edit_result s in
  let blank := zeros (height r) (width r) in
  ok = true /\ image s' = Some r /\ original_image s' = Some r /\
  result_image s' = None /\ mask s' = Some blank /\
  mask_history s' = [blank] /\ history_index s' = 0 /\
  undo_mask s' = Some (s', false) /\ redo_mask s' = Some (s', false) /\
  continue_edit_result s' = (s', false) /\
  inpaint_radius s' = inpaint_radius s /\ algorithm s' = algorithm s /\
  scale_factor s' = scale_factor s.
Proof.
  intros Hr. unfold continue_edit_result. rewrite Hr. simpl.
  repeat (split; [done|]). done.
Qed.

Lemma continue_edit_result_starts_over_witness :
  let s := (remove_watermark Sample.cv Sample.marked).1.1 in
  let '(s', ok) := continue_edit_result s in
  ok = true /\ mask_history s' = [[[0]]] /\ undo_mask s' = Some (s', false).
Proof.
  cbv zeta.
  pose proof (continue_edit_result_starts_over
                (remove_watermark Sample.cv Sample.marked).1.1
                (default Sample.dot
                   (result_image (remove_watermark Sample.cv Sample.marked).1.1))
                eq_refl) as H.
  destruct (continue_edit_result (remove_watermark Sample.cv Sample.marked).1.1)
    as [s' ok].
  destruct H as (H1 & _ & _ & _ & _ & H2 & _ & H3 & _).
  split; [exact H1|]. split; [exact H2|exact H3].
Defined.

End Removal.

(** * Further properties of the core class *)

Section Selection.
Import Raster Core Notions Terms.
Context {gray : Type}.

Lemma insert_desc_Permutation r l : insert_desc r l ≡ₚ r :: l.
Proof.
  induction l as [|r' l IH]; simpl; [done|].
  destruct (Py.ltQ _ _); [|done].
  rewrite IH. apply Permutation_swap.
Qed.

Lemma sort_desc_Permutation l : sort_desc l ≡ₚ l.
Proof.
  induction l as [|r l IH]; simpl; [done|].
  by rewrite insert_desc_Permutation, IH.
Qed.

Lemma sorted_take_drop n : forall l,
  StronglySorted by_confidence l ->
  Forall (fun d => Forall (fun r => by_confidence r d) (take n l)) (drop n l).
Proof.
  induction n as [|n IH]; intros l Hl; simpl.
  - apply Forall_true. intros d. constructor.
  - destruct Hl as [|r l Hl Hr]; [constructor|]. simpl.
    specialize (IH l Hl).
    apply Forall_forall. intros d Hd. constructor.
    + eapply Forall_forall in Hr; [exact Hr|]. by apply (subseteq_drop n l).
    + eapply Forall_forall in IH; [exact IH|done].
Qed.

Lemma pixel_at_paint (m : list (list Z)) r row col :
  pixel_at (paint m r) row col
  = (fun v => if covers r row col then 255 else v) <$> pixel_at m row col.
Proof.
  unfold pixel_at, paint, fill_rectangle, covers.
  rewrite list_lookup_imap. destruct (m !! row) as [line|]; simpl; [|done].
  by rewrite list_lookup_imap.
Qed.

Lemma pixel_at_foldl rs : forall (m : list (list Z)) row col,
  pixel_at (foldl paint m rs) row col
  = (fun v => if existsb (fun r => covers r row col) rs then 255 else v)
      <$> pixel_at m row col.
Proof.
  induction rs as [|r rs IH]; intros m row col; simpl.
  - by destruct (pixel_at m row col).
  - rewrite IH, pixel_at_paint.
    destruct (pixel_at m row col) as [v|]; simpl; [|done].
    by destruct (covers r row col), (existsb _ rs).
Qed.

Lemma pixel_at_zeros (h w : Z) (row col : nat) :
  Z.of_nat row < h -> Z.of_nat col < w -> pixel_at (zeros h w) row col = Some 0.
Proof.
  intros Hr Hc. unfold pixel_at, zeros.
  rewrite lookup_replicate_2 by lia. simpl.
  by rewrite lookup_replicate_2 by lia.
Qed.

(** What [detect_watermark] does once the contour search has returned. *)
Lemma detect_watermark_found (o : imaging gray) (s : core) orig m g contours :
  original_image s = Some orig -> mask s = Some m ->
  find_boxes o orig = Some (g, contours) ->
  let candidates := omap (candidate o g (width orig * height orig)) contours in
  let top := take 5 (sort_desc candidates) in
  exists s',
    detect_watermark o s = (s', top) /\ detected_regions s' = top /\
    mask s' = match candidates with
              | [] => Some m
              | _ :: _ => Some (foldl paint (zeros (height orig) (width orig)) top)
              end.
Proof.
  intros Ho Hm Hf. simpl. unfold detect_watermark. rewrite Ho, Hf.
  set (cands := omap _ contours).
  pose proof (sort_desc_Permutation cands) as Hp.
  destruct (sort_desc cands) as [|r rest] eqn:Es.
  - apply Permutation_nil_l in Hp. rewrite <- Hp. simpl.
    eexists. by repeat split.
  - destruct cands as [|c cands'].
    { apply Permutation_nil_r in Hp. done. }
    unfold clear_mask. simpl. rewrite Hm, Ho. simpl.
    eexists. by repeat split.
Qed.

(** X15.  When the contour search returns, the regions [detect_watermark]
    returns and stores are the [min(5, n)] most confident of the [n]
    bounding boxes whose area lies strictly between 0.1% and 20% of the
    image area: each returned region is such a box with its area and its
    confidence, and every box left out is no more confident than any
    returned one. *)
Theorem detect_watermark_keeps_best (o : imaging gray) (s : core) orig m g contours :
  original_image s = Some orig -> mask s = Some m ->
  find_boxes o orig = Some (g, contours) ->
  let img_area := width orig * height orig in
  let candidates := omap (candidate o g img_area) contours in
  let found := (detect_watermark o s).2 in
  detected_regions (detect_watermark o s).1 = found /\
  length found = Nat.min 5 (length candidates) /\
  (exists dropped,
     found ++ dropped ≡ₚ candidates /\
     Forall (fun d => Forall (fun r => (confidence d <= confidence r)%Q) found)
       dropped) /\
  Forall (fun r =>
    let b := (x r, y r, region_width r, region_height r) in
    b ∈ contours /\ area r = region_width r * region_height r /\
    ((1 # 1000) * inject_Z img_area < inject_Z (area r))%Q /\
    (inject_Z (area r) < (2 # 10) * inject_Z img_area)%Q /\
    confidence r = _calculate_watermark_confidence o g b) found.
Proof.
  intros Ho Hm Hf.
  destruct (detect_watermark_found o s orig m g contours Ho Hm Hf)
    as (s' & -> & Hd & _).
  cbn [fst snd]. set (cands := omap _ contours).
  split; [done|]. split.
  { rewrite length_take, (Permutation_length (sort_desc_Permutation cands)). lia. }
  split.
  - exists (drop 5 (sort_desc cands)). split.
    + rewrite take_drop. apply sort_desc_Permutation.
    + apply sorted_take_drop, sort_desc_sorted.
  - apply Forall_take, sort_desc_Forall, Forall_forall.
    intros r Hr. apply list_elem_of_omap in Hr as ([[[bx by_] w] h] & Hb & Hc).
    unfold candidate in Hc.
    destruct (Py.ltQ _ _ && Py.ltQ _ _) eqn:E; [|done].
    apply andb_true_iff in E as [E1 E2]. apply ltQ_true in E1, E2.
    injection Hc as <-. simpl. by repeat split.
Qed.

Lemma shape_paint (m : list (list Z)) r : shape (paint m r) = shape m.
Proof.
  unfold shape, height, width, paint, fill_rectangle. rewrite length_imap.
  destruct m as [|line m]; simpl; [done|]. by rewrite length_imap.
Qed.

Lemma shape_foldl_paint rs : forall m : list (list Z),
  shape (foldl paint m rs) = shape m.
Proof.
  induction rs as [|r rs IH]; intros m; simpl; [done|].
  by rewrite IH, shape_paint.
Qed.

(** X16.  When the contour search returns, [detect_watermark] leaves the
    mask alone if no box passes the area filter; otherwise it replaces the
    mask by one of the image's shape in which a pixel is 255 exactly when it
    lies in the rectangle of a returned region, from [(x, y)] to
    [(x + width, y + height)] with both corners included, and 0 elsewhere:
    what was marked before is gone, and boxes beyond the fifth are not
    marked. *)
Theorem detect_watermark_marks_found (o : imaging gray) (s : core) orig m g contours :
  original_image s = Some orig -> mask s = Some m ->
  find_boxes o orig = Some (g, contours) ->
  let candidates := omap (candidate o g (width orig * height orig)) contours in
  let found := (detect_watermark o s).2 in
  let s' := (detect_watermark o s).1 in
  (candidates = [] -> mask s' = Some m /\ found = []) /\
  (candidates <> [] ->
   exists m', mask s' = Some m' /\ shape m' = shape orig /\
     forall row col : nat,
       Z.of_nat row < height orig -> Z.of_nat col < width orig ->
       pixel_at m' row col
       = Some (if existsb (fun r => covers r row col) found then 255 else 0)).
Proof.
  intros Ho Hm Hf.
  destruct (detect_watermark_found o s orig m g contours Ho Hm Hf)
    as (s' & -> & Hd & Hmask).
  cbn [fst snd]. cbv zeta in Hmask.
  set (cands := omap _ contours) in *.
  split.
  - intros E. rewrite E in *. done.
  - intros Hne. destruct cands as [|c cands'] eqn:Ec; [done|]. rewrite <- Ec in *.
    eexists. split; [exact Hmask|]. split.
    + rewrite shape_foldl_paint. apply shape_zeros.
    + intros row col Hrow Hcol.
      rewrite pixel_at_foldl, pixel_at_zeros by done. done.
Qed.

End Selection.

Lemma detect_watermark_keeps_best_witness :
  let o := Sample.imaging [(0, 0, 1, 1); (2, 3, 2, 2); (5, 5, 3, 3); (0, 0, 9, 9)]
             (fun b => inject_Z b.1.1.1) (fun _ => 0%Q) in
  let s := {| Core.original_image := Some (replicate 10 (replicate 10 (0, 0, 0)));
              Core.current_image := None; Core.mask := Some (Raster.zeros 10 10);
              Core.detected_regions := []; Core.algorithm := "ns";
              Core.processing := false; Core.preview_quality := 80;
              Core.log := [] |} in
  map (fun r => (Core.x r, Core.y r)) (Core.detect_watermark o s).2
  = [(0, 0); (2, 3); (5, 5)] /\
  length (Core.detect_watermark o s).2 = 3%nat.
Proof.
  intros o s. split; [vm_compute; reflexivity|].
  destruct (detect_watermark_keeps_best o s (replicate 10 (replicate 10 (0, 0, 0)))
              (Raster.zeros 10 10) tt
              [(0, 0, 1, 1); (2, 3, 2, 2); (5, 5, 3, 3); (0, 0, 9, 9)]
              eq_refl eq_refl eq_refl) as (_ & H & _).
  exact H.
Defined.

Lemma detect_watermark_marks_found_witness :
  let o := Sample.imaging [(2, 3, 2, 2)] (fun _ => 0%Q) (fun _ => 0%Q) in
  let s := {| Core.original_image := Some (replicate 10 (replicate 10 (0, 0, 0)));
              Core.current_image := None; Core.mask := Some (Raster.zeros 10 10);
              Core.detected_regions := []; Core.algorithm := "ns";
              Core.processing := false; Core.preview_quality := 80;
              Core.log := [] |} in
  exists m', Core.mask (Core.detect_watermark o s).1 = Some m' /\
             Terms.pixel_at m' 5 4 = Some 255 /\ Terms.pixel_at m' 6 4 = Some 0.
Proof.
  intros o s.
  destruct (detect_watermark_marks_found o s (replicate 10 (replicate 10 (0, 0, 0)))
              (Raster.zeros 10 10) tt [(2, 3, 2, 2)] eq_refl eq_refl eq_refl) as [_ H].
  destruct H as (m' & Hm & _ & Hpx); [vm_compute; discriminate|].
  exists m'. split; [exact Hm|]. split.
  - rewrite (Hpx 5%nat 4%nat); [vm_compute; reflexivity|reflexivity|reflexivity].
  - rewrite (Hpx 6%nat 4%nat); [vm_compute; reflexivity|reflexivity|reflexivity].
Defined.

Section Algorithm.
Import Raster Core CoreSetup Terms.
Context {gray : Type}.

Lemma dict_get_spec (d : list (string * string)) (k : string) :
  match dict_get d k with
  | Some c => (k, c) ∈ d
  | None => k ∉ d.*1
  end.
Proof.
  unfold dict_get. induction d as [|[k' c'] d IH]; simpl.
  - apply not_elem_of_nil.
  - destruct (String.eqb_spec k' k) as [->|Hne]; simpl.
    + constructor.
    + destruct (find _ d) as [[k2 c2]|]; simpl in *.
      * by constructor.
      * apply not_elem_of_cons. by split.
Qed.

(** X17.  [set_algorithm] accepts the five display names and the five codes
    and nothing else; on success the attribute holds the code, on refusal
    it keeps its value, and nothing but the attribute and the log changes.
    So an attribute that holds a code keeps holding one, and the final
    [else] of the dispatch in [remove_watermark] is not reached through
    [set_algorithm]. *)
Theorem set_algorithm_codes (s : core) (a : string) :
  let '(s', ok) := set_algorithm s a in
  (ok = true <-> a ∈ ALGORITHMS.*1 ++ ALGORITHMS.*2) /\
  (ok = true -> algorithm s' ∈ ALGORITHMS.*2 /\
                (a ∈ ALGORITHMS.*2 -> algorithm s' = a) /\
                (a ∈ ALGORITHMS.*1 -> (a, algorithm s') ∈ ALGORITHMS)) /\
  (ok = false -> algorithm s' = algorithm s) /\
  (algorithm s ∈ ALGORITHMS.*2 -> algorithm s' ∈ ALGORITHMS.*2) /\
  original_image s' = original_image s /\ current_image s' = current_image s /\
  mask s' = mask s /\ detected_regions s' = detected_regions s /\
  preview_quality s' = preview_quality s /\ processing s' = processing s.
Proof.
  unfold set_algorithm.
  pose proof (dict_get_spec ALGORITHMS a) as Hget.
  destruct (dict_get ALGORITHMS a) as [c|]; cbn [default].
  - assert (c ∈ ALGORITHMS.*2) as Hc.
    { apply list_elem_of_fmap. by exists (a, c). }
    assert (a ∈ ALGORITHMS.*1) as Ha.
    { apply list_elem_of_fmap. by exists (a, c). }
    rewrite bool_decide_eq_true_2 by exact Hc. cbn [algorithm logging set_log with_algorithm
      original_image current_image mask detected_regions preview_quality processing].
    split; [split; [intros _; apply elem_of_app; by left|done]|].
    split; [intros _; split; [exact Hc|split; [|done]]|by repeat split].
    intros Hcode.
    assert (Forall (fun n => n ∉ ALGORITHMS.*2) ALGORITHMS.*1) as Hd
      by (apply (bool_decide_unpack _); vm_compute; exact I).
    by eapply Forall_forall in Hd.
  - destruct (bool_decide_reflect (a ∈ ALGORITHMS.*2)) as [Hin|Hout];
      cbn [algorithm logging set_log with_algorithm
           original_image current_image mask detected_regions preview_quality processing].
    + split; [split; [intros _; apply elem_of_app; by right|done]|].
      by repeat split.
    + split; [split; [done|]|by repeat split].
      intros [?|?]%elem_of_app; done.
Qed.

Local Ltac logged :=
  split; [reflexivity|];
  cbn [current_image processing log set_current logging set_log];
  rewrite <- ?app_assoc; simpl; repeat split; try done.

(** X18.  With an image loaded and something marked, when the patch-based
    routine is the one chosen, by the code [patchmatch] or by the strategy
    selection of [auto], what [remove_watermark] returns depends on where
    the routine fails.  When the statements before its [try] raise, nothing
    is caught in the routine: the fast-marching routine is not consulted,
    the call returns [None] and the only error logged is the final one.
    Otherwise the call returns the routine's result, and if the guarded
    part raises, that failure is logged as an error and the result of the
    fast-marching routine is returned instead; then only when both fail
    does the call return [None].  The current image is replaced by a
    result and kept without one, and [processing] is [False] afterwards in
    every case. *)
Theorem patchmatch_falls_back_to_telea (o : imaging gray) (s : core)
    (preview : bool) orig m mx :
  original_image s = Some orig -> mask s = Some m ->
  np_max m = Some mx -> mx <> 0 ->
  algorithm s = "patchmatch" \/
  (algorithm s = "auto" /\ auto_select o m = Some PatchBased) ->
  let setup := patch_setup o preview (preview_quality s) orig m in
  let patch := run o PatchBased preview (preview_quality s) orig m in
  let telea := run o FastMarching preview (preview_quality s) orig m in
  let res :=
    if setup then match patch with Some r => Some r | None => telea end
    else None in
  let fallback := (Error, "PatchMatch failed, falling back to Telea") in
  let failed := (Error, "watermark removal failed") in
  exists s' entries,
    remove_watermark o s preview = Some (s', res) /\
    current_image s' = match res with Some r => Some r | None => current_image s end /\
    processing s' = false /\
    log s' = log s ++ entries /\
    errors entries
    = (if setup then match patch with Some _ => [] | None => [fallback] end else [])
      ++ match res with Some _ => [] | None => [failed] end /\
    last entries = Some (match res with
                         | Some _ => (Info, "watermark removed")
                         | None => failed
                         end).
Proof.
  intros Ho Hm Hmx Hne Halg. simpl.
  unfold remove_watermark. rewrite Ho, Hm, Hmx. simpl.
  destruct (Z.eqb_spec mx 0) as [|_]; [done|].
  destruct Halg as [->|[-> Hauto]]; cbn [String.eqb Ascii.eqb Bool.eqb].
  - unfold run_method. cbn [preview_quality set_current].
    destruct (patch_setup o _ _ _ _); simpl.
    + destruct (run o PatchBased _ _ _ _) as [r|]; simpl.
      * eexists _, [_]. logged.
      * destruct (run o FastMarching _ _ _ _) as [r|]; simpl;
          eexists _, [_; _]; logged.
    + eexists _, [_]. logged.
  - unfold _auto_algorithm, auto_select in *.
    destruct (auto_branch o m) as [[mt msg]|]; [|done]. simpl in Hauto.
    injection Hauto as ->.
    unfold run_method. cbn [preview_quality set_current logging set_log].
    destruct (patch_setup o _ _ _ _); simpl.
    + destruct (run o PatchBased _ _ _ _) as [r|]; simpl.
      * eexists _, [_; _]. logged.
      * destruct (run o FastMarching _ _ _ _) as [r|]; simpl;
          eexists _, [_; _; _]; logged.
    + eexists _, [_; _]. logged.
Qed.

End Algorithm.

Lemma patchmatch_falls_back_to_telea_witness :
  let o := {| Core.run := fun mt _ _ i _ =>
                match mt with Core.PatchBased => None | _ => Some i end;
              Core.patch_setup := fun preview _ _ _ => negb preview;
              Core.dilate := Sample.morph Z.max; Core.erode := Sample.morph Z.min;
              Core.find_boxes := fun _ => Some (tt, []);
              Core.np_std := fun _ _ => 0%Q; Core.sobel_sum := fun _ _ => 0%Q |} in
  let s := Core.set_mask (CoreSetup.with_algorithm Sample.core_fresh "patchmatch")
             (Some [[255]]) in
  (exists s', Core.remove_watermark o s false = Some (s', Some Sample.dot) /\
              Core.processing s' = false) /\
  (exists s', Core.remove_watermark o s true = Some (s', None) /\
              Core.log s' = [(Core.Error, "watermark removal failed")]).
Proof.
  intros o s. split.
  - destruct (patchmatch_falls_back_to_telea o s false Sample.dot [[255]] 255)
      as (s' & entries & E & _ & Hp & _);
      [reflexivity|reflexivity|reflexivity|discriminate|by left|].
    exists s'. split; [exact E|exact Hp].
  - destruct (patchmatch_falls_back_to_telea o s true Sample.dot [[255]] 255)
      as (s' & entries & E & _ & _ & Hl & _);
      [reflexivity|reflexivity|reflexivity|discriminate|by left|].
    exists s'. split; [exact E|].
    vm_compute in E. injection E as <-. reflexivity.
Defined.
